(** * Nick-method transaction builder and parser

    A shallow embedding of the three entry points of the package
    ([genRawTransaction], [genRawDeployment], [recoverRawTransaction]) and of
    the parts of the Ethereum libraries they call (hex buffers, RLP, the
    legacy transaction object, keccak-256, secp256k1 public-key recovery and
    EIP-55 checksums), followed by the properties of the specification.

    JavaScript strings are [string]; buffers are [list byte]; bigints are [N];
    a thrown exception is the [Err] branch of [Result]. *)

From Stdlib Require Import ZArith NArith List String Ascii Bool Lia.
From Stdlib.Strings Require Import Byte.
From Bignums Require Import BigZ.
Import ListNotations.

Set Warnings "-register-all".

Local Open Scope string_scope.
Local Open Scope list_scope.
Local Open Scope N_scope.

(** ** Errors *)

(** Exceptions.  The first four are the [throw new Error(msg)] statements of
    the three source functions and carry the message; the others are raised
    inside the imported transaction library and are named after section 7 of
    the specification ([InvalidFieldValue]: a decoded field that cannot be
    read as its type, a list for a byte string or an address that is not 20
    bytes). *)
Inductive Error : Type :=
| MissingField (msg : string)
| InvalidAddress (msg : string)
| InvalidSignatureComponent (msg : string)
| InvalidHex (msg : string)
| MalformedRLP
| InvalidFieldCount
| InvalidFieldValue
| InvalidSignature.

Inductive Result (A : Type) : Type :=
| Ok (a : A)
| Err (e : Error).
Arguments Ok {A} a.
Arguments Err {A} e.

Definition bind {A B : Type} (x : Result A) (f : A -> Result B) : Result B :=
  match x with
  | Ok a => f a
  | Err e => Err e
  end.

Notation "x <- a ;; b" := (bind a (fun x => b))
  (at level 61, a at next level, right associativity).

Definition guard (ok : bool) (e : Error) : Result unit :=
  if ok then Ok tt else Err e.

(** ** Hexadecimal strings *)

Definition bytes : Type := list byte.

(** Value of a character of the class [[0-9A-Fa-f]]. *)
Definition hexDigitValue (c : ascii) : option N :=
  let n := N_of_ascii c in
  if (48 <=? n) && (n <=? 57) then Some (n - 48)
  else if (65 <=? n) && (n <=? 70) then Some (n - 55)
  else if (97 <=? n) && (n <=? 102) then Some (n - 87)
  else None.

Definition isHexDigit (c : ascii) : bool :=
  match hexDigitValue c with Some _ => true | None => false end.

Fixpoint allHexDigits (s : string) : bool :=
  match s with
  | EmptyString => true
  | String c rest => isHexDigit c && allHexDigits rest
  end.

(** [isValidHex]: the regular expression [/^0x[0-9A-Fa-f]*$/]. *)
Definition isValidHex (value : string) : bool :=
  match value with
  | String "0" (String "x" rest) => allHexDigits rest
  | _ => false
  end.

(** Lower-case digit of a nibble, as [toString(16)] and
    [Buffer.toString('hex')] print it. *)
Definition hexDigit (n : N) : ascii :=
  if n <? 10 then ascii_of_N (48 + n) else ascii_of_N (87 + n).

Definition toLowerCase_char (c : ascii) : ascii :=
  let n := N_of_ascii c in
  if (65 <=? n) && (n <=? 90) then ascii_of_N (n + 32) else c.

Definition toUpperCase_char (c : ascii) : ascii :=
  let n := N_of_ascii c in
  if (97 <=? n) && (n <=? 122) then ascii_of_N (n - 32) else c.

Fixpoint toLowerCase (s : string) : string :=
  match s with
  | EmptyString => EmptyString
  | String c rest => String (toLowerCase_char c) (toLowerCase rest)
  end.

(** ** Positional digits *)

(** Digits of [n] in base [base], least significant first; [fuel] bounds the
    number of digits produced. *)
Fixpoint digitsLE (base : N) (fuel : nat) (n : N) : list N :=
  match fuel with
  | O => []
  | S f => if n =? 0 then [] else (n mod base) :: digitsLE base f (n / base)
  end.

(** Most significant digit first, no leading zero; zero has no digit. *)
Definition digits (base n : N) : list N :=
  rev (digitsLE base (N.to_nat (N.size n)) n).

Definition undigits (base : N) (ds : list N) : N :=
  fold_left (fun acc d => acc * base + d) ds 0.

Definition byte_of_N (n : N) : byte :=
  match Byte.of_N (n mod 256) with
  | Some b => b
  | None => x00
  end.

(** ** Buffers *)

(** [Buffer.from(s, 'hex')]: two digits per byte; decoding stops at the first
    pair that is not made of two hex digits (an odd last digit is dropped). *)
Fixpoint Buffer_from_hex (s : string) : bytes :=
  match s with
  | String a (String b rest) =>
      match hexDigitValue a, hexDigitValue b with
      | Some h, Some l => byte_of_N (16 * h + l) :: Buffer_from_hex rest
      | _, _ => []
      end
  | _ => []
  end.

Definition byteToHex (b : byte) : string :=
  let n := Byte.to_N b in
  String (hexDigit (n / 16)) (String (hexDigit (n mod 16)) EmptyString).

(** [buf.toString('hex')]. *)
Fixpoint Buffer_toString_hex (bs : bytes) : string :=
  match bs with
  | [] => EmptyString
  | b :: rest => (byteToHex b ++ Buffer_toString_hex rest)%string
  end.

Definition stripHexPrefix (s : string) : string :=
  match s with
  | String "0" (String "x" rest) => rest
  | _ => s
  end.

Definition padToEven (s : string) : string :=
  if Nat.even (String.length s) then s else String "0" s.

(** Modelled from the spec: [toBuffer] of the imported utility library (the
    Integer/Hex Normalizer of section 4.1) on a string: the string must match
    [0x[0-9A-Fa-f]*], and its digits, padded on the left to an even number,
    are the bytes of the buffer. *)
Definition toBuffer (v : string) : Result bytes :=
  if isValidHex v then Ok (Buffer_from_hex (padToEven (stripHexPrefix v)))
  else Err (InvalidHex "Cannot convert string to buffer").

(** Modelled from the spec: big-endian value of a buffer ([bufferToBigInt]);
    the empty buffer is zero. *)
Definition bufferToBigInt (b : bytes) : N :=
  undigits 256 (map Byte.to_N b).

(** Modelled from the spec: the canonical minimal big-endian byte form of an
    integer ([bigIntToUnpaddedBuffer]); zero is the empty sequence. *)
Definition bigIntToUnpaddedBuffer (n : N) : bytes :=
  map byte_of_N (digits 256 n).

Fixpoint string_of_chars (l : list ascii) : string :=
  match l with
  | [] => EmptyString
  | c :: rest => String c (string_of_chars rest)
  end.

(** [n.toString(16)] on a bigint. *)
Definition BigInt_toString16 (n : N) : string :=
  if n =? 0 then "0" else string_of_chars (map hexDigit (digits 16 n)).

(** ** JavaScript numbers *)

(** A number is NaN, an infinity, or the finite value
    [(-1)^negative * m * 2^e] (a double when [isDouble] holds). *)
Inductive JsNumber : Type :=
| JsNaN
| JsInfinity (negative : bool)
| JsFinite (negative : bool) (m : N) (e : Z).

(** The number written as the integer literal [n]. *)
Definition JsInt (n : N) : JsNumber := JsFinite false n 0.

Fixpoint trailingZeros (p : positive) : N :=
  match p with
  | xO q => N.succ (trailingZeros q)
  | _ => 0
  end.

(** 53 bits of significand, exponent of the last bit at least -1074, value
    below 2^1024. *)
Definition isDouble (x : JsNumber) : bool :=
  match x with
  | JsFinite _ (Npos p) e =>
      let tz := trailingZeros p in
      let m' := N.shiftr (Npos p) tz in
      let e' := (e + Z.of_N tz)%Z in
      (N.size m' <=? 53) && (-1074 <=? e')%Z && (Z.of_N (N.size m') + e' <=? 1024)%Z
  | _ => true
  end.

Definition integerPart (m : N) (e : Z) : N :=
  match e with
  | Z0 => m
  | Zpos p => N.shiftl m (Npos p)
  | Zneg p => N.shiftr m (Npos p)
  end.

(** Numerator of the fractional part over [2^k], where [k = -e]. *)
Definition fractionPart (m : N) (e : Z) : N :=
  match e with
  | Zneg p => m mod 2 ^ Npos p
  | _ => 0
  end.

(** Hex digits of the fraction [f / 2^k], until it is exhausted. *)
Fixpoint fractionDigits (fuel : nat) (f k : N) : list N :=
  match fuel with
  | O => []
  | S fuel' =>
      if f =? 0 then []
      else (16 * f / 2 ^ k) :: fractionDigits fuel' ((16 * f) mod 2 ^ k) k
  end.

Definition isInteger (x : JsNumber) : bool :=
  match x with
  | JsFinite _ m e => fractionPart m e =? 0
  | _ => false
  end.

(** The number of low hex digits that a double of more than 53 bits does
    not represent. ECMAScript leaves the digits of [toString(16)] beyond the
    precision of the number to the engine; V8, the engine of Node, divides
    the integer by 16, and prints a zero, as long as the exponent of its
    53-bit significand is positive, before it prints the integer digits. *)
Definition unrepresentedDigits (n : N) : N :=
  if N.size n <=? 53 then 0 else (N.size n - 53 + 3) / 4.

(** The integer digits in radix 16, as the engine prints them: the digits of
    the integer without its unrepresented digits, then a zero for each of
    these. *)
Definition integerToString16 (n : N) : string :=
  let k := unrepresentedDigits n in
  (BigInt_toString16 (n / 16 ^ k)
   ++ string_of_chars (repeat "0"%char (N.to_nat k)))%string.

(** [x.toString(16)] on a number, as V8 (the engine of Node) computes it:
    sign, integer digits, and a point followed by the fraction digits when
    the value is not an integer (radix 16 never switches to exponent
    notation). *)
Definition Number_toString16 (x : JsNumber) : string :=
  match x with
  | JsNaN => "NaN"
  | JsInfinity negative => if negative then "-Infinity" else "Infinity"
  | JsFinite negative m e =>
      if m =? 0 then "0"
      else
        let k := Z.to_N (- e) in
        let fd := fractionDigits (N.to_nat k) (fractionPart m e) k in
        ((if negative then "-" else "")
         ++ integerToString16 (integerPart m e)
         ++ match fd with
            | [] => ""
            | _ => String "." (string_of_chars (map hexDigit fd))
            end)%string
  end.

(** [Number(b)] for a non-negative bigint [b] (and [Number(b.toString())]):
    the nearest double, ties to even, given by its exact integer value.
    Every field of an accepted transaction is below [2^257], far from the
    overflow to Infinity at [2^1024]. *)
Definition Number_of_bigint (n : N) : N :=
  let bits := N.size n in
  if bits <=? 53 then n
  else
    let sh := bits - 53 in
    let q := N.shiftr n sh in
    let rest := n mod 2 ^ sh in
    let half := 2 ^ (sh - 1) in
    let q' := if (half <? rest) || ((rest =? half) && N.odd q) then q + 1 else q in
    N.shiftl q' sh.

(** A config field of type [number | string]. *)
Inductive NumberOrString : Type :=
| Num (n : JsNumber)
| Str (s : string).

(** JavaScript truthiness: [0], [-0], [NaN] and [""] are falsy. *)
Definition truthy_number (x : JsNumber) : bool :=
  match x with
  | JsNaN => false
  | JsInfinity _ => true
  | JsFinite _ m _ => negb (m =? 0)
  end.

Definition truthy_string (s : string) : bool :=
  match s with
  | EmptyString => false
  | _ => true
  end.

Definition truthy (x : NumberOrString) : bool :=
  match x with
  | Num n => truthy_number n
  | Str s => truthy_string s
  end.

(** Truthiness of an optional field: [undefined] is falsy. *)
Definition truthy_opt {A : Type} (t : A -> bool) (x : option A) : bool :=
  match x with
  | Some a => t a
  | None => false
  end.

(** [typeof x === 'number' ? `0x${x.toString(16)}` : x]. *)
Definition toHexField (x : NumberOrString) : string :=
  match x with
  | Num n => ("0x" ++ Number_toString16 n)%string
  | Str s => s
  end.

(** ** RLP *)

Inductive RLPItem : Type :=
| RLPBytes (b : bytes)
| RLPList (items : list RLPItem).

Definition len {A : Type} (l : list A) : N := N.of_nat (List.length l).

(** [input.slice(a, b)]. *)
Definition slice {A : Type} (l : list A) (a b : N) : list A :=
  firstn (N.to_nat (b - a)) (skipn (N.to_nat a) l).

(** Modelled from the spec: the length prefix of section 4.2: one byte
    [offset + len] for [len < 56], otherwise [offset + 55 + k] followed by
    the [k] bytes of [len]. *)
Definition encodeLength (length offset : N) : bytes :=
  if length <? 56 then [byte_of_N (length + offset)]
  else
    let lengthBytes := bigIntToUnpaddedBuffer length in
    byte_of_N (offset + 55 + len lengthBytes) :: lengthBytes.

Definition encodeBytes (b : bytes) : bytes :=
  match b with
  | [x] => if Byte.to_N x <? 128 then [x] else encodeLength 1 128 ++ b
  | _ => encodeLength (len b) 128 ++ b
  end.

(** Modelled from the spec: [RLP.encode] (section 4.2): a byte sequence of
    length 1 below 0x80 encodes as itself, another byte sequence as its
    length prefix (offset 0x80) and its bytes, a list as the length prefix
    (offset 0xC0) of the concatenated encodings of its children, then them. *)
Fixpoint RLP_encode (item : RLPItem) : bytes :=
  match item with
  | RLPBytes b => encodeBytes b
  | RLPList items =>
      let payload := flat_map RLP_encode items in
      encodeLength (len payload) 192 ++ payload
  end.

Definition safeSlice (input : bytes) (a b : N) : Result bytes :=
  if len input <? b then Err MalformedRLP else Ok (slice input a b).

(** A length of length: no leading zero byte. *)
Definition decodeLength (v : bytes) : Result N :=
  match v with
  | [] => Err MalformedRLP
  | b :: _ => if Byte.to_N b =? 0 then Err MalformedRLP else Ok (bufferToBigInt v)
  end.

(** Modelled from the spec: [RLP.decode] (section 4.2), by the first byte:
    a single byte, a short string, a long string, a short list, a long list.
    Truncated input, a single byte below 0x80 in string form and a long form
    used for a short payload are [MalformedRLP].  [fuel] bounds the nesting
    and the number of items. *)
Fixpoint RLP_decode_item (fuel : nat) (input : bytes) : Result (RLPItem * bytes) :=
  match fuel with
  | O => Err MalformedRLP
  | S fuel' =>
      match input with
      | [] => Err MalformedRLP
      | first :: _ =>
          let firstByte := Byte.to_N first in
          if firstByte <=? 127 then
            Ok (RLPBytes [first], slice input 1 (len input))
          else if firstByte <=? 183 then
            let length := firstByte - 127 in
            data <- (if firstByte =? 128 then Ok [] else safeSlice input 1 length) ;;
            _ <- guard (negb ((length =? 2)
                              && match data with
                                 | d :: _ => Byte.to_N d <? 128
                                 | [] => false
                                 end)) MalformedRLP ;;
            Ok (RLPBytes data, slice input length (len input))
          else if firstByte <=? 191 then
            let llength := firstByte - 182 in
            _ <- guard (llength <=? len input - 1) MalformedRLP ;;
            lengthBytes <- safeSlice input 1 llength ;;
            length <- decodeLength lengthBytes ;;
            _ <- guard (55 <? length) MalformedRLP ;;
            data <- safeSlice input llength (length + llength) ;;
            Ok (RLPBytes data, slice input (length + llength) (len input))
          else if firstByte <=? 247 then
            let length := firstByte - 191 in
            inner <- safeSlice input 1 length ;;
            items <- RLP_decode_items fuel' inner ;;
            Ok (RLPList items, slice input length (len input))
          else
            let llength := firstByte - 246 in
            lengthBytes <- safeSlice input 1 llength ;;
            length <- decodeLength lengthBytes ;;
            _ <- guard (56 <=? length) MalformedRLP ;;
            let totalLength := llength + length in
            _ <- guard (totalLength <=? len input) MalformedRLP ;;
            inner <- safeSlice input llength totalLength ;;
            items <- RLP_decode_items fuel' inner ;;
            Ok (RLPList items, slice input totalLength (len input))
      end
  end
with RLP_decode_items (fuel : nat) (input : bytes) : Result (list RLPItem) :=
  match fuel with
  | O => Err MalformedRLP
  | S fuel' =>
      match input with
      | [] => Ok []
      | _ =>
          d <- RLP_decode_item fuel' input ;;
          rest <- RLP_decode_items fuel' (snd d) ;;
          Ok (fst d :: rest)
      end
  end.

(** The whole input must be one item: trailing bytes are rejected. *)
Definition RLP_decode (input : bytes) : Result RLPItem :=
  match input with
  | [] => Ok (RLPBytes [])
  | _ =>
      d <- RLP_decode_item (2 * List.length input + 2) input ;;
      _ <- guard (match snd d with [] => true | _ => false end) MalformedRLP ;;
      Ok (fst d)
  end.

(** ** Keccak-256 *)

Module Keccak.

Definition mask64 : N := 18446744073709551615.

Definition rotl64 (w r : N) : N :=
  N.land (N.lor (N.shiftl w r) (N.shiftr w (64 - r))) mask64.

(** The state is 25 lanes of 64 bits; lane [(x, y)] is at index [x + 5 y]. *)
Definition lane (A : list N) (x y : N) : N :=
  nth (N.to_nat (x mod 5 + 5 * (y mod 5))) A 0.

Definition coordinates : list (N * N) :=
  map (fun i => (i mod 5, i / 5)) (map N.of_nat (seq 0 25)).

Definition roundConstants : list N :=
  [ 0x0000000000000001; 0x0000000000008082; 0x800000000000808A;
    0x8000000080008000; 0x000000000000808B; 0x0000000080000001;
    0x8000000080008081; 0x8000000000008009; 0x000000000000008A;
    0x0000000000000088; 0x0000000080008009; 0x000000008000000A;
    0x000000008000808B; 0x800000000000008B; 0x8000000000008089;
    0x8000000000008003; 0x8000000000008002; 0x8000000000000080;
    0x000000000000800A; 0x800000008000000A; 0x8000000080008081;
    0x8000000000008080; 0x0000000080000001; 0x8000000080008008 ].

(** Rotation offsets, at index [x + 5 y]. *)
Definition rotationOffsets : list N :=
  [ 0; 1; 62; 28; 27; 36; 44; 6; 55; 20; 3; 10; 43; 25; 39; 41; 45; 15; 21;
    8; 18; 2; 61; 56; 14 ].

Definition theta (A : list N) : list N :=
  let C x := N.lxor (lane A x 0) (N.lxor (lane A x 1) (N.lxor (lane A x 2)
               (N.lxor (lane A x 3) (lane A x 4)))) in
  let Cs := map C [0; 1; 2; 3; 4] in
  let D x := N.lxor (nth (N.to_nat ((x + 4) mod 5)) Cs 0)
                    (rotl64 (nth (N.to_nat ((x + 1) mod 5)) Cs 0) 1) in
  let Ds := map D [0; 1; 2; 3; 4] in
  map (fun xy => N.lxor (lane A (fst xy) (snd xy)) (nth (N.to_nat (fst xy)) Ds 0))
      coordinates.

(** [B[y, 2x + 3y] = rotl (A[x, y], r[x, y])], read at the target lane. *)
Definition rhoPi (A : list N) : list N :=
  map (fun XY =>
         let x := (fst XY + 3 * snd XY) mod 5 in
         let y := fst XY in
         rotl64 (lane A x y) (lane rotationOffsets x y))
      coordinates.

Definition chi (B : list N) : list N :=
  map (fun xy =>
         let x := fst xy in
         let y := snd xy in
         N.lxor (lane B x y)
                (N.land (N.lxor (lane B (x + 1) y) mask64) (lane B (x + 2) y)))
      coordinates.

Definition iota (rc : N) (A : list N) : list N :=
  match A with
  | a :: rest => N.lxor a rc :: rest
  | [] => []
  end.

Definition round (A : list N) (rc : N) : list N :=
  iota rc (chi (rhoPi (theta A))).

Definition permutation (A : list N) : list N :=
  fold_left round roundConstants A.

Definition rate : nat := 136.

Definition laneOfBytes (bs : bytes) : N :=
  fold_right (fun b acc => Byte.to_N b + 256 * acc) 0 bs.

Fixpoint lanesOfBlock (n : nat) (block : bytes) : list N :=
  match n with
  | O => []
  | S n' => laneOfBytes (firstn 8 block) :: lanesOfBlock n' (skipn 8 block)
  end.

Fixpoint xorLanes (A B : list N) : list N :=
  match A, B with
  | a :: A', b :: B' => N.lxor a b :: xorLanes A' B'
  | _, [] => A
  | [], _ => []
  end.

Fixpoint absorb (fuel : nat) (A : list N) (msg : bytes) : list N :=
  match fuel with
  | O => A
  | S fuel' =>
      match msg with
      | [] => A
      | _ => absorb fuel'
               (permutation (xorLanes A (lanesOfBlock 17 (firstn rate msg))))
               (skipn rate msg)
      end
  end.

(** Padding [0x01 0x00 ... 0x80] up to a multiple of the rate. *)
Definition pad (msg : bytes) : bytes :=
  let padLength := (rate - (List.length msg mod rate))%nat in
  match padLength with
  | S O => msg ++ [x81]
  | _ => msg ++ x01 :: repeat x00 (padLength - 2) ++ [x80]
  end.

Fixpoint bytesOfLane (n : nat) (w : N) : bytes :=
  match n with
  | O => []
  | S n' => byte_of_N w :: bytesOfLane n' (w / 256)
  end.

Definition keccak256 (msg : bytes) : bytes :=
  let padded := pad msg in
  let A := absorb (List.length padded) (repeat 0 25) padded in
  flat_map (bytesOfLane 8) (firstn 4 A).

End Keccak.

(** Modelled from the spec: keccak-256, the hash of the signing payload and
    of the address derivations (glossary and section 4.3). *)
Definition keccak256 : bytes -> bytes := Keccak.keccak256.

(** ** secp256k1 public-key recovery *)

Module Secp256k1.

Local Open Scope bigZ_scope.

Definition P : bigZ := 2 ^ 256 - 2 ^ 32 - 977.
Definition order : bigZ :=
  BigZ.of_Z 0xFFFFFFFFFFFFFFFFFFFFFFFFFFFFFFFEBAAEDCE6AF48A03BBFD25E8CD0364141.
Definition Gx : bigZ :=
  BigZ.of_Z 0x79BE667EF9DCBBAC55A06295CE870B07029BFCDB2DCE28D959F2815B16F81798.
Definition Gy : bigZ :=
  BigZ.of_Z 0x483ADA7726A3C4655DA4FBFC0E1108A8FD17B448A68554199C47D08FFB10D4B8.

(** Extended Euclid: the coefficient of [a] in [gcd a m]. *)
Fixpoint egcd (fuel : nat) (r0 r1 s0 s1 : bigZ) : bigZ :=
  match fuel with
  | O => s0
  | S fuel' =>
      if r1 =? 0 then s0
      else let q := r0 / r1 in egcd fuel' r1 (r0 - q * r1) s1 (s0 - q * s1)
  end.

Definition invmod (a m : bigZ) : bigZ := egcd 1000 (a mod m) m 1 0 mod m.

Fixpoint powmod (b : bigZ) (e : positive) (m : bigZ) : bigZ :=
  match e with
  | xH => b mod m
  | xO e' => let h := powmod b e' m in (h * h) mod m
  | xI e' => let h := powmod b e' m in (((h * h) mod m) * b) mod m
  end.

(** Jacobian coordinates [(X, Y, Z)] for [(X / Z^2, Y / Z^3)]; [Z = 0] is
    the point at infinity. *)
Definition point : Type := bigZ * bigZ * bigZ.

Definition infinity : point := (1, 1, 0).

Definition double (p : point) : point :=
  let '(X1, Y1, Z1) := p in
  if (Z1 =? 0) || (Y1 =? 0) then infinity
  else
    let A := (X1 * X1) mod P in
    let B := (Y1 * Y1) mod P in
    let C := (B * B) mod P in
    let D := (2 * ((X1 + B) * (X1 + B) - A - C)) mod P in
    let E := (3 * A) mod P in
    let F := (E * E) mod P in
    let X3 := (F - 2 * D) mod P in
    let Y3 := (E * (D - X3) - 8 * C) mod P in
    let Z3 := (2 * Y1 * Z1) mod P in
    (X3, Y3, Z3).

Definition add (p q : point) : point :=
  let '(X1, Y1, Z1) := p in
  let '(X2, Y2, Z2) := q in
  if Z1 =? 0 then q
  else if Z2 =? 0 then p
  else
    let Z1Z1 := (Z1 * Z1) mod P in
    let Z2Z2 := (Z2 * Z2) mod P in
    let U1 := (X1 * Z2Z2) mod P in
    let U2 := (X2 * Z1Z1) mod P in
    let S1 := (Y1 * Z2 * Z2Z2) mod P in
    let S2 := (Y2 * Z1 * Z1Z1) mod P in
    if U1 =? U2 then (if S1 =? S2 then double p else infinity)
    else
      let H := (U2 - U1) mod P in
      let R := (S2 - S1) mod P in
      let H2 := (H * H) mod P in
      let H3 := (H * H2) mod P in
      let V := (U1 * H2) mod P in
      let X3 := (R * R - H3 - 2 * V) mod P in
      let Y3 := (R * (V - X3) - S1 * H3) mod P in
      let Z3 := (H * Z1 * Z2) mod P in
      (X3, Y3, Z3).

Fixpoint mulPos (k : positive) (p : point) : point :=
  match k with
  | xH => p
  | xO k' => double (mulPos k' p)
  | xI k' => add (double (mulPos k' p)) p
  end.

Definition mul (k : bigZ) (p : point) : point :=
  match BigZ.to_Z k with
  | Zpos k' => mulPos k' p
  | _ => infinity
  end.

Definition toAffine (p : point) : option (bigZ * bigZ) :=
  let '(X1, Y1, Z1) := p in
  if Z1 =? 0 then None
  else
    let zi := invmod Z1 P in
    let zi2 := (zi * zi) mod P in
    Some ((X1 * zi2) mod P, (Y1 * zi2 * zi) mod P).

(** The curve point with abscissa [x] and the ordinate of the given
    parity, when [x^3 + 7] is a square. *)
Definition liftX (x : bigZ) (odd : bool) : option point :=
  let y2 := (x * x * x + 7) mod P in
  let y := powmod y2 (Z.to_pos (BigZ.to_Z ((P + 1) / 4))) P in
  if (y * y) mod P =? y2 then
    Some (x, if Bool.eqb (BigZ.to_Z y mod 2 =? 1)%Z odd then y else (P - y) mod P, 1)
  else None.

(** [Q = r^-1 (s R - h G)]. *)
Definition recover (h : bigZ) (recovery : N) (r s : bigZ) : option (bigZ * bigZ) :=
  if (0 <? r) && (r <? order) && (0 <? s) && (s <? order) then
    match liftX r (N.odd recovery) with
    | None => None
    | Some R =>
        let rinv := invmod r order in
        let u1 := (- (h mod order) * rinv) mod order in
        let u2 := (s * rinv) mod order in
        toAffine (add (mul u1 (Gx, Gy, 1)) (mul u2 R))
    end
  else None.

End Secp256k1.

(** [setLengthLeft]: exactly [n] bytes, zeros added (or bytes dropped) on the
    left. *)
Definition setLengthLeft (b : bytes) (n : nat) : bytes :=
  repeat x00 (n - List.length b) ++ skipn (List.length b - n) b.

Definition bigZ_of_N (n : N) : bigZ := BigZ.of_Z (Z.of_N n).
Definition N_of_bigZ (z : bigZ) : N := Z.to_N (BigZ.to_Z z).

(** Modelled from the spec: [recoverPublicKey(hash32, v, r, s)] of section
    4.4: standard secp256k1 recovery with recovery id [recovery]; fails with
    [InvalidSignature] when [r] or [s] is zero or not below the curve order,
    or when no point is recovered; returns the 64 bytes [x || y]. *)
Definition recoverPublicKey (msgHash : bytes) (recovery r s : N) : Result bytes :=
  match Secp256k1.recover (bigZ_of_N (bufferToBigInt msgHash)) recovery
                          (bigZ_of_N r) (bigZ_of_N s) with
  | Some (x, y) =>
      Ok (setLengthLeft (bigIntToUnpaddedBuffer (N_of_bigZ x)) 32
          ++ setLengthLeft (bigIntToUnpaddedBuffer (N_of_bigZ y)) 32)
  | None => Err InvalidSignature
  end.

(** Modelled from the spec: [deriveAddress] of section 4.4: the low 20 bytes
    of the keccak-256 hash of the public key. *)
Definition publicToAddress (pubKey : bytes) : bytes :=
  skipn 12 (keccak256 pubKey).

(** ** Checksummed addresses *)

Definition bytes_of_string (s : string) : bytes :=
  map byte_of_ascii (list_ascii_of_string s).

Fixpoint checksumCase (address hash : list ascii) : list ascii :=
  match address, hash with
  | c :: address', h :: hash' =>
      (match hexDigitValue h with
       | Some d => if 8 <=? d then toUpperCase_char c else c
       | None => c
       end) :: checksumCase address' hash'
  | _, _ => address
  end.

(** Modelled from the spec: the checksum formatter [toChecksumAddress]
    (EIP-55): a digit of the lower-cased address is upper-cased when the
    matching digit of the keccak-256 hash of the address text is at least 8. *)
Definition toChecksumAddress (hexAddress : string) : string :=
  let address := toLowerCase (stripHexPrefix hexAddress) in
  let hash := Buffer_toString_hex (keccak256 (bytes_of_string address)) in
  ("0x" ++ string_of_chars
             (checksumCase (list_ascii_of_string address) (list_ascii_of_string hash)))%string.

(** [/^0x[0-9a-fA-F]{40}$/]. *)
Definition isValidAddress (hexAddress : string) : bool :=
  isValidHex hexAddress && (String.length hexAddress =? 42)%nat.

(** Modelled from the spec: the collaborator [isValidChecksumAddress]. *)
Definition isValidChecksumAddress (hexAddress : string) : bool :=
  isValidAddress hexAddress && String.eqb (toChecksumAddress hexAddress) hexAddress.

(** ** The legacy transaction object *)

(** The transaction of the imported library: numeric fields as bigints,
    [to] and the signature absent when their buffer is empty. *)
Record Transaction : Type := {
  tx_nonce : N;
  tx_gasPrice : N;
  tx_gasLimit : N;
  tx_to : option bytes;
  tx_value : N;
  tx_data : bytes;
  tx_v : option N;
  tx_r : option N;
  tx_s : option N
}.

Definition nonEmpty (b : bytes) : option bytes :=
  match b with
  | [] => None
  | _ => Some b
  end.

(** Modelled from the spec: an address is a fixed 20-byte value (section
    3): a recipient of another length is not a transaction field. *)
Definition validateTransaction (tx : Transaction) : Result Transaction :=
  _ <- guard (match tx_to tx with
              | Some a => (List.length a =? 20)%nat
              | None => true
              end) InvalidFieldValue ;;
  Ok tx.

(** Modelled from the spec: the legacy transaction built from its nine field
    buffers: numeric fields by their big-endian value, [to] and the signature
    components absent when their buffer is empty. *)
Definition newTransaction (nonce gasPrice gasLimit to value data v r s : bytes)
  : Result Transaction :=
  validateTransaction
    {| tx_nonce := bufferToBigInt nonce;
       tx_gasPrice := bufferToBigInt gasPrice;
       tx_gasLimit := bufferToBigInt gasLimit;
       tx_to := nonEmpty to;
       tx_value := bufferToBigInt value;
       tx_data := data;
       tx_v := option_map bufferToBigInt (nonEmpty v);
       tx_r := option_map bufferToBigInt (nonEmpty r);
       tx_s := option_map bufferToBigInt (nonEmpty s) |}.

(** The [txParams] object literal of the two builders. *)
Record TxParams : Type := {
  p_nonce : string;
  p_gasPrice : string;
  p_gasLimit : string;
  p_to : option string;
  p_value : string;
  p_data : string;
  p_v : string;
  p_r : string;
  p_s : string
}.

(** Modelled from the spec: [Transaction.fromTxData] (step 4 of Build):
    every field is normalized by [toBuffer]; an [undefined] field is the
    empty buffer. *)
Definition Transaction_fromTxData (p : TxParams) : Result Transaction :=
  nonce <- toBuffer (p_nonce p) ;;
  gasPrice <- toBuffer (p_gasPrice p) ;;
  gasLimit <- toBuffer (p_gasLimit p) ;;
  to <- match p_to p with Some a => toBuffer a | None => Ok [] end ;;
  value <- toBuffer (p_value p) ;;
  data <- toBuffer (p_data p) ;;
  v <- toBuffer (p_v p) ;;
  r <- toBuffer (p_r p) ;;
  s <- toBuffer (p_s p) ;;
  newTransaction nonce gasPrice gasLimit to value data v r s.

Definition optBytes (x : option bytes) : bytes :=
  match x with
  | Some b => b
  | None => []
  end.

Definition optUnpadded (x : option N) : bytes :=
  match x with
  | Some n => bigIntToUnpaddedBuffer n
  | None => []
  end.

(** The six fields of the signing payload, in order. *)
Definition rawUnsigned (tx : Transaction) : list bytes :=
  [ bigIntToUnpaddedBuffer (tx_nonce tx);
    bigIntToUnpaddedBuffer (tx_gasPrice tx);
    bigIntToUnpaddedBuffer (tx_gasLimit tx);
    optBytes (tx_to tx);
    bigIntToUnpaddedBuffer (tx_value tx);
    tx_data tx ].

(** The nine fields [nonce, gasPrice, gasLimit, to, value, data, v, r, s]. *)
Definition raw (tx : Transaction) : list bytes :=
  rawUnsigned tx ++ [ optUnpadded (tx_v tx); optUnpadded (tx_r tx); optUnpadded (tx_s tx) ].

(** Modelled from the spec: [serialize(fields9)] of section 4.3. *)
Definition serialize (tx : Transaction) : bytes :=
  RLP_encode (RLPList (map RLPBytes (raw tx))).

(** Modelled from the spec: [signingHash(fields6)] of section 4.3. *)
Definition getMessageToSign (tx : Transaction) : bytes :=
  keccak256 (RLP_encode (RLPList (map RLPBytes (rawUnsigned tx)))).

(** Modelled from the spec: the sender of a signed transaction (step 5 of
    Build): recovery over the signing hash with recovery id [v - 27], for the
    unprotected [v] of 27 or 28, which is all this system produces. *)
Definition getSenderAddress (tx : Transaction) : Result bytes :=
  match tx_v tx, tx_r tx, tx_s tx with
  | Some v, Some r, Some s =>
      _ <- guard ((v =? 27) || (v =? 28)) InvalidSignature ;;
      pubKey <- recoverPublicKey (getMessageToSign tx) (v - 27) r s ;;
      Ok (publicToAddress pubKey)
  | _, _, _ => Err InvalidSignature
  end.

(** Modelled from the spec: the gas budget plus the value (step 6 of Build),
    in exact integers. *)
Definition getUpfrontCost (tx : Transaction) : N :=
  tx_gasLimit tx * tx_gasPrice tx + tx_value tx.

(** Modelled from the spec: [deriveContractAddress] of section 4.4: the low
    20 bytes of the hash of [RLP([sender, canonicalBytes(nonce)])], a zero
    nonce being the empty byte sequence. *)
Definition generateAddress (from nonce : bytes) : bytes :=
  let n := bigIntToUnpaddedBuffer (bufferToBigInt nonce) in
  skipn 12 (keccak256 (RLP_encode (RLPList [RLPBytes from; RLPBytes n]))).

Definition asBytes (i : RLPItem) : Result bytes :=
  match i with
  | RLPBytes b => Ok b
  | RLPList _ => Err InvalidFieldValue
  end.

Fixpoint allBytes (items : list RLPItem) : Result (list bytes) :=
  match items with
  | [] => Ok []
  | i :: rest => b <- asBytes i ;; bs <- allBytes rest ;; Ok (b :: bs)
  end.

(** Modelled from the spec: [Transaction.fromSerializedTx] (Parse, steps 2
    and 3): the input decodes to a top-level list of six or nine byte
    strings, read as the fields in order; six fields leave the signature
    absent. *)
Definition Transaction_fromSerializedTx (serialized : bytes) : Result Transaction :=
  decoded <- RLP_decode serialized ;;
  match decoded with
  | RLPBytes _ => Err MalformedRLP
  | RLPList items =>
      _ <- guard ((List.length items =? 6)%nat || (List.length items =? 9)%nat)
             InvalidFieldCount ;;
      values <- allBytes items ;;
      let f (i : nat) := nth i values [] in
      newTransaction (f 0%nat) (f 1%nat) (f 2%nat) (f 3%nat) (f 4%nat) (f 5%nat)
                     (f 6%nat) (f 7%nat) (f 8%nat)
  end.

(** ** Configurations and results *)

(** [TransactionConfig]; a field is [None] when it is [undefined]. *)
Record TransactionConfig : Type := {
  tc_gasLimit : option NumberOrString;
  tc_gasPrice : option NumberOrString;
  tc_to : option string;
  tc_data : option string;
  tc_value : option NumberOrString;
  tc_r : option string
}.

Record TransactionResult : Type := {
  tr_rawTx : string;
  tr_senderAddress : string;
  tr_upfrontCost : N;
  tr_r : string;
  tr_s : string;
  tr_v : string
}.

Record DeploymentConfig : Type := {
  dc_gasLimit : option NumberOrString;
  dc_gasPrice : option NumberOrString;
  dc_bytecode : option string;
  dc_value : option NumberOrString;
  dc_r : option string
}.

Record DeploymentResult : Type := {
  dr_rawTx : string;
  dr_deployerAddress : string;
  dr_contractAddress : string;
  dr_upfrontCost : N;
  dr_r : string;
  dr_s : string;
  dr_v : string
}.

Record RecoveredTransactionResult : Type := {
  rr_nonce : N;
  rr_gasPrice : N;
  rr_gasLimit : N;
  rr_to : option string;
  rr_value : N;
  rr_data : string;
  rr_v : option string;
  rr_r : option string;
  rr_s : option string
}.

(** ** The three entry points *)

Definition HARDCODED_V : string := "0x1b".
Definition HARDCODED_R : string :=
  "0x1212121212121212121212121212121212121212121212121212121212121212".
Definition HARDCODED_S : string :=
  "0x1212121212121212121212121212121212121212121212121212121212121212".

Definition quote : string := String (ascii_of_N 34) EmptyString.

Definition missingTransactionParameters : string :=
  "All parameters (gasLimit, gasPrice, to, data, value) are required".
Definition missingDeploymentParameters : string :=
  "All parameters (gasLimit, gasPrice, bytecode, value) are required".
Definition invalidToAddress : string :=
  ("Invalid or non-checksummed address provided for " ++ quote ++ "to" ++ quote)%string.
Definition invalidCustomR : string := "Invalid hex value for customR".
Definition invalidHexValues : string := "Invalid hex values in config".
Definition invalidRawTransaction : string := "Invalid hex value for rawTransaction".

(** [config.r || HARDCODED_R]. *)
Definition orDefault (r : option string) (default : string) : string :=
  match r with
  | Some s => if truthy_string s then s else default
  | None => default
  end.

(** The address text, checksummed when it is not already. *)
Definition checksummed (address : string) : string :=
  if isValidChecksumAddress address then address else toChecksumAddress address.

Definition hexOfBytes (b : bytes) : string := ("0x" ++ Buffer_toString_hex b)%string.

Definition genRawTransaction (config : TransactionConfig) : Result TransactionResult :=
  match tc_gasLimit config, tc_gasPrice config, tc_to config, tc_data config,
        tc_value config with
  | Some gasLimit0, Some gasPrice0, Some to, Some data, Some value0 =>
      if negb (truthy gasLimit0) || negb (truthy gasPrice0)
         || negb (truthy_string to) || negb (truthy_string data)
      then Err (MissingField missingTransactionParameters)
      else if negb (isValidChecksumAddress to) then Err (InvalidAddress invalidToAddress)
      else if truthy_opt truthy_string (tc_r config)
              && negb (truthy_opt isValidHex (tc_r config))
      then Err (InvalidSignatureComponent invalidCustomR)
      else
        let r := orDefault (tc_r config) HARDCODED_R in
        let gasPrice := toHexField gasPrice0 in
        let gasLimit := toHexField gasLimit0 in
        let value := toHexField value0 in
        if negb (isValidHex gasPrice) || negb (isValidHex gasLimit)
           || negb (isValidHex value) || negb (isValidHex data)
        then Err (InvalidHex invalidHexValues)
        else
          let txParams := {| p_nonce := "0x00"; p_gasPrice := gasPrice;
                             p_gasLimit := gasLimit; p_to := Some to;
                             p_value := value; p_data := data;
                             p_v := HARDCODED_V; p_r := r; p_s := HARDCODED_S |} in
          tx <- Transaction_fromTxData txParams ;;
          let serializedTx := Buffer_toString_hex (serialize tx) in
          sender <- getSenderAddress tx ;;
          let senderAddress := checksummed (hexOfBytes sender) in
          let upfrontCost := Number_of_bigint (getUpfrontCost tx) in
          Ok {| tr_rawTx := ("0x" ++ serializedTx)%string;
                tr_senderAddress := senderAddress;
                tr_upfrontCost := upfrontCost;
                tr_r := p_r txParams; tr_s := p_s txParams; tr_v := p_v txParams |}
  | _, _, _, _, _ => Err (MissingField missingTransactionParameters)
  end.

Definition genRawDeployment (config : DeploymentConfig) : Result DeploymentResult :=
  match dc_gasLimit config, dc_gasPrice config, dc_bytecode config, dc_value config with
  | Some gasLimit0, Some gasPrice0, Some bytecode, Some value0 =>
      if negb (truthy gasLimit0) || negb (truthy gasPrice0)
         || negb (truthy_string bytecode)
      then Err (MissingField missingDeploymentParameters)
      else if truthy_opt truthy_string (dc_r config)
              && negb (truthy_opt isValidHex (dc_r config))
      then Err (InvalidSignatureComponent invalidCustomR)
      else
        let r := orDefault (dc_r config) HARDCODED_R in
        let gasPrice := toHexField gasPrice0 in
        let gasLimit := toHexField gasLimit0 in
        let value := toHexField value0 in
        if negb (isValidHex gasPrice) || negb (isValidHex gasLimit)
           || negb (isValidHex value) || negb (isValidHex bytecode)
        then Err (InvalidHex invalidHexValues)
        else
          let txParams := {| p_nonce := "0x00"; p_gasPrice := gasPrice;
                             p_gasLimit := gasLimit; p_to := None;
                             p_value := value; p_data := bytecode;
                             p_v := HARDCODED_V; p_r := r; p_s := HARDCODED_S |} in
          tx <- Transaction_fromTxData txParams ;;
          let serializedTx := Buffer_toString_hex (serialize tx) in
          sender <- getSenderAddress tx ;;
          let addressRecovered := checksummed (hexOfBytes sender) in
          addressBuffer <- toBuffer addressRecovered ;;
          nonceBuffer <- toBuffer (p_nonce txParams) ;;
          let contractAddress :=
            checksummed (hexOfBytes (generateAddress addressBuffer nonceBuffer)) in
          let upfrontCost := Number_of_bigint (getUpfrontCost tx) in
          Ok {| dr_rawTx := ("0x" ++ serializedTx)%string;
                dr_deployerAddress := addressRecovered;
                dr_contractAddress := contractAddress;
                dr_upfrontCost := upfrontCost;
                dr_r := p_r txParams; dr_s := p_s txParams; dr_v := p_v txParams |}
  | _, _, _, _ => Err (MissingField missingDeploymentParameters)
  end.

Definition recoverRawTransaction (rawTransaction : string)
  : Result RecoveredTransactionResult :=
  if negb (isValidHex rawTransaction) then Err (InvalidHex invalidRawTransaction)
  else
    let cleanedRawTx := stripHexPrefix rawTransaction in
    let serialized := Buffer_from_hex cleanedRawTx in
    tx <- Transaction_fromSerializedTx serialized ;;
    let hexOfBigInt n := ("0x" ++ BigInt_toString16 n)%string in
    Ok {| rr_nonce := Number_of_bigint (tx_nonce tx);
          rr_gasPrice := Number_of_bigint (tx_gasPrice tx);
          rr_gasLimit := Number_of_bigint (tx_gasLimit tx);
          rr_to := option_map hexOfBytes (tx_to tx);
          rr_value := Number_of_bigint (tx_value tx);
          rr_data := hexOfBytes (tx_data tx);
          rr_v := option_map hexOfBigInt (tx_v tx);
          rr_r := option_map hexOfBigInt (tx_r tx);
          rr_s := option_map hexOfBigInt (tx_s tx) |}.


(** ** Vocabulary of the properties *)

(** Value of a little-endian digit list, and little-endian lists that are
    the digits of a number (every digit below the base, last one not zero). *)
Definition valueLE (base : N) (l : list N) : N :=
  fold_right (fun d acc => d + base * acc) 0 l.

Definition canonicalLE (base : N) (l : list N) : Prop :=
  Forall (fun d => d < base) l /\ last l 1 <> 0.

Definition hasLeadingZero (b : bytes) : bool :=
  match b with
  | x :: _ => Byte.to_N x =? 0
  | [] => false
  end.

(** A byte string whose length fits the eight bytes of a length prefix. *)
Definition sized (b : bytes) : Prop := len b < 2 ^ 64.

Definition digitValue (c : ascii) : N :=
  match hexDigitValue c with Some d => d | None => 0 end.

Definition hexValues (s : string) : list N :=
  map digitValue (list_ascii_of_string s).

(** The integer written by a run of hex digits. *)
Definition hexStringValue (s : string) : N := undigits 16 (hexValues s).

(** The integer a numeric config field stands for: the integer part of a
    number, the digits of a hex string. *)
Definition fieldValue (x : NumberOrString) : N :=
  match x with
  | Num (JsFinite _ m e) => integerPart m e
  | Num _ => 0
  | Str s => hexStringValue (stripHexPrefix s)
  end.

(** The integer that the radix-16 text of the integer [n] denotes: [n]
    without its unrepresented digits. *)
Definition radixInteger (n : N) : N :=
  let k := unrepresentedDigits n in (n / 16 ^ k) * 16 ^ k.

(** The integer that a builder puts in the transaction for a numeric field:
    the one that the hex text of the field denotes.  It is [fieldValue] for a
    hex string and for a number up to [2^53]. *)
Definition encodedValue (x : NumberOrString) : N :=
  match x with
  | Num (JsFinite _ m e) => radixInteger (integerPart m e)
  | Num _ => 0
  | Str s => hexStringValue (stripHexPrefix s)
  end.

(** A numeric field that is encoded as it is: a hex string, or a number up
    to [2^53]. *)
Definition exactlyEncoded (x : NumberOrString) : bool :=
  match x with
  | Str _ => true
  | Num _ => fieldValue x <=? 2 ^ 53
  end.

Definition isLowerHexDigit (c : ascii) : bool :=
  match hexDigitValue c with
  | Some d => Ascii.eqb (hexDigit d) c
  | None => false
  end.

Fixpoint allLowerHex (s : string) : bool :=
  match s with
  | EmptyString => true
  | String c rest => isLowerHexDigit c && allLowerHex rest
  end.

(** A byte payload written the way the parser prints it: [0x], then an even
    number of lower-case digits. *)
Definition canonicalData (s : string) : bool :=
  match s with
  | String "0" (String "x" ds) => allLowerHex ds && Nat.even (String.length ds)
  | _ => false
  end.

(** A number written the way the parser prints it: [0x], then lower-case
    digits, the first one not zero. *)
Definition canonicalNumber (s : string) : bool :=
  match s with
  | String "0" (String "x" (String c ds)) =>
      negb (Ascii.eqb c "0") && allLowerHex (String c ds)
  | _ => false
  end.

(** The bytes [toBuffer] gives for a valid hex string. *)
Definition bytesOfHex (s : string) : bytes :=
  Buffer_from_hex (padToEven (stripHexPrefix s)).

(** The transaction denoted by a [txParams] literal. *)
Definition transactionOfParams (p : TxParams) : Transaction :=
  {| tx_nonce := bufferToBigInt (bytesOfHex (p_nonce p));
     tx_gasPrice := bufferToBigInt (bytesOfHex (p_gasPrice p));
     tx_gasLimit := bufferToBigInt (bytesOfHex (p_gasLimit p));
     tx_to := nonEmpty (match p_to p with Some a => bytesOfHex a | None => [] end);
     tx_value := bufferToBigInt (bytesOfHex (p_value p));
     tx_data := bytesOfHex (p_data p);
     tx_v := option_map bufferToBigInt (nonEmpty (bytesOfHex (p_v p)));
     tx_r := option_map bufferToBigInt (nonEmpty (bytesOfHex (p_r p)));
     tx_s := option_map bufferToBigInt (nonEmpty (bytesOfHex (p_s p))) |}.

(** The view of a transaction that [recoverRawTransaction] returns. *)
Definition recovered (tx : Transaction) : RecoveredTransactionResult :=
  {| rr_nonce := Number_of_bigint (tx_nonce tx);
     rr_gasPrice := Number_of_bigint (tx_gasPrice tx);
     rr_gasLimit := Number_of_bigint (tx_gasLimit tx);
     rr_to := option_map hexOfBytes (tx_to tx);
     rr_value := Number_of_bigint (tx_value tx);
     rr_data := hexOfBytes (tx_data tx);
     rr_v := option_map (fun n => ("0x" ++ BigInt_toString16 n)%string) (tx_v tx);
     rr_r := option_map (fun n => ("0x" ++ BigInt_toString16 n)%string) (tx_r tx);
     rr_s := option_map (fun n => ("0x" ++ BigInt_toString16 n)%string) (tx_s tx) |}.

(** The [txParams] literal of the two builders ([to] is absent for a
    deployment). *)
Definition transactionParams (gasPrice gasLimit : NumberOrString) (to : option string)
           (value : NumberOrString) (data : string) (r : option string) : TxParams :=
  {| p_nonce := "0x00"; p_gasPrice := toHexField gasPrice;
     p_gasLimit := toHexField gasLimit; p_to := to;
     p_value := toHexField value; p_data := data;
     p_v := HARDCODED_V; p_r := orDefault r HARDCODED_R; p_s := HARDCODED_S |}.

(** The override [r] is rejected: [config.r && !isValidHex(config.r)]. *)
Definition invalidOverride (r : option string) : bool :=
  truthy_opt truthy_string r && negb (truthy_opt isValidHex r).

(** A numeric field given as the hex string the builders turn it into. *)
Definition asHex (x : NumberOrString) : NumberOrString := Str (toHexField x).

Definition hexTransactionConfig (config : TransactionConfig) : TransactionConfig :=
  {| tc_gasLimit := option_map asHex (tc_gasLimit config);
     tc_gasPrice := option_map asHex (tc_gasPrice config);
     tc_to := tc_to config;
     tc_data := tc_data config;
     tc_value := option_map asHex (tc_value config);
     tc_r := tc_r config |}.

Definition hexDeploymentConfig (config : DeploymentConfig) : DeploymentConfig :=
  {| dc_gasLimit := option_map asHex (dc_gasLimit config);
     dc_gasPrice := option_map asHex (dc_gasPrice config);
     dc_bytecode := dc_bytecode config;
     dc_value := option_map asHex (dc_value config);
     dc_r := dc_r config |}.

(** [0x] followed by [n] copies of the two digits of a byte. *)
Fixpoint repeatDigits (digits : string) (n : nat) : string :=
  match n with
  | O => EmptyString
  | S n' => (digits ++ repeatDigits digits n')%string
  end.

Definition repeatedByte (digits : string) (n : nat) : string :=
  ("0x" ++ repeatDigits digits n)%string.

(** A numeric field of a transaction config is the number [x]. *)
Definition transactionHasNumber (config : TransactionConfig) (x : JsNumber) : Prop :=
  tc_gasLimit config = Some (Num x) \/ tc_gasPrice config = Some (Num x)
  \/ tc_value config = Some (Num x).

Definition deploymentHasNumber (config : DeploymentConfig) (x : JsNumber) : Prop :=
  dc_gasLimit config = Some (Num x) \/ dc_gasPrice config = Some (Num x)
  \/ dc_value config = Some (Num x).

(** The checks that come before the hex validation of the numeric fields. *)
Definition transactionEarlyChecks (config : TransactionConfig) : bool :=
  truthy_opt truthy (tc_gasLimit config) && truthy_opt truthy (tc_gasPrice config)
  && truthy_opt truthy_string (tc_to config)
  && truthy_opt truthy_string (tc_data config)
  && match tc_value config with Some _ => true | None => false end
  && truthy_opt isValidChecksumAddress (tc_to config)
  && negb (invalidOverride (tc_r config)).

Definition deploymentEarlyChecks (config : DeploymentConfig) : bool :=
  truthy_opt truthy (dc_gasLimit config) && truthy_opt truthy (dc_gasPrice config)
  && truthy_opt truthy_string (dc_bytecode config)
  && match dc_value config with Some _ => true | None => false end
  && negb (invalidOverride (dc_r config)).

(** The config with another override [r]. *)
Definition withTransactionR (config : TransactionConfig) (r : option string)
  : TransactionConfig :=
  {| tc_gasLimit := tc_gasLimit config; tc_gasPrice := tc_gasPrice config;
     tc_to := tc_to config; tc_data := tc_data config;
     tc_value := tc_value config; tc_r := r |}.

Definition withDeploymentR (config : DeploymentConfig) (r : option string)
  : DeploymentConfig :=
  {| dc_gasLimit := dc_gasLimit config; dc_gasPrice := dc_gasPrice config;
     dc_bytecode := dc_bytecode config; dc_value := dc_value config; dc_r := r |}.

(** The characters of the class [[0-9A-Fa-f]]. *)
Definition hexAlphabet : list ascii :=
  list_ascii_of_string "0123456789abcdefABCDEF".

(** The hex validation of the numeric fields and of the payload, after the
    early checks. *)
Definition transactionHexChecks (config : TransactionConfig) : bool :=
  truthy_opt (fun x => isValidHex (toHexField x)) (tc_gasPrice config)
  && truthy_opt (fun x => isValidHex (toHexField x)) (tc_gasLimit config)
  && truthy_opt (fun x => isValidHex (toHexField x)) (tc_value config)
  && truthy_opt isValidHex (tc_data config).

Definition deploymentHexChecks (config : DeploymentConfig) : bool :=
  truthy_opt (fun x => isValidHex (toHexField x)) (dc_gasPrice config)
  && truthy_opt (fun x => isValidHex (toHexField x)) (dc_gasLimit config)
  && truthy_opt (fun x => isValidHex (toHexField x)) (dc_value config)
  && truthy_opt isValidHex (dc_bytecode config).

(** Two configs that stand for the same transaction: the same encoded
    integers, the same recipient, the same payload bytes. *)
Definition sameTransaction (c1 c2 : TransactionConfig) : Prop :=
  option_map encodedValue (tc_gasLimit c1) = option_map encodedValue (tc_gasLimit c2)
  /\ option_map encodedValue (tc_gasPrice c1) = option_map encodedValue (tc_gasPrice c2)
  /\ option_map encodedValue (tc_value c1) = option_map encodedValue (tc_value c2)
  /\ tc_to c1 = tc_to c2
  /\ option_map bytesOfHex (tc_data c1) = option_map bytesOfHex (tc_data c2).

Definition sameDeployment (c1 c2 : DeploymentConfig) : Prop :=
  option_map encodedValue (dc_gasLimit c1) = option_map encodedValue (dc_gasLimit c2)
  /\ option_map encodedValue (dc_gasPrice c1) = option_map encodedValue (dc_gasPrice c2)
  /\ option_map encodedValue (dc_value c1) = option_map encodedValue (dc_value c2)
  /\ option_map bytesOfHex (dc_bytecode c1) = option_map bytesOfHex (dc_bytecode c2).

(** Numbers of at most 256 bits and a payload shorter than [2^53]
    characters, the longest string of the platform. *)
Definition inRange (gasLimit gasPrice value : option NumberOrString)
           (data : option string) : bool :=
  truthy_opt (fun x => fieldValue x <? 2 ^ 256) gasLimit
  && truthy_opt (fun x => fieldValue x <? 2 ^ 256) gasPrice
  && truthy_opt (fun x => fieldValue x <? 2 ^ 256) value
  && truthy_opt (fun s => N.of_nat (String.length s) <? 2 ^ 53) data.

Definition transactionInRange (config : TransactionConfig) : bool :=
  inRange (tc_gasLimit config) (tc_gasPrice config) (tc_value config) (tc_data config).

Definition deploymentInRange (config : DeploymentConfig) : bool :=
  inRange (dc_gasLimit config) (dc_gasPrice config) (dc_value config)
          (dc_bytecode config).

(** The integer written by the [r] of a result. *)
Definition signatureValue (r : string) : N := hexStringValue (stripHexPrefix r).

(** A number that is an integer and is not negative ([-0] included). *)
Definition isNaturalNumber (x : JsNumber) : bool :=
  match x with
  | JsFinite negative m e => (fractionPart m e =? 0) && (negb negative || (m =? 0))
  | _ => false
  end.

(** The first check of a builder: the required fields are there, and
    truthy where the source tests their truthiness. *)
Definition transactionRequired (config : TransactionConfig) : bool :=
  truthy_opt truthy (tc_gasLimit config) && truthy_opt truthy (tc_gasPrice config)
  && truthy_opt truthy_string (tc_to config)
  && truthy_opt truthy_string (tc_data config)
  && match tc_value config with Some _ => true | None => false end.

Definition deploymentRequired (config : DeploymentConfig) : bool :=
  truthy_opt truthy (dc_gasLimit config) && truthy_opt truthy (dc_gasPrice config)
  && truthy_opt truthy_string (dc_bytecode config)
  && match dc_value config with Some _ => true | None => false end.

(** The order of the secp256k1 group. *)
Definition curveOrder : N :=
  0xFFFFFFFFFFFFFFFFFFFFFFFFFFFFFFFEBAAEDCE6AF48A03BBFD25E8CD0364141.

(** Numbers that [Number] represents exactly (at most [2^53]), a gas limit
    and a gas price that are not zero, and a payload shorter than [2^53]
    characters. *)
Definition exactRange (gasLimit gasPrice value : option NumberOrString)
           (data : option string) : bool :=
  truthy_opt (fun x => (0 <? fieldValue x) && (fieldValue x <=? 2 ^ 53)) gasLimit
  && truthy_opt (fun x => (0 <? fieldValue x) && (fieldValue x <=? 2 ^ 53)) gasPrice
  && truthy_opt (fun x => fieldValue x <=? 2 ^ 53) value
  && truthy_opt (fun s => N.of_nat (String.length s) <? 2 ^ 53) data.

(** The configs read off a parsed transaction: the numbers as numbers, the
    payload and [r] as printed, the recipient put back in checksum case. *)
Definition transactionOfRecovered (out : RecoveredTransactionResult)
  : TransactionConfig :=
  {| tc_gasLimit := Some (Num (JsInt (rr_gasLimit out)));
     tc_gasPrice := Some (Num (JsInt (rr_gasPrice out)));
     tc_to := option_map toChecksumAddress (rr_to out);
     tc_data := Some (rr_data out);
     tc_value := Some (Num (JsInt (rr_value out)));
     tc_r := rr_r out |}.

Definition deploymentOfRecovered (out : RecoveredTransactionResult)
  : DeploymentConfig :=
  {| dc_gasLimit := Some (Num (JsInt (rr_gasLimit out)));
     dc_gasPrice := Some (Num (JsInt (rr_gasPrice out)));
     dc_bytecode := Some (rr_data out);
     dc_value := Some (Num (JsInt (rr_value out)));
     dc_r := rr_r out |}.

(** ** Test vectors *)

(** The configs of the test suites. *)
Definition validConfig : TransactionConfig :=
  {| tc_gasLimit := Some (Num (JsInt 100000));
     tc_gasPrice := Some (Num (JsInt 1000000000));
     tc_to := Some "0x742d35Cc6634C0532925a3b844Bc454e4438f44e";
     tc_data := Some "0x1234";
     tc_value := Some (Num (JsInt 0));
     tc_r := None |}.

Definition validDeployment : DeploymentConfig :=
  {| dc_gasLimit := Some (Num (JsInt 100000));
     dc_gasPrice := Some (Num (JsInt 1000000000));
     dc_bytecode := Some "0x1234";
     dc_value := Some (Num (JsInt 0));
     dc_r := None |}.

Definition validResult : TransactionResult :=
  {| tr_rawTx := "0xf86680843b9aca00830186a094742d35cc6634c0532925a3b844bc454e4438f44e808212341ba01212121212121212121212121212121212121212121212121212121212121212a01212121212121212121212121212121212121212121212121212121212121212";
     tr_senderAddress := "0x34AD98c8730B2FF49a08579f7c03dd452eA394F0";
     tr_upfrontCost := 100000000000000;
     tr_r := HARDCODED_R; tr_s := HARDCODED_S; tr_v := HARDCODED_V |}.

Definition validDeploymentResult : DeploymentResult :=
  {| dr_rawTx := "0xf85280843b9aca00830186a080808212341ba01212121212121212121212121212121212121212121212121212121212121212a01212121212121212121212121212121212121212121212121212121212121212";
     dr_deployerAddress := "0xED4ec73C2f4Ff3Cb7d87c86089d0ebdf9040764b";
     dr_contractAddress := "0xC89b598406964D577242B0B8FB1f1dfE6adED888";
     dr_upfrontCost := 100000000000000;
     dr_r := HARDCODED_R; dr_s := HARDCODED_S; dr_v := HARDCODED_V |}.

(** The raw transaction that deployed Nick's factory. *)
Definition nickFactoryBytecode : string :=
  "0x604580600e600039806000f350fe7fffffffffffffffffffffffffffffffffffffffffffffffffffffffffffffffe03601600081602082378035828234f58015156039578182fd5b8082525050506014600cf3".

Definition nickFactoryRawTx : string :=
  "0xf8a58085174876e800830186a08080b853604580600e600039806000f350fe7fffffffffffffffffffffffffffffffffffffffffffffffffffffffffffffffe03601600081602082378035828234f58015156039578182fd5b8082525050506014600cf31ba02222222222222222222222222222222222222222222222222222222222222222a02222222222222222222222222222222222222222222222222222222222222222".

(** A config whose numbers and texts are not in the parser's notation: a
    gas price of [2^53 + 1], payload digits in upper case, an override [r]
    with a leading zero. *)
Definition unnormalizedConfig : TransactionConfig :=
  {| tc_gasLimit := Some (Num (JsInt 100000));
     tc_gasPrice := Some (Str "0x20000000000001");
     tc_to := Some "0x742d35Cc6634C0532925a3b844Bc454e4438f44e";
     tc_data := Some "0xABCD";
     tc_value := Some (Num (JsInt 0));
     tc_r := Some "0x0A12121212121212121212121212121212121212121212121212121212121212" |}.

Definition unnormalizedResult : TransactionResult :=
  {| tr_rawTx := "0xf869808720000000000001830186a094742d35cc6634c0532925a3b844bc454e4438f44e8082abcd1ba00a12121212121212121212121212121212121212121212121212121212121212a01212121212121212121212121212121212121212121212121212121212121212";
     tr_senderAddress := "0x402574a989796097DDc65fE367d9446310c5c202";
     tr_upfrontCost := 900719925474099331072;
     tr_r := "0x0A12121212121212121212121212121212121212121212121212121212121212";
     tr_s := HARDCODED_S; tr_v := HARDCODED_V |}.

(** A value of [2^53] with a gas budget of one wei. *)
Definition largeValueConfig : TransactionConfig :=
  {| tc_gasLimit := Some (Num (JsInt 1));
     tc_gasPrice := Some (Num (JsInt 1));
     tc_to := Some "0x742d35Cc6634C0532925a3b844Bc454e4438f44e";
     tc_data := Some "0x1234";
     tc_value := Some (Num (JsInt 9007199254740992));
     tc_r := None |}.

Definition largeValueResult : TransactionResult :=
  {| tr_rawTx := "0xf86680010194742d35cc6634c0532925a3b844bc454e4438f44e87200000000000008212341ba01212121212121212121212121212121212121212121212121212121212121212a01212121212121212121212121212121212121212121212121212121212121212";
     tr_senderAddress := "0x0c0d3A4E3b0EaEcE23348a7E24b667aED3153E5f";
     tr_upfrontCost := 9007199254740992;
     tr_r := HARDCODED_R; tr_s := HARDCODED_S; tr_v := HARDCODED_V |}.

(** The test config with NaN for its gas limit. *)
Definition nanGasLimitConfig : TransactionConfig :=
  {| tc_gasLimit := Some (Num JsNaN);
     tc_gasPrice := Some (Num (JsInt 1000000000));
     tc_to := Some "0x742d35Cc6634C0532925a3b844Bc454e4438f44e";
     tc_data := Some "0x1234";
     tc_value := Some (Num (JsInt 0));
     tc_r := None |}.

(** A non-integer gas limit together with a lower-case (non-checksummed)
    recipient. *)
Definition fractionalLowerCaseConfig : TransactionConfig :=
  {| tc_gasLimit := Some (Num (JsFinite false 200001 (-1)));
     tc_gasPrice := Some (Num (JsInt 1000000000));
     tc_to := Some "0x742d35cc6634c0532925a3b844bc454e4438f44e";
     tc_data := Some "0x1234";
     tc_value := Some (Num (JsInt 0));
     tc_r := None |}.

(** A signed transaction whose signature recovers no sender: [r] and [s]
    are [2^256 - 1]. *)
Definition unrecoverableTransaction : Transaction :=
  {| tx_nonce := 0; tx_gasPrice := 1000000000; tx_gasLimit := 100000;
     tx_to := None; tx_value := 0; tx_data := [x12; x34];
     tx_v := Some 27; tx_r := Some (2 ^ 256 - 1); tx_s := Some (2 ^ 256 - 1) |}.

(** [validConfig] in another notation: the gas limit as a hex string with
    leading zeros and upper-case digits, the value as the empty hex
    string. *)
Definition paddedConfig : TransactionConfig :=
  {| tc_gasLimit := Some (Str "0x000186A0");
     tc_gasPrice := Some (Num (JsInt 1000000000));
     tc_to := Some "0x742d35Cc6634C0532925a3b844Bc454e4438f44e";
     tc_data := Some "0x1234";
     tc_value := Some (Str "0x");
     tc_r := None |}.


(** * Properties *)


(** ** Hex digits *)

Lemma hexDigitValue_hexDigit (n : N) : n < 16 -> hexDigitValue (hexDigit n) = Some n.
Proof.
  intros H.
  assert (E : List.In n [0;1;2;3;4;5;6;7;8;9;10;11;12;13;14;15]).
  { simpl. lia. }
  simpl in E.
  repeat (destruct E as [E | E]; [subst n; reflexivity |]).
  destruct E.
Qed.

Lemma isHexDigit_hexDigit (n : N) : n < 16 -> isHexDigit (hexDigit n) = true.
Proof.
  intros H. unfold isHexDigit. now rewrite hexDigitValue_hexDigit.
Qed.

Lemma byte_of_N_to_N (b : byte) : byte_of_N (Byte.to_N b) = b.
Proof.
  unfold byte_of_N.
  rewrite N.mod_small by (pose proof (Byte.to_N_bounded b); lia).
  now rewrite Byte.of_to_N.
Qed.

Lemma to_N_byte_of_N (n : N) : Byte.to_N (byte_of_N n) = n mod 256.
Proof.
  unfold byte_of_N.
  destruct (Byte.of_N (n mod 256)) eqn:E.
  - now apply Byte.to_of_N.
  - apply Byte.of_N_None_iff in E.
    pose proof (N.mod_upper_bound n 256). lia.
Qed.

Lemma to_N_lt (b : byte) : Byte.to_N b < 256.
Proof. pose proof (Byte.to_N_bounded b). lia. Qed.

Lemma allHexDigits_app (s t : string) :
  allHexDigits (s ++ t) = allHexDigits s && allHexDigits t.
Proof.
  induction s as [| c s IH]; simpl; [reflexivity |].
  now rewrite IH, andb_assoc.
Qed.

Lemma byteToHex_digits (b : byte) : allHexDigits (byteToHex b) = true.
Proof.
  unfold byteToHex. cbn [allHexDigits].
  pose proof (to_N_lt b).
  rewrite !isHexDigit_hexDigit; [reflexivity | |].
  - apply N.mod_upper_bound. lia.
  - apply N.Div0.div_lt_upper_bound. lia.
Qed.

Lemma allHexDigits_toString_hex (bs : bytes) :
  allHexDigits (Buffer_toString_hex bs) = true.
Proof.
  induction bs as [| b bs IH]; [reflexivity |].
  cbn [Buffer_toString_hex]. now rewrite allHexDigits_app, byteToHex_digits, IH.
Qed.

Lemma isValidHex_prefixed (s : string) : isValidHex ("0x" ++ s) = allHexDigits s.
Proof. reflexivity. Qed.

Lemma stripHexPrefix_prefixed (s : string) : stripHexPrefix ("0x" ++ s) = s.
Proof. reflexivity. Qed.

Lemma isValidHex_inv (s : string) :
  isValidHex s = true -> exists t, s = ("0x" ++ t)%string /\ allHexDigits t = true.
Proof.
  unfold isValidHex.
  destruct s as [| a s]; [discriminate |].
  destruct a as [[] [] [] [] [] [] [] []]; try discriminate.
  destruct s as [| a s]; [discriminate |].
  destruct a as [[] [] [] [] [] [] [] []]; try discriminate.
  intros H. now exists s.
Qed.

Lemma Buffer_from_toString_hex (bs : bytes) :
  Buffer_from_hex (Buffer_toString_hex bs) = bs.
Proof.
  induction bs as [| b bs IH]; [reflexivity |].
  cbn [Buffer_toString_hex byteToHex String.append Buffer_from_hex].
  pose proof (to_N_lt b) as Hb.
  rewrite !hexDigitValue_hexDigit.
  - rewrite IH. f_equal.
    rewrite <- (byte_of_N_to_N b) at 3. f_equal.
    pose proof (N.div_mod (Byte.to_N b) 16). lia.
  - apply N.mod_upper_bound. lia.
  - apply N.Div0.div_lt_upper_bound. lia.
Qed.

Section Digits.

Variable base : N.
Hypothesis base_ge_2 : 2 <= base.

Lemma undigits_app (l : list N) (d : N) :
  undigits base (l ++ [d]) = undigits base l * base + d.
Proof. unfold undigits. now rewrite fold_left_app. Qed.

Lemma undigits_rev (l : list N) : undigits base (rev l) = valueLE base l.
Proof.
  induction l as [| d l IH]; [reflexivity |].
  cbn [rev valueLE fold_right]. rewrite undigits_app, IH. fold (valueLE base l). lia.
Qed.

Lemma digitsLE_value (fuel : nat) :
  forall n, n < 2 ^ N.of_nat fuel -> valueLE base (digitsLE base fuel n) = n.
Proof.
  induction fuel as [| fuel IH]; intros n Hn.
  - cbn in Hn. cbn. lia.
  - cbn [digitsLE]. destruct (N.eqb_spec n 0) as [-> | Hz]; [reflexivity |].
    cbn [valueLE fold_right]. fold (valueLE base (digitsLE base fuel (n / base))).
    rewrite IH.
    + pose proof (N.div_mod n base). lia.
    + rewrite Nat2N.inj_succ, N.pow_succ_r' in Hn.
      apply N.Div0.div_lt_upper_bound.
      assert (2 * 2 ^ N.of_nat fuel <= base * 2 ^ N.of_nat fuel)
        by (apply N.mul_le_mono_r; exact base_ge_2).
      lia.
Qed.

Lemma size_fuel (n : N) : n < 2 ^ N.of_nat (N.to_nat (N.size n)).
Proof. rewrite N2Nat.id. apply N.size_gt. Qed.

Lemma undigits_digits (n : N) : undigits base (digits base n) = n.
Proof.
  unfold digits. rewrite undigits_rev. apply digitsLE_value, size_fuel.
Qed.

Lemma digitsLE_lt (fuel : nat) :
  forall n, Forall (fun d => d < base) (digitsLE base fuel n).
Proof.
  induction fuel as [| fuel IH]; intros n; cbn [digitsLE]; [constructor |].
  destruct (n =? 0); constructor; [| apply IH].
  apply N.mod_upper_bound. lia.
Qed.

Lemma digitsLE_nil (fuel : nat) (n : N) :
  n < 2 ^ N.of_nat fuel -> digitsLE base fuel n = [] -> n = 0.
Proof.
  intros Hn E. rewrite <- (digitsLE_value fuel n Hn), E. reflexivity.
Qed.

Lemma digitsLE_last (fuel : nat) :
  forall n, n < 2 ^ N.of_nat fuel -> last (digitsLE base fuel n) 1 <> 0.
Proof.
  induction fuel as [| fuel IH]; intros n Hn; [cbn; lia |].
  cbn [digitsLE]. destruct (N.eqb_spec n 0) as [-> | Hz]; [cbn; lia |].
  assert (Hq : n / base < 2 ^ N.of_nat fuel).
  { rewrite Nat2N.inj_succ, N.pow_succ_r' in Hn.
    apply N.Div0.div_lt_upper_bound.
    assert (2 * 2 ^ N.of_nat fuel <= base * 2 ^ N.of_nat fuel)
      by (apply N.mul_le_mono_r; exact base_ge_2).
    lia. }
  destruct (digitsLE base fuel (n / base)) as [| d l] eqn:E.
  - apply digitsLE_nil in E; [| exact Hq].
    cbn [last]. pose proof (N.div_mod n base). lia.
  - specialize (IH _ Hq). rewrite E in IH. exact IH.
Qed.

Lemma digitsLE_canonical (n : N) :
  canonicalLE base (digitsLE base (N.to_nat (N.size n)) n).
Proof.
  split; [apply digitsLE_lt | apply digitsLE_last, size_fuel].
Qed.

Lemma canonicalLE_tail (d : N) (l : list N) :
  canonicalLE base (d :: l) -> canonicalLE base l.
Proof.
  intros [Hlt Hlast]. inversion Hlt; subst. split; [assumption |].
  destruct l; [cbn; lia | exact Hlast].
Qed.

Lemma canonicalLE_pos (l : list N) :
  canonicalLE base l -> l <> [] -> valueLE base l <> 0.
Proof.
  induction l as [| d l IH]; intros Hc Hne; [congruence |].
  cbn [valueLE fold_right]. fold (valueLE base l).
  destruct l as [| d' l].
  - destruct Hc as [_ Hlast]. cbn [last] in Hlast. cbn [valueLE fold_right]. lia.
  - specialize (IH (canonicalLE_tail _ _ Hc) ltac:(discriminate)).
    assert (0 < base * valueLE base (d' :: l)) by (apply N.mul_pos_pos; lia).
    lia.
Qed.

Lemma digitsLE_of_value (l : list N) :
  canonicalLE base l ->
  forall fuel, valueLE base l < 2 ^ N.of_nat fuel ->
  digitsLE base fuel (valueLE base l) = l.
Proof.
  induction l as [| d l IH]; intros Hc fuel Hf.
  - destruct fuel; reflexivity.
  - pose proof (canonicalLE_pos _ Hc ltac:(discriminate)) as Hpos.
    destruct fuel as [| fuel]; [change (2 ^ N.of_nat 0) with 1 in Hf; lia |].
    cbn [digitsLE]. destruct (N.eqb_spec (valueLE base (d :: l)) 0) as [E | _]; [contradiction |].
    assert (Hd : d < base) by (destruct Hc as [Hlt _]; now inversion Hlt).
    cbn [valueLE fold_right]. fold (valueLE base l).
    assert (Em : (d + base * valueLE base l) mod base = d).
    { rewrite N.mul_comm, N.Div0.mod_add. apply N.mod_small, Hd. }
    assert (Eq : (d + base * valueLE base l) / base = valueLE base l).
    { rewrite N.mul_comm, N.div_add by lia.
      rewrite N.div_small by exact Hd. lia. }
    rewrite Em, Eq. f_equal.
    apply IH; [exact (canonicalLE_tail _ _ Hc) |].
    rewrite <- Eq. apply N.Div0.div_lt_upper_bound.
    rewrite Nat2N.inj_succ, N.pow_succ_r' in Hf.
    cbn [valueLE fold_right] in Hf. fold (valueLE base l) in Hf.
    assert (2 * 2 ^ N.of_nat fuel <= base * 2 ^ N.of_nat fuel)
      by (apply N.mul_le_mono_r; exact base_ge_2).
    lia.
Qed.

(** Most significant digit first: no leading zero, every digit below the
    base. *)
Lemma digits_of_undigits (ds : list N) :
  Forall (fun d => d < base) ds -> hd 1 ds <> 0 ->
  digits base (undigits base ds) = ds.
Proof.
  intros Hlt Hhd. unfold digits.
  rewrite <- (rev_involutive ds) at 1 2. rewrite undigits_rev.
  rewrite digitsLE_of_value; [apply rev_involutive | | apply size_fuel].
  split.
  - apply Forall_rev, Hlt.
  - destruct ds as [| d ds]; [cbn; lia |].
    cbn [rev]. rewrite last_last. exact Hhd.
Qed.

Lemma digits_lt (n : N) : Forall (fun d => d < base) (digits base n).
Proof. unfold digits. apply Forall_rev, digitsLE_lt. Qed.

Lemma digits_hd (n : N) : hd 1 (digits base n) <> 0.
Proof.
  unfold digits.
  pose proof (digitsLE_last _ _ (size_fuel n)) as H.
  destruct (digitsLE base (N.to_nat (N.size n)) n) as [| d l] using rev_ind; [cbn; lia |].
  rewrite rev_app_distr. cbn. now rewrite last_last in H.
Qed.

Lemma digits_zero : digits base 0 = [].
Proof. reflexivity. Qed.

Lemma digits_nonzero (n : N) : n <> 0 -> digits base n <> [].
Proof.
  intros Hn E. apply Hn. rewrite <- (undigits_digits n), E. reflexivity.
Qed.

End Digits.

Lemma len_app {A : Type} (l1 l2 : list A) : len (l1 ++ l2) = len l1 + len l2.
Proof. unfold len. rewrite length_app. lia. Qed.

Lemma len_cons {A : Type} (x : A) (l : list A) : len (x :: l) = 1 + len l.
Proof. unfold len. cbn [List.length]. lia. Qed.

Lemma slice_suffix {A : Type} (pre rest : list A) (a b : N) :
  a = len pre -> b = len (pre ++ rest) -> slice (pre ++ rest) a b = rest.
Proof.
  intros -> ->. unfold slice, len.
  rewrite Nat2N.id, skipn_app, skipn_all, Nat.sub_diag. cbn [skipn app].
  apply firstn_all2. rewrite length_app. lia.
Qed.

Lemma slice_middle {A : Type} (pre mid rest : list A) (a b : N) :
  a = len pre -> b = len pre + len mid -> slice (pre ++ mid ++ rest) a b = mid.
Proof.
  intros -> ->. unfold slice, len.
  rewrite Nat2N.id, skipn_app, skipn_all, Nat.sub_diag. cbn [skipn app].
  replace (N.to_nat (N.of_nat (List.length pre) + N.of_nat (List.length mid)
                     - N.of_nat (List.length pre))) with (List.length mid) by lia.
  rewrite firstn_app, firstn_all, Nat.sub_diag. cbn [firstn]. apply app_nil_r.
Qed.

Lemma safeSlice_middle (pre mid rest : bytes) (a b : N) :
  a = len pre -> b = len pre + len mid ->
  safeSlice (pre ++ mid ++ rest) a b = Ok mid.
Proof.
  intros Ha Hb. unfold safeSlice.
  destruct (N.ltb_spec (len (pre ++ mid ++ rest)) b) as [H | _].
  - rewrite !len_app in H. lia.
  - now rewrite (slice_middle pre mid rest).
Qed.

Lemma bufferToBigInt_unpadded (n : N) : bufferToBigInt (bigIntToUnpaddedBuffer n) = n.
Proof.
  unfold bufferToBigInt, bigIntToUnpaddedBuffer.
  rewrite map_map.
  rewrite (map_ext_in _ (fun d => d)).
  - rewrite map_id. apply undigits_digits. lia.
  - intros d Hd. rewrite to_N_byte_of_N. apply N.mod_small.
    pose proof (digits_lt 256 ltac:(lia) n) as H.
    rewrite Forall_forall in H. now apply H.
Qed.

Lemma hasLeadingZero_unpadded (n : N) : hasLeadingZero (bigIntToUnpaddedBuffer n) = false.
Proof.
  unfold bigIntToUnpaddedBuffer.
  pose proof (digits_hd 256 ltac:(lia) n) as Hhd.
  pose proof (digits_lt 256 ltac:(lia) n) as Hlt.
  destruct (digits 256 n) as [| d ds]; [reflexivity |].
  cbn [map hasLeadingZero hd] in *. inversion Hlt; subst.
  rewrite to_N_byte_of_N, N.mod_small by assumption.
  now apply N.eqb_neq.
Qed.

Lemma unpadded_nil (n : N) : bigIntToUnpaddedBuffer n = [] -> n = 0.
Proof.
  intros E. rewrite <- (bufferToBigInt_unpadded n), E. reflexivity.
Qed.

Lemma unpadded_zero : bigIntToUnpaddedBuffer 0 = [].
Proof. reflexivity. Qed.

Lemma digitsLE_length (base : N) (fuel : nat) :
  2 <= base ->
  forall n k, n < base ^ N.of_nat k -> (List.length (digitsLE base fuel n) <= k)%nat.
Proof.
  intros Hb. induction fuel as [| fuel IH]; intros n k Hn; cbn [digitsLE]; [cbn; lia |].
  destruct (N.eqb_spec n 0) as [-> | Hz]; [cbn; lia |].
  destruct k as [| k]; [cbn in Hn; lia |].
  cbn [List.length]. apply le_n_S, IH.
  rewrite Nat2N.inj_succ, N.pow_succ_r' in Hn.
  apply N.Div0.div_lt_upper_bound. exact Hn.
Qed.

Lemma len_unpadded_le (n : N) (k : nat) :
  n < 256 ^ N.of_nat k -> len (bigIntToUnpaddedBuffer n) <= N.of_nat k.
Proof.
  intros Hn. unfold len, bigIntToUnpaddedBuffer, digits.
  rewrite length_map, length_rev.
  pose proof (digitsLE_length 256 (N.to_nat (N.size n)) ltac:(lia) n k Hn). lia.
Qed.

Lemma len_unpadded_pos (n : N) : n <> 0 -> 1 <= len (bigIntToUnpaddedBuffer n).
Proof.
  intros Hn. destruct (bigIntToUnpaddedBuffer n) eqn:E.
  - apply unpadded_nil in E. contradiction.
  - rewrite len_cons. lia.
Qed.

(** The length prefix: its first byte and the bytes of the length. *)
Lemma encodeLength_short (l offset : N) :
  l < 56 -> encodeLength l offset = [byte_of_N (l + offset)].
Proof.
  intros H. unfold encodeLength. destruct (N.ltb_spec l 56); [reflexivity | lia].
Qed.

Lemma encodeLength_long (l offset : N) :
  56 <= l ->
  encodeLength l offset =
  byte_of_N (offset + 55 + len (bigIntToUnpaddedBuffer l)) :: bigIntToUnpaddedBuffer l.
Proof.
  intros H. unfold encodeLength. destruct (N.ltb_spec l 56); [lia | reflexivity].
Qed.

Lemma decodeLength_unpadded (n : N) :
  n <> 0 -> decodeLength (bigIntToUnpaddedBuffer n) = Ok n.
Proof.
  intros Hn. unfold decodeLength.
  pose proof (hasLeadingZero_unpadded n) as Hz.
  pose proof (bufferToBigInt_unpadded n) as Hv.
  destruct (bigIntToUnpaddedBuffer n) as [| b bs] eqn:E.
  - apply unpadded_nil in E. contradiction.
  - cbn [hasLeadingZero] in Hz. rewrite Hz, Hv. reflexivity.
Qed.

Lemma decode_encodeBytes (b rest : bytes) (fuel : nat) :
  sized b ->
  RLP_decode_item (S fuel) (encodeBytes b ++ rest) = Ok (RLPBytes b, rest).
Proof.
  intros Hs. unfold sized in Hs.
  assert (Hcases :
            (exists x, b = [x] /\ Byte.to_N x < 128 /\ encodeBytes b = [x])
            \/ (len b < 56 /\ encodeBytes b = byte_of_N (len b + 128) :: b
                /\ (forall x, b = [x] -> 128 <= Byte.to_N x))
            \/ (56 <= len b /\ encodeBytes b = encodeLength (len b) 128 ++ b)).
  { unfold encodeBytes. destruct b as [| x [| y b']].
    - right; left. split; [cbn; lia |]. split; [reflexivity | discriminate].
    - destruct (N.ltb_spec (Byte.to_N x) 128).
      + left. now exists x.
      + right; left. split; [cbn; lia |]. split; [reflexivity |].
        intros x' E. now inversion E; subst.
    - destruct (N.ltb_spec (len (x :: y :: b')) 56) as [Hl | Hl].
      + right; left. rewrite encodeLength_short by exact Hl.
        split; [exact Hl |]. split; [reflexivity | discriminate].
      + right; right. split; [exact Hl | reflexivity]. }
  destruct Hcases as [(x & -> & Hx & ->) | [(Hl & -> & Hone) | (Hl & ->)]].
  - cbn [app RLP_decode_item].
    destruct (N.leb_spec (Byte.to_N x) 127); [| lia].
    assert (E : slice (x :: rest) 1 (len (x :: rest)) = rest)
      by (now apply (slice_suffix [x] rest)).
    now rewrite E.
  - cbn [app RLP_decode_item].
    rewrite to_N_byte_of_N, N.mod_small by lia.
    destruct (N.leb_spec (len b + 128) 127); [lia |].
    destruct (N.leb_spec (len b + 128) 183); [| lia].
    replace (len b + 128 - 127) with (1 + len b) by lia.
    assert (Hdata : (if len b + 128 =? 128 then Ok []
                     else safeSlice (byte_of_N (len b + 128) :: b ++ rest) 1 (1 + len b))
                    = Ok b).
    { destruct (N.eqb_spec (len b + 128) 128) as [E | E].
      - destruct b; [reflexivity | rewrite len_cons in E; lia].
      - now apply (safeSlice_middle [byte_of_N (len b + 128)] b rest). }
    rewrite Hdata. cbn [bind].
    assert (Hguard : (1 + len b =? 2)
                     && match b with d :: _ => Byte.to_N d <? 128 | [] => false end = false).
    { destruct (N.eqb_spec (1 + len b) 2) as [E | E]; [| reflexivity].
      destruct b as [| d [| d' b']]; [reflexivity | | rewrite !len_cons in E; lia].
      specialize (Hone d eq_refl). cbn [andb].
      destruct (N.ltb_spec (Byte.to_N d) 128); [lia | reflexivity]. }
    rewrite Hguard. cbn [negb guard bind].
    set (input := byte_of_N (len b + 128) :: b ++ rest).
    assert (E : slice input (1 + len b) (len input) = rest)
      by (apply (slice_suffix (byte_of_N (len b + 128) :: b) rest);
          [now rewrite len_cons | reflexivity]).
    now rewrite E.
  - rewrite encodeLength_long by exact Hl.
    set (lb := bigIntToUnpaddedBuffer (len b)).
    assert (Hlb1 : 1 <= len lb) by (apply len_unpadded_pos; lia).
    assert (Hlb8 : len lb <= 8) by (apply (len_unpadded_le (len b) 8); exact Hs).
    cbn [app RLP_decode_item].
    rewrite to_N_byte_of_N, N.mod_small by lia.
    destruct (N.leb_spec (128 + 55 + len lb) 127); [lia |].
    destruct (N.leb_spec (128 + 55 + len lb) 183); [lia |].
    destruct (N.leb_spec (128 + 55 + len lb) 191); [| lia].
    replace (128 + 55 + len lb - 182) with (1 + len lb) by lia.
    set (hd := byte_of_N (128 + 55 + len lb)).
    assert (Hguard : (1 + len lb <=? len (hd :: (lb ++ b) ++ rest) - 1) = true).
    { apply N.leb_le. rewrite len_cons, !len_app. lia. }
    rewrite Hguard. cbn [guard bind].
    assert (Hlen : safeSlice (hd :: (lb ++ b) ++ rest) 1 (1 + len lb) = Ok lb).
    { rewrite <- app_assoc. now apply (safeSlice_middle [hd] lb (b ++ rest)). }
    rewrite Hlen. cbn [bind].
    unfold lb at 1. rewrite decodeLength_unpadded by lia. cbn [bind].
    destruct (N.ltb_spec 55 (len b)); [| lia]. cbn [guard bind].
    assert (Hdata : safeSlice (hd :: (lb ++ b) ++ rest) (1 + len lb) (len b + (1 + len lb)) = Ok b).
    { change (hd :: (lb ++ b) ++ rest) with ((hd :: lb ++ b) ++ rest).
      replace ((hd :: lb ++ b) ++ rest) with ((hd :: lb) ++ b ++ rest)
        by (cbn [app]; now rewrite <- app_assoc).
      apply safeSlice_middle; rewrite len_cons; lia. }
    rewrite Hdata. cbn [bind].
    change (hd :: (lb ++ b) ++ rest) with ((hd :: lb ++ b) ++ rest).
    rewrite slice_suffix; [reflexivity | rewrite len_cons, len_app; lia | reflexivity].
Qed.

Lemma encodeBytes_nonempty (b : bytes) : exists x t, encodeBytes b = x :: t.
Proof.
  unfold encodeBytes, encodeLength.
  destruct b as [| x [| y b']].
  - cbn. eauto.
  - destruct (Byte.to_N x <? 128); cbn; eauto.
  - destruct (len (x :: y :: b') <? 56); cbn [app]; eauto.
Qed.

Lemma flat_map_encode (bs : list bytes) :
  flat_map RLP_encode (map RLPBytes bs) = flat_map encodeBytes bs.
Proof.
  induction bs as [| b bs IH]; [reflexivity |].
  cbn [map flat_map RLP_encode]. now rewrite IH.
Qed.

Lemma length_flat_encode (bs : list bytes) :
  (List.length bs <= List.length (flat_map encodeBytes bs))%nat.
Proof.
  induction bs as [| b bs IH]; [cbn; lia |].
  cbn [flat_map]. destruct (encodeBytes_nonempty b) as (x & t & ->).
  rewrite length_app. cbn [List.length]. lia.
Qed.

Lemma RLP_decode_items_cons (fuel : nat) (x : byte) (t : bytes) :
  RLP_decode_items (S fuel) (x :: t) =
  (d <- RLP_decode_item fuel (x :: t) ;;
   rest <- RLP_decode_items fuel (snd d) ;;
   Ok (fst d :: rest)).
Proof. reflexivity. Qed.

Lemma decode_items_flat (bs : list bytes) :
  Forall sized bs ->
  forall fuel, (List.length bs + 2 <= fuel)%nat ->
  RLP_decode_items fuel (flat_map encodeBytes bs) = Ok (map RLPBytes bs).
Proof.
  induction bs as [| b bs IH]; intros Hs fuel Hf.
  - destruct fuel; [lia | reflexivity].
  - inversion Hs as [| ? ? Hb Hbs]; subst.
    cbn [List.length] in Hf.
    destruct fuel as [| [| fuel]]; try lia.
    cbn [flat_map].
    remember (encodeBytes b ++ flat_map encodeBytes bs) as input eqn:Ein.
    destruct input as [| x t].
    { destruct (encodeBytes_nonempty b) as (x & t & E). rewrite E in Ein. discriminate. }
    rewrite RLP_decode_items_cons, Ein, decode_encodeBytes by exact Hb.
    cbn [bind fst snd]. rewrite IH; [reflexivity | exact Hbs | lia].
Qed.

(** Decoding the encoding of a list of byte strings gives the list back. *)
Lemma decode_encode_list (bs : list bytes) :
  Forall sized bs -> sized (flat_map encodeBytes bs) ->
  RLP_decode (RLP_encode (RLPList (map RLPBytes bs))) = Ok (RLPList (map RLPBytes bs)).
Proof.
  intros Hs Hp. cbn [RLP_encode]. rewrite flat_map_encode.
  set (payload := flat_map encodeBytes bs) in *.
  unfold sized in Hp.
  assert (Hitems : forall fuel, (List.length payload + 2 <= fuel)%nat ->
                     RLP_decode_items fuel payload = Ok (map RLPBytes bs)).
  { intros fuel Hf. apply decode_items_flat; [exact Hs |].
    pose proof (length_flat_encode bs). fold payload in H. lia. }
  destruct (N.ltb_spec (len payload) 56) as [Hl | Hl].
  - rewrite encodeLength_short by exact Hl.
    set (hd := byte_of_N (len payload + 192)).
    unfold RLP_decode. cbn [app].
    replace (2 * List.length (hd :: payload) + 2)%nat
      with (S (2 * List.length payload + 3))%nat by (cbn [List.length]; lia).
    assert (Hhd : Byte.to_N hd = len payload + 192)
      by (unfold hd; rewrite to_N_byte_of_N; apply N.mod_small; lia).
    cbn [RLP_decode_item]. rewrite !Hhd.
    destruct (N.leb_spec (len payload + 192) 127); [lia |].
    destruct (N.leb_spec (len payload + 192) 183); [lia |].
    destruct (N.leb_spec (len payload + 192) 191); [lia |].
    destruct (N.leb_spec (len payload + 192) 247); [| lia].
    replace (len payload + 192 - 191) with (1 + len payload) by lia.
    assert (Hin : safeSlice (hd :: payload) 1 (1 + len payload) = Ok payload).
    { rewrite <- (app_nil_r payload) at 1.
      now apply (safeSlice_middle [hd] payload []). }
    rewrite Hin. cbn [bind]. rewrite Hitems by lia. cbn [bind].
    assert (E : slice (hd :: payload) (1 + len payload) (len (hd :: payload)) = []).
    { rewrite <- (app_nil_r (hd :: payload)).
      apply slice_suffix; [now rewrite len_cons | reflexivity]. }
    rewrite E. reflexivity.
  - rewrite encodeLength_long by exact Hl.
    set (lb := bigIntToUnpaddedBuffer (len payload)).
    assert (Hlb1 : 1 <= len lb) by (apply len_unpadded_pos; lia).
    assert (Hlb8 : len lb <= 8) by (apply (len_unpadded_le (len payload) 8); exact Hp).
    set (hd := byte_of_N (192 + 55 + len lb)).
    unfold RLP_decode. cbn [app].
    replace (2 * List.length (hd :: lb ++ payload) + 2)%nat
      with (S (2 * List.length (lb ++ payload) + 3))%nat by (cbn [List.length]; lia).
    assert (Hhd : Byte.to_N hd = 192 + 55 + len lb)
      by (unfold hd; rewrite to_N_byte_of_N; apply N.mod_small; lia).
    cbn [RLP_decode_item]. rewrite !Hhd.
    destruct (N.leb_spec (192 + 55 + len lb) 127); [lia |].
    destruct (N.leb_spec (192 + 55 + len lb) 183); [lia |].
    destruct (N.leb_spec (192 + 55 + len lb) 191); [lia |].
    destruct (N.leb_spec (192 + 55 + len lb) 247); [lia |].
    replace (192 + 55 + len lb - 246) with (1 + len lb) by lia.
    assert (Hlen : safeSlice (hd :: lb ++ payload) 1 (1 + len lb) = Ok lb).
    { now apply (safeSlice_middle [hd] lb payload). }
    rewrite Hlen. cbn [bind].
    unfold lb at 1. rewrite decodeLength_unpadded by lia. cbn [bind].
    destruct (N.leb_spec 56 (len payload)); [| lia]. cbn [guard bind].
    assert (Htot : (1 + len lb + len payload <=? len (hd :: lb ++ payload)) = true).
    { apply N.leb_le. rewrite len_cons, len_app. lia. }
    rewrite Htot. cbn [guard bind].
    assert (Hin : safeSlice (hd :: lb ++ payload) (1 + len lb) (1 + len lb + len payload)
                  = Ok payload).
    { change (hd :: lb ++ payload) with ((hd :: lb) ++ payload).
      rewrite <- (app_nil_r payload) at 1.
      apply safeSlice_middle; rewrite len_cons; lia. }
    rewrite Hin. cbn [bind]. rewrite Hitems by (rewrite length_app; lia). cbn [bind].
    assert (E : slice (hd :: lb ++ payload) (1 + len lb + len payload)
                      (len (hd :: lb ++ payload)) = []).
    { rewrite <- (app_nil_r (hd :: lb ++ payload)).
      apply slice_suffix; [rewrite len_cons, len_app; lia | reflexivity]. }
    rewrite E. reflexivity.
Qed.

Lemma list_ascii_of_chars (l : list ascii) :
  list_ascii_of_string (string_of_chars l) = l.
Proof. induction l as [| c l IH]; cbn; [reflexivity | now rewrite IH]. Qed.

Lemma append_empty_r (s : string) : (s ++ "")%string = s.
Proof. induction s as [| c s IH]; cbn; [reflexivity | now rewrite IH]. Qed.

Lemma hexValues_hexDigits (ds : list N) :
  Forall (fun d => d < 16) ds ->
  hexValues (string_of_chars (map hexDigit ds)) = ds.
Proof.
  intros H. unfold hexValues. rewrite list_ascii_of_chars, map_map.
  induction H as [| d ds Hd _ IH]; [reflexivity |].
  cbn [map]. rewrite IH. f_equal.
  unfold digitValue. now rewrite hexDigitValue_hexDigit.
Qed.

Lemma hexStringValue_toString16 (n : N) : hexStringValue (BigInt_toString16 n) = n.
Proof.
  unfold BigInt_toString16, hexStringValue.
  destruct (N.eqb_spec n 0) as [-> | Hn]; [reflexivity |].
  rewrite hexValues_hexDigits by (apply digits_lt; lia).
  apply undigits_digits. lia.
Qed.

Lemma undigits_zeros (l : list N) (k : nat) :
  undigits 16 (l ++ repeat 0 k) = undigits 16 l * 16 ^ N.of_nat k.
Proof.
  induction k as [| k IH].
  - rewrite app_nil_r. change (16 ^ N.of_nat 0) with 1. lia.
  - replace (repeat 0 (S k)) with (repeat 0 k ++ [0])
      by (symmetry; apply (repeat_cons k 0)).
    rewrite app_assoc, undigits_app, IH, Nat2N.inj_succ, N.pow_succ_r'. lia.
Qed.

Lemma hexValues_app (s t : string) : hexValues (s ++ t) = hexValues s ++ hexValues t.
Proof.
  unfold hexValues. induction s as [| c s IH]; [reflexivity |].
  cbn [String.append list_ascii_of_string map app]. now rewrite IH.
Qed.

Lemma hexValues_zeros (k : nat) :
  hexValues (string_of_chars (repeat "0"%char k)) = repeat 0 k.
Proof.
  unfold hexValues. rewrite list_ascii_of_chars.
  induction k as [| k IH]; [reflexivity |]. cbn [repeat map]. now rewrite IH.
Qed.

Lemma allHexDigits_zeros (k : nat) :
  allHexDigits (string_of_chars (repeat "0"%char k)) = true.
Proof.
  induction k as [| k IH]; [reflexivity |].
  cbn [repeat string_of_chars allHexDigits]. exact IH.
Qed.

(** The integer digits that the engine prints denote the integer without
    its unrepresented digits. *)
Lemma hexStringValue_integerToString16 (n : N) :
  hexStringValue (integerToString16 n) = radixInteger n.
Proof.
  unfold integerToString16, radixInteger, hexStringValue. cbv zeta.
  rewrite hexValues_app, hexValues_zeros, undigits_zeros, N2Nat.id.
  fold (hexStringValue (BigInt_toString16 (n / 16 ^ unrepresentedDigits n))).
  now rewrite hexStringValue_toString16.
Qed.

(** The bytes of an even run of hex digits carry the value of the digits. *)
Lemma fold_bytes_nibbles (n : nat) :
  forall (s : string) (acc : N),
    String.length s = (2 * n)%nat -> allHexDigits s = true ->
    fold_left (fun a d => a * 256 + d) (map Byte.to_N (Buffer_from_hex s)) acc
    = fold_left (fun a d => a * 16 + d) (hexValues s) acc.
Proof.
  induction n as [| n IH]; intros s acc Hlen Hhex.
  - destruct s; [reflexivity | discriminate].
  - destruct s as [| a [| b s]]; try (cbn in Hlen; lia).
    cbn [allHexDigits] in Hhex.
    apply andb_prop in Hhex as [Ha Hhex]. apply andb_prop in Hhex as [Hb Hhex].
    unfold isHexDigit in Ha, Hb.
    cbn [Buffer_from_hex]. unfold hexValues. cbn [list_ascii_of_string map].
    unfold digitValue at 1 2.
    destruct (hexDigitValue a) as [h |] eqn:Eh; [| discriminate].
    destruct (hexDigitValue b) as [l |] eqn:El; [| discriminate].
    assert (Hh : h < 16).
    { unfold hexDigitValue in Eh. pose proof (N_ascii_bounded a).
      repeat match type of Eh with
             | (if ?c then _ else _) = _ => destruct c eqn:?
             end; inversion Eh; subst;
        repeat match goal with
               | H : (_ && _) = true |- _ => apply andb_prop in H as [? ?]
               | H : (_ <=? _) = true |- _ => apply N.leb_le in H
               end; lia. }
    assert (Hl : l < 16).
    { unfold hexDigitValue in El. pose proof (N_ascii_bounded b).
      repeat match type of El with
             | (if ?c then _ else _) = _ => destruct c eqn:?
             end; inversion El; subst;
        repeat match goal with
               | H : (_ && _) = true |- _ => apply andb_prop in H as [? ?]
               | H : (_ <=? _) = true |- _ => apply N.leb_le in H
               end; lia. }
    cbn [map fold_left]. rewrite to_N_byte_of_N, N.mod_small by lia.
    replace (acc * 256 + (16 * h + l)) with ((acc * 16 + h) * 16 + l) by lia.
    apply IH; [cbn in Hlen; lia | exact Hhex].
Qed.

Lemma hexStringValue_bytes (s : string) :
  allHexDigits s = true ->
  bufferToBigInt (Buffer_from_hex (padToEven s)) = hexStringValue s.
Proof.
  intros Hhex. unfold padToEven, bufferToBigInt, hexStringValue, undigits.
  destruct (Nat.even (String.length s)) eqn:Ev.
  - apply Nat.even_spec in Ev as [n Hn].
    now apply (fold_bytes_nibbles n).
  - assert (Hodd : Nat.odd (String.length s) = true)
      by (now rewrite <- Nat.negb_even, Ev).
    apply Nat.odd_spec in Hodd as [n Hn].
    rewrite (fold_bytes_nibbles (S n)); [reflexivity | cbn [String.length]; lia |].
    cbn [allHexDigits]. now rewrite Hhex.
Qed.

Lemma toBuffer_value (s : string) :
  isValidHex s = true ->
  exists b, toBuffer s = Ok b /\ bufferToBigInt b = hexStringValue (stripHexPrefix s).
Proof.
  intros H. unfold toBuffer. rewrite H.
  eexists; split; [reflexivity |].
  apply isValidHex_inv in H as (t & -> & Ht).
  rewrite stripHexPrefix_prefixed. now apply hexStringValue_bytes.
Qed.

Lemma allHexDigits_point (s t : string) : allHexDigits (s ++ String "." t) = false.
Proof. rewrite allHexDigits_app. cbn. apply andb_false_r. Qed.

Lemma fractionDigits_nil (fuel : nat) (f k : N) :
  fractionDigits fuel f k = [] -> fuel = O \/ f = 0.
Proof.
  destruct fuel as [| fuel]; [now left |].
  cbn [fractionDigits]. destruct (N.eqb_spec f 0); [now right | discriminate].
Qed.

Lemma fractionPart_nonzero (m : N) (e : Z) :
  fractionPart m e <> 0 -> m <> 0 /\ exists p, e = Zneg p.
Proof.
  unfold fractionPart. destruct e as [| p | p]; try congruence.
  intros H. split; [| now exists p].
  intros ->. now rewrite N.Div0.mod_0_l in H.
Qed.

(** A number that is not an integer does not render as a hex string. *)
Lemma nonInteger_invalidHex (x : JsNumber) :
  isInteger x = false -> isValidHex (toHexField (Num x)) = false.
Proof.
  destruct x as [| [] | negative m e]; try reflexivity.
  cbn [isInteger]. intros H. apply N.eqb_neq in H.
  destruct (fractionPart_nonzero m e H) as (Hm & p & ->).
  cbn [toHexField]. rewrite isValidHex_prefixed.
  unfold Number_toString16. destruct (N.eqb_spec m 0) as [| _]; [contradiction |].
  destruct (fractionDigits (N.to_nat (Z.to_N (- Z.neg p))) (fractionPart m (Z.neg p))
              (Z.to_N (- Z.neg p))) as [| d fd] eqn:E.
  - apply fractionDigits_nil in E as [E | E]; [| contradiction].
    cbn in E. lia.
  - rewrite allHexDigits_app, allHexDigits_point. apply andb_false_r.
Qed.

Lemma allHexDigits_minus (s : string) : allHexDigits ("-" ++ s) = false.
Proof. reflexivity. Qed.

(** A number that renders as a hex string is a non-negative integer, and the
    string denotes its encoded integer. *)
Lemma validHex_number (x : JsNumber) :
  isValidHex (toHexField (Num x)) = true ->
  isInteger x = true
  /\ hexStringValue (stripHexPrefix (toHexField (Num x))) = encodedValue (Num x).
Proof.
  intros H.
  destruct (isInteger x) eqn:Ei; [| now rewrite nonInteger_invalidHex in H].
  split; [reflexivity |].
  destruct x as [| [] | negative m e]; try discriminate.
  cbn [toHexField encodedValue] in *. rewrite stripHexPrefix_prefixed.
  rewrite isValidHex_prefixed in H. cbn [isInteger] in Ei. apply N.eqb_eq in Ei.
  unfold Number_toString16 in *.
  destruct (N.eqb_spec m 0) as [-> | Hm].
  - destruct e; cbn [integerPart]; rewrite ?N.shiftl_0_l, ?N.shiftr_0_l; reflexivity.
  - destruct negative; [now rewrite allHexDigits_minus in H |].
    assert (Efd : fractionDigits (N.to_nat (Z.to_N (- e))) (fractionPart m e) (Z.to_N (- e)) = []).
    { rewrite Ei. destruct (N.to_nat (Z.to_N (- e))); reflexivity. }
    rewrite Efd. cbn [String.append]. rewrite append_empty_r.
    apply hexStringValue_integerToString16.
Qed.

(** Every accepted numeric field reaches the transaction with the integer
    that its hex text denotes. *)
Lemma toBuffer_field (x : NumberOrString) :
  isValidHex (toHexField x) = true ->
  exists b, toBuffer (toHexField x) = Ok b /\ bufferToBigInt b = encodedValue x.
Proof.
  intros H. destruct (toBuffer_value _ H) as (b & Hb & Hv).
  exists b. split; [exact Hb |]. rewrite Hv.
  destruct x as [n | s]; [now apply validHex_number | reflexivity].
Qed.

(** The encoded integer of a field that passes the hex validation is the one
    that its hex text denotes. *)
Lemma encodedValue_text (x : NumberOrString) :
  isValidHex (toHexField x) = true ->
  hexStringValue (stripHexPrefix (toHexField x)) = encodedValue x.
Proof.
  intros H. destruct x as [n | s]; [now apply validHex_number | reflexivity].
Qed.

Lemma size_le_53 (n : N) : n < 2 ^ 53 -> N.size n <= 53.
Proof.
  intros H. destruct (N.le_gt_cases (N.size n) 53) as [| Hgt]; [assumption |].
  exfalso. pose proof (N.size_le n) as Hs.
  assert (2 ^ 54 <= 2 ^ N.size n) by (apply N.pow_le_mono_r; lia).
  assert (E54 : 2 ^ 54 = 2 * 2 ^ 53) by reflexivity.
  unfold N.succ_double in Hs. destruct n; lia.
Qed.

(** [Number] is exact up to [2^53]. *)
Lemma Number_of_bigint_exact (n : N) : n <= 2 ^ 53 -> Number_of_bigint n = n.
Proof.
  intros H. destruct (N.eq_dec n (2 ^ 53)) as [-> | Hne]; [reflexivity |].
  unfold Number_of_bigint.
  destruct (N.leb_spec (N.size n) 53) as [_ | Hgt]; [reflexivity |].
  pose proof (size_le_53 n ltac:(lia)). lia.
Qed.

Lemma radixInteger_le (n : N) : radixInteger n <= n.
Proof.
  unfold radixInteger. cbv zeta. rewrite N.mul_comm. apply N.Div0.mul_div_le.
Qed.

(** The radix-16 text is exact up to [2^53]. *)
Lemma radixInteger_exact (n : N) : n <= 2 ^ 53 -> radixInteger n = n.
Proof.
  intros H. destruct (N.eq_dec n (2 ^ 53)) as [-> | Hne]; [reflexivity |].
  unfold radixInteger, unrepresentedDigits.
  destruct (N.leb_spec (N.size n) 53) as [_ | Hgt].
  - change (16 ^ 0) with 1. rewrite N.div_1_r. lia.
  - pose proof (size_le_53 n ltac:(lia)). lia.
Qed.

Lemma radixInteger_zero : radixInteger 0 = 0.
Proof. reflexivity. Qed.

Lemma encodedValue_le (x : NumberOrString) : encodedValue x <= fieldValue x.
Proof.
  destruct x as [[| negative | negative m e] | s]; cbn [encodedValue fieldValue];
    try apply N.le_refl.
  apply radixInteger_le.
Qed.

(** A numeric field up to [2^53] is encoded as it is. *)
Lemma encodedValue_exact (x : NumberOrString) :
  fieldValue x <= 2 ^ 53 -> encodedValue x = fieldValue x.
Proof.
  destruct x as [[| negative | negative m e] | s]; cbn [encodedValue fieldValue];
    try reflexivity.
  apply radixInteger_exact.
Qed.

Lemma exactlyEncoded_value (x : NumberOrString) :
  exactlyEncoded x = true -> encodedValue x = fieldValue x.
Proof.
  destruct x as [n | s]; [| reflexivity].
  unfold exactlyEncoded. intros H. apply N.leb_le in H.
  now apply encodedValue_exact.
Qed.

Lemma encodedValue_lt (x : NumberOrString) (bound : N) :
  fieldValue x < bound -> encodedValue x < bound.
Proof. intros H. pose proof (encodedValue_le x). lia. Qed.

(** ** Hex text of buffers *)

Lemma hexDigit_digitValue (c : ascii) (d : N) :
  hexDigitValue c = Some d -> hexDigit d = toLowerCase_char c.
Proof.
  destruct c as [[] [] [] [] [] [] [] []]; intros E; vm_compute in E;
    try discriminate; inversion E; reflexivity.
Qed.

Lemma hexDigitValue_lt (c : ascii) (d : N) : hexDigitValue c = Some d -> d < 16.
Proof.
  destruct c as [[] [] [] [] [] [] [] []]; intros E; vm_compute in E;
    try discriminate; inversion E; reflexivity.
Qed.

Lemma byteToHex_nibbles (h l : N) :
  h < 16 -> l < 16 ->
  byteToHex (byte_of_N (16 * h + l)) = String (hexDigit h) (String (hexDigit l) "").
Proof.
  intros Hh Hl. unfold byteToHex.
  rewrite to_N_byte_of_N, N.mod_small by lia.
  replace ((16 * h + l) / 16) with h.
  - replace ((16 * h + l) mod 16) with l; [reflexivity |].
    rewrite N.add_comm, N.mul_comm, N.Div0.mod_add. symmetry. now apply N.mod_small.
  - rewrite N.add_comm, N.mul_comm, N.div_add by lia.
    rewrite N.div_small by exact Hl. reflexivity.
Qed.

Lemma toString_from_hex (n : nat) :
  forall s, String.length s = (2 * n)%nat -> allHexDigits s = true ->
            Buffer_toString_hex (Buffer_from_hex s) = toLowerCase s.
Proof.
  induction n as [| n IH]; intros s Hlen Hhex.
  - destruct s; [reflexivity | discriminate].
  - destruct s as [| a [| b s]]; try (cbn in Hlen; lia).
    cbn [allHexDigits] in Hhex.
    apply andb_prop in Hhex as [Ha Hhex]. apply andb_prop in Hhex as [Hb Hhex].
    unfold isHexDigit in Ha, Hb. cbn [Buffer_from_hex toLowerCase].
    destruct (hexDigitValue a) as [h |] eqn:Eh; [| discriminate].
    destruct (hexDigitValue b) as [l |] eqn:El; [| discriminate].
    cbn [Buffer_toString_hex].
    rewrite byteToHex_nibbles by eauto using hexDigitValue_lt.
    rewrite (hexDigit_digitValue a h Eh), (hexDigit_digitValue b l El).
    cbn [String.append]. rewrite IH; [reflexivity | cbn in Hlen; lia | exact Hhex].
Qed.

Lemma Buffer_from_hex_nonempty (a b : ascii) (s : string) :
  allHexDigits (String a (String b s)) = true ->
  Buffer_from_hex (String a (String b s)) <> [].
Proof.
  cbn [allHexDigits Buffer_from_hex]. unfold isHexDigit. intros H.
  apply andb_prop in H as [Ha H]. apply andb_prop in H as [Hb _].
  destruct (hexDigitValue a); [| discriminate].
  destruct (hexDigitValue b); [| discriminate].
  discriminate.
Qed.

Lemma isLowerHexDigit_spec (c : ascii) :
  isLowerHexDigit c = true ->
  isHexDigit c = true /\ toLowerCase_char c = c /\ hexDigit (digitValue c) = c.
Proof.
  unfold isLowerHexDigit, isHexDigit, digitValue.
  destruct (hexDigitValue c) as [d |] eqn:E; [| discriminate].
  intros H. apply Ascii.eqb_eq in H.
  repeat split; [| exact H]. rewrite <- (hexDigit_digitValue c d E). exact H.
Qed.

Lemma allLowerHex_spec (s : string) :
  allLowerHex s = true ->
  allHexDigits s = true /\ toLowerCase s = s
  /\ string_of_chars (map hexDigit (hexValues s)) = s.
Proof.
  induction s as [| c s IH]; [now repeat split |].
  cbn [allLowerHex]. intros H. apply andb_prop in H as [Hc Hs].
  destruct (isLowerHexDigit_spec c Hc) as (H1 & H2 & H3).
  destruct (IH Hs) as (I1 & I2 & I3).
  unfold hexValues in *. cbn [allHexDigits toLowerCase list_ascii_of_string map string_of_chars].
  now rewrite H1, H2, H3, I1, I2, I3.
Qed.

Lemma even_length (s : string) :
  Nat.even (String.length s) = true -> exists n, String.length s = (2 * n)%nat.
Proof. intros H. now apply Nat.even_spec in H. Qed.

(** Canonical data comes back from its bytes unchanged. *)
Lemma canonicalData_roundtrip (s : string) :
  canonicalData s = true -> hexOfBytes (bytesOfHex s) = s.
Proof.
  unfold canonicalData.
  destruct s as [| a s]; [discriminate |].
  destruct a as [[] [] [] [] [] [] [] []]; try discriminate.
  destruct s as [| a s]; [discriminate |].
  destruct a as [[] [] [] [] [] [] [] []]; try discriminate.
  intros H. apply andb_prop in H as [Hl Hev].
  destruct (allLowerHex_spec s Hl) as (Hh & Hlow & _).
  unfold hexOfBytes, bytesOfHex. cbn [stripHexPrefix]. unfold padToEven. rewrite Hev.
  destruct (even_length s Hev) as [n Hn].
  now rewrite (toString_from_hex n s Hn Hh), Hlow.
Qed.

(** A canonical number comes back from its value unchanged. *)
Lemma canonicalNumber_roundtrip (s : string) :
  canonicalNumber s = true ->
  ("0x" ++ BigInt_toString16 (hexStringValue (stripHexPrefix s)))%string = s.
Proof.
  unfold canonicalNumber.
  destruct s as [| a s]; [discriminate |].
  destruct a as [[] [] [] [] [] [] [] []]; try discriminate.
  destruct s as [| a s]; [discriminate |].
  destruct a as [[] [] [] [] [] [] [] []]; try discriminate.
  destruct s as [| c ds]; [discriminate |].
  intros H. apply andb_prop in H as [Hc Hl].
  destruct (allLowerHex_spec _ Hl) as (Hh & _ & Hstr).
  cbn [stripHexPrefix String.append]. do 2 f_equal.
  unfold hexStringValue, BigInt_toString16.
  assert (Hlt : Forall (fun d => d < 16) (hexValues (String c ds))).
  { clear - Hh. revert Hh. generalize (String c ds) as t.
    induction t as [| x t IH]; [constructor |].
    cbn [allHexDigits]. intros H. apply andb_prop in H as [Hx Ht].
    unfold hexValues. cbn [list_ascii_of_string map]. constructor; [| now apply IH].
    unfold isHexDigit, digitValue in *.
    destruct (hexDigitValue x) eqn:E; [eauto using hexDigitValue_lt | discriminate]. }
  assert (Hhd : hd 1 (hexValues (String c ds)) <> 0).
  { unfold hexValues. cbn [list_ascii_of_string map hd]. intros E.
    cbn [allLowerHex] in Hl. apply andb_prop in Hl as [Hc' _].
    destruct (isLowerHexDigit_spec c Hc') as (_ & _ & Hd).
    rewrite E in Hd. cbn in Hd. subst c. discriminate. }
  pose proof (digits_of_undigits 16 ltac:(lia) _ Hlt Hhd) as Hd.
  destruct (N.eqb_spec (undigits 16 (hexValues (String c ds))) 0) as [E | _].
  - rewrite E in Hd. discriminate.
  - rewrite Hd. exact Hstr.
Qed.

(** ** The transaction object *)

Lemma toBuffer_Ok (s : string) (b : bytes) :
  toBuffer s = Ok b -> isValidHex s = true /\ b = bytesOfHex s.
Proof.
  unfold toBuffer. destruct (isValidHex s); [| discriminate].
  intros E. inversion E. now split.
Qed.

Lemma guard_Ok (c : bool) (e : Error) (A : Type) (k : unit -> Result A) (a : A) :
  (_ <- guard c e ;; k tt) = Ok a -> c = true /\ k tt = Ok a.
Proof. destruct c; cbn; [now split | discriminate]. Qed.

Lemma validateTransaction_Ok (tx tx' : Transaction) :
  validateTransaction tx = Ok tx' ->
  tx' = tx /\ (forall a, tx_to tx = Some a -> List.length a = 20%nat).
Proof.
  unfold validateTransaction. intros H.
  apply (guard_Ok _ _ _ (fun _ => _)) in H as [H1 H].
  inversion H; subst tx'. split; [reflexivity |].
  intros a Ea. rewrite Ea in H1. now apply Nat.eqb_eq.
Qed.

Lemma allBytes_map (bs : list bytes) : allBytes (map RLPBytes bs) = Ok bs.
Proof. induction bs as [| b bs IH]; cbn; [reflexivity | now rewrite IH]. Qed.

Lemma optUnpadded_roundtrip (x : option N) :
  x <> Some 0 -> option_map bufferToBigInt (nonEmpty (optUnpadded x)) = x.
Proof.
  destruct x as [n |]; [| reflexivity]. intros Hn. cbn [optUnpadded].
  destruct (bigIntToUnpaddedBuffer n) eqn:E.
  - apply unpadded_nil in E. congruence.
  - cbn [nonEmpty option_map]. now rewrite <- E, bufferToBigInt_unpadded.
Qed.

Lemma optBytes_roundtrip (x : option bytes) :
  x <> Some [] -> nonEmpty (optBytes x) = x.
Proof.
  destruct x as [[| b l] |]; intros H; [exfalso; now apply H | reflexivity | reflexivity].
Qed.

(** Parsing the serialization of a valid transaction gives it back. *)
Lemma fromSerializedTx_serialize (tx : Transaction) :
  validateTransaction tx = Ok tx ->
  tx_v tx <> Some 0 -> tx_r tx <> Some 0 -> tx_s tx <> Some 0 ->
  Forall sized (raw tx) -> sized (flat_map encodeBytes (raw tx)) ->
  Transaction_fromSerializedTx (serialize tx) = Ok tx.
Proof.
  intros Hv Hv0 Hr0 Hs0 Hsz Hp.
  unfold Transaction_fromSerializedTx, serialize.
  rewrite decode_encode_list by assumption. cbn [bind].
  rewrite length_map. unfold raw at 1, rawUnsigned. cbn [app List.length Nat.eqb orb guard bind].
  rewrite allBytes_map. cbn [bind]. unfold raw, rawUnsigned. cbn [app nth].
  unfold newTransaction.
  rewrite !bufferToBigInt_unpadded, !optUnpadded_roundtrip by assumption.
  rewrite optBytes_roundtrip.
  - destruct tx; exact Hv.
  - destruct (validateTransaction_Ok _ _ Hv) as (_ & Hto).
    intros E. specialize (Hto _ E). discriminate.
Qed.

Lemma bind_Ok {A B : Type} (x : Result A) (f : A -> Result B) (b : B) :
  bind x f = Ok b -> exists a, x = Ok a /\ f a = Ok b.
Proof. destruct x as [a | e]; cbn; [eauto | discriminate]. Qed.

Lemma fromTxData_Ok (p : TxParams) (tx : Transaction) :
  Transaction_fromTxData p = Ok tx ->
  tx = transactionOfParams p /\ validateTransaction tx = Ok tx.
Proof.
  unfold Transaction_fromTxData. intros H.
  apply bind_Ok in H as (nonce & E1 & H). apply toBuffer_Ok in E1 as [_ ->].
  apply bind_Ok in H as (gasPrice & E2 & H). apply toBuffer_Ok in E2 as [_ ->].
  apply bind_Ok in H as (gasLimit & E3 & H). apply toBuffer_Ok in E3 as [_ ->].
  apply bind_Ok in H as (to & E4 & H).
  apply bind_Ok in H as (value & E5 & H). apply toBuffer_Ok in E5 as [_ ->].
  apply bind_Ok in H as (data & E6 & H). apply toBuffer_Ok in E6 as [_ ->].
  apply bind_Ok in H as (v & E7 & H). apply toBuffer_Ok in E7 as [_ ->].
  apply bind_Ok in H as (r & E8 & H). apply toBuffer_Ok in E8 as [_ ->].
  apply bind_Ok in H as (s & E9 & H). apply toBuffer_Ok in E9 as [_ ->].
  assert (Eto : to = match p_to p with Some a => bytesOfHex a | None => [] end).
  { destruct (p_to p); [now apply toBuffer_Ok in E4 | now inversion E4]. }
  subst to. unfold newTransaction in H.
  destruct (validateTransaction_Ok _ _ H) as [-> _].
  split; [reflexivity | exact H].
Qed.

Lemma recoverRawTransaction_hex (serialized : bytes) :
  recoverRawTransaction (hexOfBytes serialized) =
  (tx <- Transaction_fromSerializedTx serialized ;; Ok (recovered tx)).
Proof.
  unfold recoverRawTransaction, hexOfBytes.
  rewrite isValidHex_prefixed, allHexDigits_toString_hex. cbn [negb].
  now rewrite stripHexPrefix_prefixed, Buffer_from_toString_hex.
Qed.

Lemma bigZ_pos (n : N) : (0 <? bigZ_of_N n)%bigZ = true -> n <> 0.
Proof.
  unfold bigZ_of_N. rewrite BigZ.spec_ltb, BigZ.spec_of_Z.
  change (BigZ.to_Z 0) with 0%Z. intros H. apply Z.ltb_lt in H. lia.
Qed.

Lemma bigZ_below_order (n : N) :
  (bigZ_of_N n <? Secp256k1.order)%bigZ = true -> n < 2 ^ 256.
Proof.
  unfold bigZ_of_N, Secp256k1.order. rewrite BigZ.spec_ltb, !BigZ.spec_of_Z.
  intros H. apply Z.ltb_lt in H.
  assert (E : (Z.of_N (2 ^ 256) = 2 ^ 256)%Z) by reflexivity.
  assert (Hn : (Z.of_N n < Z.of_N (2 ^ 256))%Z) by (rewrite E; lia).
  lia.
Qed.

Lemma recover_range (h : bigZ) (recovery r s : N) (q : bigZ * bigZ) :
  Secp256k1.recover h recovery (bigZ_of_N r) (bigZ_of_N s) = Some q ->
  r <> 0 /\ r < 2 ^ 256 /\ s <> 0 /\ s < 2 ^ 256.
Proof.
  unfold Secp256k1.recover.
  destruct ((0 <? bigZ_of_N r)%bigZ && (bigZ_of_N r <? Secp256k1.order)%bigZ
            && (0 <? bigZ_of_N s)%bigZ && (bigZ_of_N s <? Secp256k1.order)%bigZ) eqn:E;
    [| discriminate].
  intros _.
  apply andb_prop in E as [E E4]. apply andb_prop in E as [E E3].
  apply andb_prop in E as [E1 E2].
  auto using bigZ_pos, bigZ_below_order.
Qed.

(** A sender is only recovered from a signature with [v] of 27 or 28 and
    [r] and [s] between 1 and the curve order. *)
Lemma getSenderAddress_Ok (tx : Transaction) (sender : bytes) :
  getSenderAddress tx = Ok sender ->
  exists v r s, tx_v tx = Some v /\ tx_r tx = Some r /\ tx_s tx = Some s
                /\ (v = 27 \/ v = 28)
                /\ r <> 0 /\ r < 2 ^ 256 /\ s <> 0 /\ s < 2 ^ 256.
Proof.
  unfold getSenderAddress.
  destruct (tx_v tx) as [v |]; [| discriminate].
  destruct (tx_r tx) as [r |]; [| discriminate].
  destruct (tx_s tx) as [s |]; [| discriminate].
  intros H.
  apply (guard_Ok _ _ _ (fun _ => _)) in H as [Hv H].
  apply bind_Ok in H as (pk & H & _).
  exists v, r, s.
  split; [reflexivity |]. split; [reflexivity |]. split; [reflexivity |].
  split.
  - apply orb_prop in Hv as [Hv | Hv]; apply N.eqb_eq in Hv; [now left | now right].
  - unfold recoverPublicKey in H.
    destruct (Secp256k1.recover _ _ _ _) as [q |] eqn:E; [| discriminate].
    exact (recover_range _ _ _ _ _ E).
Qed.

Lemma length_Buffer_from_hex (n : nat) :
  forall s, (String.length s <= n)%nat ->
            (List.length (Buffer_from_hex s) <= String.length s)%nat.
Proof.
  induction n as [| n IH]; intros s Hn.
  - destruct s; [cbn; lia | cbn in Hn; lia].
  - destruct s as [| a [| b s]]; [cbn; lia | cbn; lia |].
    cbn [Buffer_from_hex String.length] in *.
    destruct (hexDigitValue a); [| cbn; lia].
    destruct (hexDigitValue b); [| cbn; lia].
    cbn [List.length]. specialize (IH s ltac:(lia)). lia.
Qed.

Lemma len_bytesOfHex (s : string) :
  isValidHex s = true -> len (bytesOfHex s) <= N.of_nat (String.length s).
Proof.
  intros H. apply isValidHex_inv in H as (t & -> & _).
  unfold bytesOfHex, len. rewrite stripHexPrefix_prefixed.
  pose proof (length_Buffer_from_hex _ (padToEven t) (Nat.le_refl _)) as Hl.
  assert (String.length (padToEven t) <= S (String.length t))%nat
    by (unfold padToEven; destruct (Nat.even (String.length t)); cbn; lia).
  cbn [String.append String.length]. lia.
Qed.

Lemma len_unpadded_256 (n : N) : n < 2 ^ 256 -> len (bigIntToUnpaddedBuffer n) <= 32.
Proof. intros H. now apply (len_unpadded_le n 32). Qed.

Lemma len_encodeBytes (b : bytes) : sized b -> len (encodeBytes b) <= len b + 9.
Proof.
  intros Hs. unfold encodeBytes, encodeLength.
  assert (Hlong : forall c, len c < 2 ^ 64 ->
            len ((if len c <? 56 then [byte_of_N (len c + 128)]
                  else byte_of_N (128 + 55 + len (bigIntToUnpaddedBuffer (len c)))
                       :: bigIntToUnpaddedBuffer (len c)) ++ c) <= len c + 9).
  { intros c Hc. pose proof (len_unpadded_le (len c) 8 Hc) as H8.
    destruct (len c <? 56); unfold len in *; rewrite length_app; cbn [List.length]; lia. }
  destruct b as [| x [| y b']].
  - unfold len. cbn. lia.
  - destruct (Byte.to_N x <? 128); unfold len; cbn; lia.
  - now apply Hlong.
Qed.

(** The nine fields of a transaction of 256-bit numbers with a payload a
    JavaScript string can hold are within the range of the length prefixes. *)
Lemma raw_sized (tx : Transaction) :
  validateTransaction tx = Ok tx ->
  tx_nonce tx < 2 ^ 256 -> tx_gasPrice tx < 2 ^ 256 -> tx_gasLimit tx < 2 ^ 256 ->
  tx_value tx < 2 ^ 256 ->
  (forall v, tx_v tx = Some v -> v < 2 ^ 256) ->
  (forall r, tx_r tx = Some r -> r < 2 ^ 256) ->
  (forall s, tx_s tx = Some s -> s < 2 ^ 256) ->
  len (tx_data tx) < 2 ^ 53 ->
  Forall sized (raw tx) /\ sized (flat_map encodeBytes (raw tx)).
Proof.
  intros Hv Hn Hgp Hgl Hval Hvb Hrb Hsb Hd.
  destruct (validateTransaction_Ok _ _ Hv) as (_ & Hto).
  assert (P53 : 2 ^ 53 + 1000 < 2 ^ 64) by reflexivity.
  pose proof (len_unpadded_256 _ Hn) as L0.
  pose proof (len_unpadded_256 _ Hgp) as L1.
  pose proof (len_unpadded_256 _ Hgl) as L2.
  assert (L3 : len (optBytes (tx_to tx)) <= 20).
  { destruct (tx_to tx) as [a |]; [| unfold len; cbn; lia].
    specialize (Hto a eq_refl). unfold len. cbn [optBytes]. lia. }
  pose proof (len_unpadded_256 _ Hval) as L4.
  assert (Lopt : forall x, (forall v, x = Some v -> v < 2 ^ 256) ->
                           len (optUnpadded x) <= 32).
  { intros [v |] Hx; [| unfold len; cbn; lia]. apply len_unpadded_256. now apply Hx. }
  pose proof (Lopt _ Hvb) as L6.
  pose proof (Lopt _ Hrb) as L7.
  pose proof (Lopt _ Hsb) as L8.
  assert (Hall : Forall sized (raw tx)).
  { unfold raw, rawUnsigned, sized. cbn [app].
    repeat (apply Forall_cons; [lia |]). apply Forall_nil. }
  split; [exact Hall |].
  unfold raw, rawUnsigned in *. cbn [app flat_map] in *.
  repeat match goal with
         | H : Forall sized (_ :: _) |- _ => inversion H; clear H; subst
         end.
  repeat match goal with
         | H : sized ?b |- _ => pose proof (len_encodeBytes b H); clear H
         end.
  unfold sized. rewrite !len_app. change (@len byte []) with 0.
  lia.
Qed.

Lemma negb_false (b : bool) : negb b = false -> b = true.
Proof. now destruct b. Qed.

Lemma orDefault_valid (r : option string) :
  truthy_opt truthy_string r && negb (truthy_opt isValidHex r) = false ->
  isValidHex (orDefault r HARDCODED_R) = true.
Proof.
  destruct r as [[| c s] |]; try reflexivity.
  cbn [truthy_opt truthy_string orDefault andb]. apply negb_false.
Qed.

Lemma bytesOfHex_value (s : string) :
  isValidHex s = true ->
  bufferToBigInt (bytesOfHex s) = hexStringValue (stripHexPrefix s).
Proof.
  intros H. destruct (toBuffer_value s H) as (b & Hb & Hv).
  apply toBuffer_Ok in Hb as [_ ->]. exact Hv.
Qed.

Lemma nonEmpty_Some (b c : bytes) : nonEmpty b = Some c -> c = b.
Proof. destruct b; [discriminate | now inversion 1]. Qed.

(** What a successful [genRawTransaction] went through. *)
Lemma genRawTransaction_Ok (config : TransactionConfig) (res : TransactionResult) :
  genRawTransaction config = Ok res ->
  exists gasLimit gasPrice to data value tx sender,
    tc_gasLimit config = Some gasLimit /\ tc_gasPrice config = Some gasPrice
    /\ tc_to config = Some to /\ tc_data config = Some data
    /\ tc_value config = Some value
    /\ isValidChecksumAddress to = true
    /\ isValidHex (toHexField gasPrice) = true
    /\ isValidHex (toHexField gasLimit) = true
    /\ isValidHex (toHexField value) = true
    /\ isValidHex data = true
    /\ isValidHex (orDefault (tc_r config) HARDCODED_R) = true
    /\ Transaction_fromTxData
         (transactionParams gasPrice gasLimit (Some to) value data (tc_r config)) = Ok tx
    /\ getSenderAddress tx = Ok sender
    /\ res = {| tr_rawTx := hexOfBytes (serialize tx);
                tr_senderAddress := checksummed (hexOfBytes sender);
                tr_upfrontCost := Number_of_bigint (getUpfrontCost tx);
                tr_r := orDefault (tc_r config) HARDCODED_R;
                tr_s := HARDCODED_S; tr_v := HARDCODED_V |}.
Proof.
  unfold genRawTransaction. intros H.
  destruct (tc_gasLimit config) as [gasLimit |]; [| discriminate].
  destruct (tc_gasPrice config) as [gasPrice |]; [| discriminate].
  destruct (tc_to config) as [to |]; [| discriminate].
  destruct (tc_data config) as [data |]; [| discriminate].
  destruct (tc_value config) as [value |]; [| discriminate].
  destruct (negb (truthy gasLimit) || negb (truthy gasPrice)
            || negb (truthy_string to) || negb (truthy_string data)); [discriminate |].
  destruct (negb (isValidChecksumAddress to)) eqn:Eto; [discriminate |].
  destruct (truthy_opt truthy_string (tc_r config)
            && negb (truthy_opt isValidHex (tc_r config))) eqn:Er; [discriminate |].
  apply orDefault_valid in Er.
  destruct (negb (isValidHex (toHexField gasPrice)) || negb (isValidHex (toHexField gasLimit))
            || negb (isValidHex (toHexField value)) || negb (isValidHex data)) eqn:Ehex;
    [discriminate |].
  apply orb_false_elim in Ehex as [Ehex E4]. apply orb_false_elim in Ehex as [Ehex E3].
  apply orb_false_elim in Ehex as [E1 E2].
  apply bind_Ok in H as (tx & Htx & H). apply bind_Ok in H as (sender & Hs & H).
  inversion H; subst res. clear H.
  exists gasLimit, gasPrice, to, data, value, tx, sender.
  repeat split; auto using negb_false.
Qed.

Lemma genRawDeployment_Ok (config : DeploymentConfig) (res : DeploymentResult) :
  genRawDeployment config = Ok res ->
  exists gasLimit gasPrice bytecode value tx sender addressBuffer,
    dc_gasLimit config = Some gasLimit /\ dc_gasPrice config = Some gasPrice
    /\ dc_bytecode config = Some bytecode /\ dc_value config = Some value
    /\ isValidHex (toHexField gasPrice) = true
    /\ isValidHex (toHexField gasLimit) = true
    /\ isValidHex (toHexField value) = true
    /\ isValidHex bytecode = true
    /\ isValidHex (orDefault (dc_r config) HARDCODED_R) = true
    /\ Transaction_fromTxData
         (transactionParams gasPrice gasLimit None value bytecode (dc_r config)) = Ok tx
    /\ getSenderAddress tx = Ok sender
    /\ toBuffer (checksummed (hexOfBytes sender)) = Ok addressBuffer
    /\ res = {| dr_rawTx := hexOfBytes (serialize tx);
                dr_deployerAddress := checksummed (hexOfBytes sender);
                dr_contractAddress :=
                  checksummed (hexOfBytes (generateAddress addressBuffer [x00]));
                dr_upfrontCost := Number_of_bigint (getUpfrontCost tx);
                dr_r := orDefault (dc_r config) HARDCODED_R;
                dr_s := HARDCODED_S; dr_v := HARDCODED_V |}.
Proof.
  unfold genRawDeployment. intros H.
  destruct (dc_gasLimit config) as [gasLimit |]; [| discriminate].
  destruct (dc_gasPrice config) as [gasPrice |]; [| discriminate].
  destruct (dc_bytecode config) as [bytecode |]; [| discriminate].
  destruct (dc_value config) as [value |]; [| discriminate].
  destruct (negb (truthy gasLimit) || negb (truthy gasPrice)
            || negb (truthy_string bytecode)); [discriminate |].
  destruct (truthy_opt truthy_string (dc_r config)
            && negb (truthy_opt isValidHex (dc_r config))) eqn:Er; [discriminate |].
  apply orDefault_valid in Er.
  destruct (negb (isValidHex (toHexField gasPrice)) || negb (isValidHex (toHexField gasLimit))
            || negb (isValidHex (toHexField value)) || negb (isValidHex bytecode)) eqn:Ehex;
    [discriminate |].
  apply orb_false_elim in Ehex as [Ehex E4]. apply orb_false_elim in Ehex as [Ehex E3].
  apply orb_false_elim in Ehex as [E1 E2].
  apply bind_Ok in H as (tx & Htx & H). apply bind_Ok in H as (sender & Hs & H).
  apply bind_Ok in H as (addressBuffer & Ha & H).
  apply bind_Ok in H as (nonceBuffer & Hn & H).
  cbn in Hn. inversion Hn; subst nonceBuffer. clear Hn.
  inversion H; subst res. clear H.
  exists gasLimit, gasPrice, bytecode, value, tx, sender, addressBuffer.
  repeat split; auto using negb_false.
Qed.

(** The fields of the transaction a builder constructs. *)
Lemma built_fields (gasPrice gasLimit value : NumberOrString) (to : option string)
      (data : string) (r : option string) (tx : Transaction) :
  isValidHex (toHexField gasPrice) = true ->
  isValidHex (toHexField gasLimit) = true ->
  isValidHex (toHexField value) = true ->
  Transaction_fromTxData (transactionParams gasPrice gasLimit to value data r) = Ok tx ->
  validateTransaction tx = Ok tx
  /\ tx_nonce tx = 0
  /\ tx_gasPrice tx = encodedValue gasPrice
  /\ tx_gasLimit tx = encodedValue gasLimit
  /\ tx_value tx = encodedValue value
  /\ tx_to tx = nonEmpty (match to with Some a => bytesOfHex a | None => [] end)
  /\ tx_data tx = bytesOfHex data
  /\ tx_v tx = Some 27
  /\ tx_r tx = option_map bufferToBigInt (nonEmpty (bytesOfHex (orDefault r HARDCODED_R)))
  /\ tx_s tx = Some 0x1212121212121212121212121212121212121212121212121212121212121212.
Proof.
  intros Hgp Hgl Hv H. apply fromTxData_Ok in H as [-> Hvalid].
  split; [exact Hvalid |].
  destruct (toBuffer_field _ Hgp) as (b1 & E1 & V1). apply toBuffer_Ok in E1 as [_ ->].
  destruct (toBuffer_field _ Hgl) as (b2 & E2 & V2). apply toBuffer_Ok in E2 as [_ ->].
  destruct (toBuffer_field _ Hv) as (b3 & E3 & V3). apply toBuffer_Ok in E3 as [_ ->].
  unfold transactionOfParams, transactionParams.
  cbn [tx_nonce tx_gasPrice tx_gasLimit tx_value tx_to tx_data tx_v tx_r tx_s
       p_nonce p_gasPrice p_gasLimit p_to p_value p_data p_v p_r p_s].
  repeat split; try assumption; reflexivity.
Qed.

Lemma validChecksum_to (to : string) :
  isValidChecksumAddress to = true ->
  option_map hexOfBytes (nonEmpty (bytesOfHex to)) = Some (toLowerCase to).
Proof.
  unfold isValidChecksumAddress, isValidAddress. intros H.
  apply andb_prop in H as [H _]. apply andb_prop in H as [Hhex Hlen].
  apply Nat.eqb_eq in Hlen.
  apply isValidHex_inv in Hhex as (t & -> & Ht).
  unfold bytesOfHex. rewrite stripHexPrefix_prefixed.
  cbn [String.append String.length] in Hlen.
  assert (Hl : String.length t = (2 * 20)%nat) by lia.
  unfold padToEven. rewrite Hl. cbn [Nat.even Nat.mul Nat.add].
  destruct t as [| a [| b t]]; try discriminate.
  pose proof (Buffer_from_hex_nonempty a b t Ht) as Hne.
  pose proof (toString_from_hex 20 _ Hl Ht) as Hstr.
  destruct (Buffer_from_hex (String a (String b t))) as [| x l] eqn:E; [congruence |].
  cbn [nonEmpty option_map]. unfold hexOfBytes. now rewrite Hstr.
Qed.

(** Parsing the serialization of the transaction a builder constructed and
    recovered a sender from gives the transaction back, for 256-bit numbers. *)
Lemma recover_serialized (gasPrice gasLimit value : NumberOrString) (to : option string)
      (data : string) (r : option string) (tx : Transaction) (sender : bytes) :
  isValidHex (toHexField gasPrice) = true ->
  isValidHex (toHexField gasLimit) = true ->
  isValidHex (toHexField value) = true ->
  isValidHex data = true ->
  N.of_nat (String.length data) < 2 ^ 53 ->
  fieldValue gasPrice < 2 ^ 256 -> fieldValue gasLimit < 2 ^ 256 ->
  fieldValue value < 2 ^ 256 ->
  Transaction_fromTxData (transactionParams gasPrice gasLimit to value data r) = Ok tx ->
  getSenderAddress tx = Ok sender ->
  recoverRawTransaction (hexOfBytes (serialize tx)) = Ok (recovered tx).
Proof.
  intros Hgp Hgl Hv Hdata Hlen Bgp Bgl Bv Htx Hsender.
  destruct (built_fields _ _ _ _ _ _ _ Hgp Hgl Hv Htx)
    as (Hvalid & Fn & Fgp & Fgl & Fv & Fto & Fd & Fvv & Fr & Fs).
  destruct (getSenderAddress_Ok _ _ Hsender)
    as (v' & r' & s' & Ev1 & Er1 & Es1 & _ & Hr0 & Hr256 & Hs0 & Hs256).
  rewrite recoverRawTransaction_hex.
  assert (Hsized : Forall sized (raw tx) /\ sized (flat_map encodeBytes (raw tx))).
  { apply raw_sized; try assumption.
    - rewrite Fn. reflexivity.
    - rewrite Fgp. now apply encodedValue_lt.
    - rewrite Fgl. now apply encodedValue_lt.
    - rewrite Fv. now apply encodedValue_lt.
    - intros x Ex. rewrite Fvv in Ex. inversion Ex. reflexivity.
    - intros x Ex. rewrite Er1 in Ex. now inversion Ex; subst.
    - intros x Ex. rewrite Es1 in Ex. now inversion Ex; subst.
    - rewrite Fd. pose proof (len_bytesOfHex data Hdata). lia. }
  destruct Hsized as [Hs1 Hs2].
  rewrite fromSerializedTx_serialize; try assumption; try congruence.
  reflexivity.
Qed.

(** The signature the parser prints for a built transaction. *)
Lemma recovered_signature (gasPrice gasLimit value : NumberOrString) (to : option string)
      (data : string) (r : option string) (tx : Transaction) (sender : bytes) :
  isValidHex (toHexField gasPrice) = true ->
  isValidHex (toHexField gasLimit) = true ->
  isValidHex (toHexField value) = true ->
  isValidHex (orDefault r HARDCODED_R) = true ->
  Transaction_fromTxData (transactionParams gasPrice gasLimit to value data r) = Ok tx ->
  getSenderAddress tx = Ok sender ->
  rr_v (recovered tx) = Some HARDCODED_V
  /\ rr_r (recovered tx)
     = Some ("0x" ++ BigInt_toString16
                       (hexStringValue (stripHexPrefix (orDefault r HARDCODED_R))))%string
  /\ rr_s (recovered tx) = Some HARDCODED_S.
Proof.
  intros Hgp Hgl Hv Hrhex Htx Hsender.
  destruct (built_fields _ _ _ _ _ _ _ Hgp Hgl Hv Htx)
    as (Hvalid & Fn & Fgp & Fgl & Fv & Fto & Fd & Fvv & Fr & Fs).
  destruct (getSenderAddress_Ok _ _ Hsender)
    as (v' & r' & s' & Ev1 & Er1 & Es1 & _).
  unfold recovered. cbn [rr_v rr_r rr_s]. rewrite Fvv, Fs.
  split; [reflexivity |]. split; [| reflexivity].
  rewrite Er1. cbn [option_map]. do 3 f_equal.
  rewrite Fr in Er1.
  destruct (nonEmpty (bytesOfHex (orDefault r HARDCODED_R))) as [b |] eqn:E;
    [| discriminate].
  apply nonEmpty_Some in E. subst b. cbn [option_map] in Er1. inversion Er1.
  now apply bytesOfHex_value.
Qed.

(** Parsing what [genRawTransaction] built: every field comes back, the
    numbers through [Number], the byte payloads and [r] in the parser's
    notation. *)
Lemma recover_built (config : TransactionConfig) (res : TransactionResult)
      (gasLimit gasPrice value : NumberOrString) (to data : string) :
  tc_gasLimit config = Some gasLimit -> tc_gasPrice config = Some gasPrice ->
  tc_to config = Some to -> tc_data config = Some data ->
  tc_value config = Some value ->
  N.of_nat (String.length data) < 2 ^ 53 ->
  fieldValue gasPrice < 2 ^ 256 -> fieldValue gasLimit < 2 ^ 256 ->
  fieldValue value < 2 ^ 256 ->
  genRawTransaction config = Ok res ->
  recoverRawTransaction (tr_rawTx res) =
  Ok {| rr_nonce := 0;
        rr_gasPrice := Number_of_bigint (encodedValue gasPrice);
        rr_gasLimit := Number_of_bigint (encodedValue gasLimit);
        rr_to := Some (toLowerCase to);
        rr_value := Number_of_bigint (encodedValue value);
        rr_data := hexOfBytes (bytesOfHex data);
        rr_v := Some (tr_v res);
        rr_r := Some ("0x" ++ BigInt_toString16
                                (hexStringValue (stripHexPrefix (tr_r res))))%string;
        rr_s := Some (tr_s res) |}.
Proof.
  intros Egl Egp Eto Edata Ev Hlen Bgp Bgl Bv H.
  apply genRawTransaction_Ok in H
    as (gl & gp & to' & data' & v & tx & sender & Egl' & Egp' & Eto' & Edata' & Ev'
        & Hto & Hgp & Hgl & Hv & Hdata & Hrhex & Htx & Hsender & ->).
  rewrite Egl in Egl'. rewrite Egp in Egp'. rewrite Eto in Eto'.
  rewrite Edata in Edata'. rewrite Ev in Ev'.
  inversion Egl'; inversion Egp'; inversion Eto'; inversion Edata'; inversion Ev'.
  subst gl gp to' data' v. clear Egl' Egp' Eto' Edata' Ev'.
  cbn [tr_rawTx tr_v tr_r tr_s].
  rewrite (recover_serialized _ _ _ _ _ _ _ _ Hgp Hgl Hv Hdata Hlen Bgp Bgl Bv Htx Hsender).
  destruct (recovered_signature _ _ _ _ _ _ _ _ Hgp Hgl Hv Hrhex Htx Hsender)
    as (Sv & Sr & Ss).
  destruct (built_fields _ _ _ _ _ _ _ Hgp Hgl Hv Htx)
    as (_ & Fn & Fgp & Fgl & Fv & Fto & Fd & _).
  unfold recovered in *. cbn [rr_v rr_r rr_s] in Sv, Sr, Ss.
  rewrite Sv, Sr, Ss, Fn, Fgp, Fgl, Fv, Fto, Fd.
  now rewrite (validChecksum_to to Hto).
Qed.


(** ** Evaluations of the builders *)

Lemma genRawTransaction_validConfig : genRawTransaction validConfig = Ok validResult.
Proof. vm_compute. reflexivity. Qed.

Lemma genRawDeployment_validDeployment :
  genRawDeployment validDeployment = Ok validDeploymentResult.
Proof. vm_compute. reflexivity. Qed.

Lemma genRawTransaction_unnormalizedConfig :
  genRawTransaction unnormalizedConfig = Ok unnormalizedResult.
Proof. vm_compute. reflexivity. Qed.

Lemma genRawTransaction_largeValueConfig :
  genRawTransaction largeValueConfig = Ok largeValueResult.
Proof. vm_compute. reflexivity. Qed.

Lemma string_length_neq (s t : string) : String.length s <> String.length t -> s <> t.
Proof. intros H E. apply H. now rewrite E. Qed.

(** ** The builders, step by step *)

Lemma truthy_validHex (s : string) : isValidHex s = true -> truthy_string s = true.
Proof. intros H. apply isValidHex_inv in H as (t & -> & _). reflexivity. Qed.

Lemma invalidOverride_valid (r : option string) :
  isValidHex (orDefault r HARDCODED_R) = true ->
  truthy_opt truthy_string r && negb (truthy_opt isValidHex r) = false.
Proof.
  destruct r as [[| c s] |]; try reflexivity.
  cbn [truthy_opt truthy_string orDefault andb]. now intros ->.
Qed.

(** The steps of a successful [genRawTransaction] give its result. *)
Lemma genRawTransaction_intro (config : TransactionConfig)
      (gasLimit gasPrice value : NumberOrString) (to data : string)
      (tx : Transaction) (sender : bytes) :
  tc_gasLimit config = Some gasLimit -> tc_gasPrice config = Some gasPrice ->
  tc_to config = Some to -> tc_data config = Some data ->
  tc_value config = Some value ->
  truthy gasLimit = true -> truthy gasPrice = true ->
  isValidChecksumAddress to = true ->
  isValidHex (toHexField gasPrice) = true ->
  isValidHex (toHexField gasLimit) = true ->
  isValidHex (toHexField value) = true ->
  isValidHex data = true ->
  isValidHex (orDefault (tc_r config) HARDCODED_R) = true ->
  Transaction_fromTxData
    (transactionParams gasPrice gasLimit (Some to) value data (tc_r config)) = Ok tx ->
  getSenderAddress tx = Ok sender ->
  genRawTransaction config =
  Ok {| tr_rawTx := hexOfBytes (serialize tx);
        tr_senderAddress := checksummed (hexOfBytes sender);
        tr_upfrontCost := Number_of_bigint (getUpfrontCost tx);
        tr_r := orDefault (tc_r config) HARDCODED_R;
        tr_s := HARDCODED_S; tr_v := HARDCODED_V |}.
Proof.
  intros Egl Egp Eto Edata Ev Tgl Tgp Hto Hgp Hgl Hv Hdata Hr Htx Hsender.
  unfold genRawTransaction. rewrite Egl, Egp, Eto, Edata, Ev, Tgl, Tgp, Hto.
  assert (Tto : truthy_string to = true).
  { unfold isValidChecksumAddress, isValidAddress in Hto.
    apply andb_prop in Hto as [Hto _]. apply andb_prop in Hto as [Hto _].
    now apply truthy_validHex. }
  rewrite Tto, (truthy_validHex data Hdata), (invalidOverride_valid _ Hr).
  rewrite Hgp, Hgl, Hv, Hdata. cbn [negb orb].
  unfold transactionParams in Htx. rewrite Htx. cbn [bind]. rewrite Hsender. reflexivity.
Qed.

Lemma genRawDeployment_intro (config : DeploymentConfig)
      (gasLimit gasPrice value : NumberOrString) (bytecode : string)
      (tx : Transaction) (sender addressBuffer : bytes) :
  dc_gasLimit config = Some gasLimit -> dc_gasPrice config = Some gasPrice ->
  dc_bytecode config = Some bytecode -> dc_value config = Some value ->
  truthy gasLimit = true -> truthy gasPrice = true ->
  isValidHex (toHexField gasPrice) = true ->
  isValidHex (toHexField gasLimit) = true ->
  isValidHex (toHexField value) = true ->
  isValidHex bytecode = true ->
  isValidHex (orDefault (dc_r config) HARDCODED_R) = true ->
  Transaction_fromTxData
    (transactionParams gasPrice gasLimit None value bytecode (dc_r config)) = Ok tx ->
  getSenderAddress tx = Ok sender ->
  toBuffer (checksummed (hexOfBytes sender)) = Ok addressBuffer ->
  genRawDeployment config =
  Ok {| dr_rawTx := hexOfBytes (serialize tx);
        dr_deployerAddress := checksummed (hexOfBytes sender);
        dr_contractAddress :=
          checksummed (hexOfBytes (generateAddress addressBuffer [x00]));
        dr_upfrontCost := Number_of_bigint (getUpfrontCost tx);
        dr_r := orDefault (dc_r config) HARDCODED_R;
        dr_s := HARDCODED_S; dr_v := HARDCODED_V |}.
Proof.
  intros Egl Egp Edata Ev Tgl Tgp Hgp Hgl Hv Hdata Hr Htx Hsender Ha.
  unfold genRawDeployment. rewrite Egl, Egp, Edata, Ev, Tgl, Tgp.
  rewrite (truthy_validHex bytecode Hdata), (invalidOverride_valid _ Hr).
  rewrite Hgp, Hgl, Hv, Hdata. cbn [negb orb].
  unfold transactionParams in Htx. rewrite Htx. cbn [bind]. rewrite Hsender. cbn [bind].
  rewrite Ha. reflexivity.
Qed.

(** The errors of the library steps of a builder. *)
Lemma guard_Err (c : bool) (e e' : Error) (A : Type) (k : unit -> Result A) :
  (_ <- guard c e ;; k tt) = Err e' -> e' = e \/ k tt = Err e'.
Proof. destruct c; cbn; [now right | intros H; inversion H; now left]. Qed.

Lemma toBuffer_Err (s : string) (e : Error) :
  toBuffer s = Err e -> exists msg, e = InvalidHex msg.
Proof.
  unfold toBuffer. destruct (isValidHex s); [discriminate |].
  intros H. inversion H. eauto.
Qed.

Lemma validateTransaction_Err (tx : Transaction) (e : Error) :
  validateTransaction tx = Err e -> e = InvalidFieldValue.
Proof.
  unfold validateTransaction. intros H.
  repeat (apply (guard_Err _ _ _ _ (fun _ => _)) in H as [H | H]; [exact H |]).
  discriminate.
Qed.

Lemma bind_Err {A B : Type} (x : Result A) (f : A -> Result B) (e : Error) :
  bind x f = Err e -> x = Err e \/ exists a, x = Ok a /\ f a = Err e.
Proof.
  destruct x as [a | e']; cbn [bind]; intros H; [right; eauto | left; now inversion H].
Qed.

Lemma fromTxData_Err (p : TxParams) (e : Error) :
  Transaction_fromTxData p = Err e ->
  (exists msg, e = InvalidHex msg) \/ e = InvalidFieldValue.
Proof.
  unfold Transaction_fromTxData. intros H.
  do 3 (apply bind_Err in H as [H | (? & _ & H)]; [left; now apply toBuffer_Err in H |]).
  apply bind_Err in H as [H | (? & _ & H)].
  { left. destruct (p_to p); [now apply toBuffer_Err in H | discriminate]. }
  do 5 (apply bind_Err in H as [H | (? & _ & H)]; [left; now apply toBuffer_Err in H |]).
  right. unfold newTransaction in H. now apply validateTransaction_Err in H.
Qed.

Lemma getSenderAddress_Err (tx : Transaction) (e : Error) :
  getSenderAddress tx = Err e -> e = InvalidSignature.
Proof.
  unfold getSenderAddress, recoverPublicKey.
  destruct (tx_v tx); [| now inversion 1].
  destruct (tx_r tx); [| now inversion 1].
  destruct (tx_s tx); [| now inversion 1].
  intros H.
  apply (guard_Err _ _ _ _ (fun _ => _)) in H as [H | H]; [exact H |].
  apply bind_Err in H as [H | (? & _ & H)]; [| discriminate].
  destruct (Secp256k1.recover _ _ _ _) as [[x y] |]; [discriminate | now inversion H].
Qed.

(** * The claims of the specification *)

(** C1 (round trip), in the form that holds of the code. Parsing the raw
    transaction that [genRawTransaction] built recovers nonce 0 and exactly
    the gasPrice, gasLimit, value, data, v, r and s used to build it (and the
    recipient, in lower case), provided the three numbers do not exceed
    [2^53], [data] is written with an even number of lower-case digits and [r]
    in lower case without leading zero; [data] is shorter than [2^53]
    characters, as every JavaScript string is. *)
Theorem roundtrip_recovers_fields (config : TransactionConfig) (res : TransactionResult)
        (gasLimit gasPrice value : NumberOrString) (to data : string) :
  tc_gasLimit config = Some gasLimit -> tc_gasPrice config = Some gasPrice ->
  tc_to config = Some to -> tc_data config = Some data ->
  tc_value config = Some value ->
  genRawTransaction config = Ok res ->
  N.of_nat (String.length data) < 2 ^ 53 ->
  fieldValue gasPrice <= 2 ^ 53 -> fieldValue gasLimit <= 2 ^ 53 ->
  fieldValue value <= 2 ^ 53 ->
  canonicalData data = true -> canonicalNumber (tr_r res) = true ->
  recoverRawTransaction (tr_rawTx res) =
  Ok {| rr_nonce := 0;
        rr_gasPrice := fieldValue gasPrice;
        rr_gasLimit := fieldValue gasLimit;
        rr_to := Some (toLowerCase to);
        rr_value := fieldValue value;
        rr_data := data;
        rr_v := Some (tr_v res);
        rr_r := Some (tr_r res);
        rr_s := Some (tr_s res) |}.
Proof.
  intros Egl Egp Eto Edata Ev H Hlen Bgp Bgl Bv Cd Cr.
  assert (P : 2 ^ 53 < 2 ^ 256) by reflexivity.
  rewrite (recover_built config res gasLimit gasPrice value to data)
    by (assumption || lia).
  rewrite !encodedValue_exact by assumption.
  rewrite !Number_of_bigint_exact by assumption.
  now rewrite canonicalData_roundtrip, canonicalNumber_roundtrip.
Qed.

Lemma roundtrip_recovers_fields_witness :
  recoverRawTransaction (tr_rawTx validResult) =
  Ok {| rr_nonce := 0;
        rr_gasPrice := 1000000000;
        rr_gasLimit := 100000;
        rr_to := Some "0x742d35cc6634c0532925a3b844bc454e4438f44e";
        rr_value := 0;
        rr_data := "0x1234";
        rr_v := Some "0x1b";
        rr_r := Some HARDCODED_R;
        rr_s := Some HARDCODED_S |}.
Proof.
  apply (roundtrip_recovers_fields validConfig validResult
           (Num (JsInt 100000)) (Num (JsInt 1000000000)) (Num (JsInt 0))
           "0x742d35Cc6634C0532925a3b844Bc454e4438f44e" "0x1234"
           eq_refl eq_refl eq_refl eq_refl eq_refl genRawTransaction_validConfig);
    first [reflexivity | vm_compute; discriminate].
Defined.

(** C1 does not hold as the specification words it: for a gas price of [2^53 +
    1], a payload in upper case and an override [r] with a leading zero, the
    parser returns the gas price [2^53], the payload in lower case and [r]
    without its zero. *)
Lemma roundtrip_exact_fails :
  exists res out,
    genRawTransaction unnormalizedConfig = Ok res
    /\ recoverRawTransaction (tr_rawTx res) = Ok out
    /\ fieldValue (Str "0x20000000000001") = 9007199254740993
    /\ rr_gasPrice out = 9007199254740992
    /\ rr_data out = "0xabcd" /\ rr_data out <> "0xABCD"
    /\ rr_r out = Some "0xa12121212121212121212121212121212121212121212121212121212121212"
    /\ rr_r out <> Some (tr_r res).
Proof.
  exists unnormalizedResult. eexists.
  split; [exact genRawTransaction_unnormalizedConfig |].
  split; [vm_compute; reflexivity |].
  cbn [rr_gasPrice rr_data rr_r].
  repeat split; discriminate.
Qed.

(** C2 (known vector), in the form that holds of the code. Parsing the raw
    transaction of Nick's factory yields nonce 0, gasLimit 100000, gasPrice
    100000000000, value 0, v "0x1b", no recipient, and r and s both equal to
    the 32-byte repeated-0x22 constant. *)
Theorem nick_factory_vector :
  recoverRawTransaction nickFactoryRawTx =
  Ok {| rr_nonce := 0;
        rr_gasPrice := 100000000000;
        rr_gasLimit := 100000;
        rr_to := None;
        rr_value := 0;
        rr_data := nickFactoryBytecode;
        rr_v := Some "0x1b";
        rr_r := Some (repeatedByte "22" 32);
        rr_s := Some (repeatedByte "22" 32) |}.
Proof. vm_compute. reflexivity. Qed.

(** C2 does not hold as the specification words it: r and s are not the
    34-byte constant. *)
Lemma nick_factory_not_34_bytes :
  ~ exists res,
      recoverRawTransaction nickFactoryRawTx = Ok res
      /\ rr_r res = Some (repeatedByte "22" 34)
      /\ rr_s res = Some (repeatedByte "22" 34).
Proof.
  intros (res & H & Hr & _).
  assert (E : recoverRawTransaction nickFactoryRawTx
              = Ok {| rr_nonce := 0;
                      rr_gasPrice := 100000000000;
                      rr_gasLimit := 100000;
                      rr_to := None;
                      rr_value := 0;
                      rr_data := nickFactoryBytecode;
                      rr_v := Some "0x1b";
                      rr_r := Some (repeatedByte "22" 32);
                      rr_s := Some (repeatedByte "22" 32) |})
    by (vm_compute; reflexivity).
  rewrite E in H. inversion H; subst res. cbn [rr_r] in Hr.
  inversion Hr.
Qed.

(** C3 (default signature constants), in the form that holds of the code. When
    no override [r] is supplied, both builders return r equal to the fixed
    constant of 32 repeated 0x12 bytes (256 bits), the same constant for s,
    and v "0x1b" (27); when the payload is shorter than [2^53] characters and
    the numbers are below [2^256], these are also the v, r and s that the
    parser reads back from the returned raw transaction. *)
Theorem default_signature_constants :
  HARDCODED_R = repeatedByte "12" 32 /\ HARDCODED_S = repeatedByte "12" 32
  /\ hexStringValue (stripHexPrefix HARDCODED_V) = 27
  /\ List.length (bytesOfHex HARDCODED_R) = 32%nat
  /\ (forall config res,
         tc_r config = None -> genRawTransaction config = Ok res ->
         tr_r res = HARDCODED_R /\ tr_s res = HARDCODED_S /\ tr_v res = "0x1b"
         /\ (forall gasLimit gasPrice value data,
                tc_gasLimit config = Some gasLimit -> tc_gasPrice config = Some gasPrice ->
                tc_value config = Some value -> tc_data config = Some data ->
                fieldValue gasLimit < 2 ^ 256 -> fieldValue gasPrice < 2 ^ 256 ->
                fieldValue value < 2 ^ 256 ->
                N.of_nat (String.length data) < 2 ^ 53 ->
                exists out,
                            recoverRawTransaction (tr_rawTx res) = Ok out
                            /\ rr_v out = Some "0x1b" /\ rr_r out = Some HARDCODED_R
                            /\ rr_s out = Some HARDCODED_S))
  /\ (forall config res,
         dc_r config = None -> genRawDeployment config = Ok res ->
         dr_r res = HARDCODED_R /\ dr_s res = HARDCODED_S /\ dr_v res = "0x1b"
         /\ (forall gasLimit gasPrice value bytecode,
                dc_gasLimit config = Some gasLimit -> dc_gasPrice config = Some gasPrice ->
                dc_value config = Some value -> dc_bytecode config = Some bytecode ->
                fieldValue gasLimit < 2 ^ 256 -> fieldValue gasPrice < 2 ^ 256 ->
                fieldValue value < 2 ^ 256 ->
                N.of_nat (String.length bytecode) < 2 ^ 53 ->
                exists out,
                                recoverRawTransaction (dr_rawTx res) = Ok out
                                /\ rr_v out = Some "0x1b" /\ rr_r out = Some HARDCODED_R
                                /\ rr_s out = Some HARDCODED_S)).
Proof.
  repeat split; try reflexivity.
  - apply genRawTransaction_Ok in H0 as (? & ? & ? & ? & ? & ? & ? & H0).
    destruct H0 as (_ & _ & _ & _ & _ & _ & _ & _ & _ & _ & _ & _ & _ & ->).
    cbn [tr_r]. now rewrite H.
  - apply genRawTransaction_Ok in H0 as (? & ? & ? & ? & ? & ? & ? & H0).
    now destruct H0 as (_ & _ & _ & _ & _ & _ & _ & _ & _ & _ & _ & _ & _ & ->).
  - apply genRawTransaction_Ok in H0 as (? & ? & ? & ? & ? & ? & ? & H0).
    now destruct H0 as (_ & _ & _ & _ & _ & _ & _ & _ & _ & _ & _ & _ & _ & ->).
  - intros gasLimit gasPrice value data Egl Egp Ev Edata Bgl Bgp Bv Hlen.
    apply genRawTransaction_Ok in H0
      as (gl & gp & to & data' & v & tx & sender & Egl' & Egp' & _ & Edata' & Ev'
          & _ & Hgp & Hgl & Hv & Hdata & Hrhex & Htx & Hsender & ->).
    rewrite Egl in Egl'. rewrite Egp in Egp'. rewrite Ev in Ev'. rewrite Edata in Edata'.
    inversion Egl'; inversion Egp'; inversion Ev'; inversion Edata'. subst gl gp v data'.
    exists (recovered tx). cbn [tr_rawTx].
    split; [now apply (recover_serialized gasPrice gasLimit value (Some to) data
                         (tc_r config) tx sender) |].
    destruct (recovered_signature _ _ _ _ _ _ _ _ Hgp Hgl Hv Hrhex Htx Hsender)
      as (Sv & Sr & Ss).
    rewrite H in Sr. now repeat split.
  - apply genRawDeployment_Ok in H0 as (? & ? & ? & ? & ? & ? & ? & H0).
    destruct H0 as (_ & _ & _ & _ & _ & _ & _ & _ & _ & _ & _ & _ & ->).
    cbn [dr_r]. now rewrite H.
  - apply genRawDeployment_Ok in H0 as (? & ? & ? & ? & ? & ? & ? & H0).
    now destruct H0 as (_ & _ & _ & _ & _ & _ & _ & _ & _ & _ & _ & _ & ->).
  - apply genRawDeployment_Ok in H0 as (? & ? & ? & ? & ? & ? & ? & H0).
    now destruct H0 as (_ & _ & _ & _ & _ & _ & _ & _ & _ & _ & _ & _ & ->).
  - intros gasLimit gasPrice value data Egl Egp Ev Edata Bgl Bgp Bv Hlen.
    apply genRawDeployment_Ok in H0
      as (gl & gp & data' & v & tx & sender & ab & Egl' & Egp' & Edata' & Ev'
          & Hgp & Hgl & Hv & Hdata & Hrhex & Htx & Hsender & _ & ->).
    rewrite Egl in Egl'. rewrite Egp in Egp'. rewrite Ev in Ev'. rewrite Edata in Edata'.
    inversion Egl'; inversion Egp'; inversion Ev'; inversion Edata'. subst gl gp v data'.
    exists (recovered tx). cbn [dr_rawTx].
    split; [now apply (recover_serialized gasPrice gasLimit value None data
                         (dc_r config) tx sender) |].
    destruct (recovered_signature _ _ _ _ _ _ _ _ Hgp Hgl Hv Hrhex Htx Hsender)
      as (Sv & Sr & Ss).
    rewrite H in Sr. now repeat split.
Qed.

Lemma default_signature_constants_witness :
  tr_r validResult = HARDCODED_R /\ tr_s validResult = HARDCODED_S
  /\ tr_v validResult = "0x1b"
  /\ dr_r validDeploymentResult = HARDCODED_R
  /\ dr_s validDeploymentResult = HARDCODED_S
  /\ dr_v validDeploymentResult = "0x1b".
Proof.
  destruct default_signature_constants as (_ & _ & _ & _ & Ht & Hd).
  destruct (Ht validConfig validResult eq_refl genRawTransaction_validConfig)
    as (Hr & Hs & Hv & _).
  destruct (Hd validDeployment validDeploymentResult eq_refl
               genRawDeployment_validDeployment) as (Hr' & Hs' & Hv' & _).
  repeat split; assumption.
Defined.

(** C3 does not hold as the specification words it: the constant returned for
    [validConfig] is not 34 repeated 0x12 bytes. *)
Lemma default_r_not_34_bytes :
  exists res,
    tc_r validConfig = None /\ genRawTransaction validConfig = Ok res
    /\ tr_r res <> repeatedByte "12" 34 /\ tr_s res <> repeatedByte "12" 34.
Proof.
  exists validResult.
  split; [reflexivity |]. split; [exact genRawTransaction_validConfig |].
  split; apply string_length_neq; discriminate.
Qed.

(** A cost of the inputs that does not exceed [2^53] is the cost of the
    encoded integers. *)
Lemma cost_exact (gasLimit gasPrice value : NumberOrString) :
  fieldValue value + fieldValue gasLimit * fieldValue gasPrice <= 2 ^ 53 ->
  encodedValue value + encodedValue gasLimit * encodedValue gasPrice
  = fieldValue value + fieldValue gasLimit * fieldValue gasPrice.
Proof.
  intros H.
  pose proof (encodedValue_le gasLimit) as Ll.
  pose proof (encodedValue_le gasPrice) as Lp.
  pose proof (encodedValue_exact gasLimit) as El.
  pose proof (encodedValue_exact gasPrice) as Ep.
  rewrite (encodedValue_exact value) by lia.
  remember (2 ^ 53) as K eqn:EK.
  destruct (N.eq_dec (fieldValue gasLimit) 0) as [Zl | Nl].
  { assert (encodedValue gasLimit = 0) by lia. nia. }
  destruct (N.eq_dec (fieldValue gasPrice) 0) as [Zp | Np].
  { assert (encodedValue gasPrice = 0) by lia. nia. }
  rewrite El, Ep by nia. reflexivity.
Qed.

Lemma upfrontCost_exact (tx : Transaction) (gasLimit gasPrice value : NumberOrString) :
  tx_gasLimit tx = encodedValue gasLimit -> tx_gasPrice tx = encodedValue gasPrice ->
  tx_value tx = encodedValue value ->
  Number_of_bigint (getUpfrontCost tx)
  = Number_of_bigint (encodedValue value + encodedValue gasLimit * encodedValue gasPrice)
  /\ (fieldValue value + fieldValue gasLimit * fieldValue gasPrice <= 2 ^ 53 ->
      Number_of_bigint (getUpfrontCost tx)
      = fieldValue value + fieldValue gasLimit * fieldValue gasPrice).
Proof.
  intros El Ep Ev. unfold getUpfrontCost. rewrite El, Ep, Ev.
  replace (encodedValue gasLimit * encodedValue gasPrice + encodedValue value)
    with (encodedValue value + encodedValue gasLimit * encodedValue gasPrice) by lia.
  split; [reflexivity |].
  intros H. rewrite (cost_exact gasLimit gasPrice value H).
  now apply Number_of_bigint_exact.
Qed.

(** C4 (upfront cost), in the form that holds of the code. For every config a
    builder accepts, the returned upfrontCost is [Number] of the cost of the
    transaction, [value + gasLimit * gasPrice] over the integers encoded in
    it: the integer that the hex text of the field denotes, which is the
    input itself for a hex string and for a number up to [2^53], and is never
    larger than the input. It is the exact cost of the inputs whenever that
    cost does not exceed [2^53]; and replacing every numeric input of an
    accepted config by its 0x-hex rendering (100000 by 0x186a0, 1000000000 by
    0x3b9aca00, 0 by 0x0) leaves the whole result unchanged. *)
Theorem upfrontCost_value :
  (forall config res gasLimit gasPrice value,
      tc_gasLimit config = Some gasLimit -> tc_gasPrice config = Some gasPrice ->
      tc_value config = Some value ->
      genRawTransaction config = Ok res ->
      tr_upfrontCost res
      = Number_of_bigint
          (encodedValue value + encodedValue gasLimit * encodedValue gasPrice)
      /\ (fieldValue value + fieldValue gasLimit * fieldValue gasPrice <= 2 ^ 53 ->
          tr_upfrontCost res
          = fieldValue value + fieldValue gasLimit * fieldValue gasPrice)
      /\ genRawTransaction (hexTransactionConfig config) = Ok res)
  /\ (forall config res gasLimit gasPrice value,
         dc_gasLimit config = Some gasLimit -> dc_gasPrice config = Some gasPrice ->
         dc_value config = Some value ->
         genRawDeployment config = Ok res ->
         dr_upfrontCost res
         = Number_of_bigint
             (encodedValue value + encodedValue gasLimit * encodedValue gasPrice)
         /\ (fieldValue value + fieldValue gasLimit * fieldValue gasPrice <= 2 ^ 53 ->
             dr_upfrontCost res
             = fieldValue value + fieldValue gasLimit * fieldValue gasPrice)
         /\ genRawDeployment (hexDeploymentConfig config) = Ok res)
  /\ (forall x : NumberOrString,
         isValidHex (toHexField x) = true ->
         hexStringValue (stripHexPrefix (toHexField x)) = encodedValue x)
  /\ (forall x : NumberOrString,
         encodedValue x <= fieldValue x
         /\ (fieldValue x <= 2 ^ 53 -> encodedValue x = fieldValue x))
  /\ (forall s : string, encodedValue (Str s) = fieldValue (Str s)).
Proof.
  split; [| split; [| split; [exact encodedValue_text | split; [| reflexivity]]]].
  3: { intros x. split; [apply encodedValue_le | apply encodedValue_exact]. }
  - intros config res gasLimit gasPrice value Egl Egp Ev H.
    apply genRawTransaction_Ok in H
      as (gl & gp & to & data & v & tx & sender & Egl' & Egp' & Eto & Edata & Ev'
          & Hto & Hgp & Hgl & Hv & Hdata & Hrhex & Htx & Hsender & ->).
    rewrite Egl in Egl'. rewrite Egp in Egp'. rewrite Ev in Ev'.
    inversion Egl'; inversion Egp'; inversion Ev'. subst gl gp v.
    destruct (built_fields _ _ _ _ _ _ _ Hgp Hgl Hv Htx)
      as (_ & _ & Fgp & Fgl & Fv & _).
    cbn [tr_upfrontCost].
    destruct (upfrontCost_exact tx gasLimit gasPrice value Fgl Fgp Fv) as [E1 E2].
    split; [exact E1 |]. split; [exact E2 |].
    apply (genRawTransaction_intro (hexTransactionConfig config)
             (asHex gasLimit) (asHex gasPrice) (asHex value) to data tx sender);
      cbn [hexTransactionConfig tc_gasLimit tc_gasPrice tc_to tc_data tc_value tc_r
           asHex toHexField truthy];
      try assumption; try (now apply truthy_validHex);
      first [now rewrite Egl | now rewrite Egp | now rewrite Ev].
  - intros config res gasLimit gasPrice value Egl Egp Ev H.
    apply genRawDeployment_Ok in H
      as (gl & gp & data & v & tx & sender & ab & Egl' & Egp' & Edata & Ev'
          & Hgp & Hgl & Hv & Hdata & Hrhex & Htx & Hsender & Hab & ->).
    rewrite Egl in Egl'. rewrite Egp in Egp'. rewrite Ev in Ev'.
    inversion Egl'; inversion Egp'; inversion Ev'. subst gl gp v.
    destruct (built_fields _ _ _ _ _ _ _ Hgp Hgl Hv Htx)
      as (_ & _ & Fgp & Fgl & Fv & _).
    cbn [dr_upfrontCost].
    destruct (upfrontCost_exact tx gasLimit gasPrice value Fgl Fgp Fv) as [E1 E2].
    split; [exact E1 |]. split; [exact E2 |].
    apply (genRawDeployment_intro (hexDeploymentConfig config)
             (asHex gasLimit) (asHex gasPrice) (asHex value) data tx sender ab);
      cbn [hexDeploymentConfig dc_gasLimit dc_gasPrice dc_bytecode dc_value dc_r
           asHex toHexField truthy];
      try assumption; try (now apply truthy_validHex);
      first [now rewrite Egl | now rewrite Egp | now rewrite Ev].
Qed.

Lemma upfrontCost_value_witness :
  tr_upfrontCost validResult = 0 + 100000 * 1000000000
  /\ tr_upfrontCost validResult = 100000000000000
  /\ genRawTransaction
       {| tc_gasLimit := Some (Str "0x186a0");
          tc_gasPrice := Some (Str "0x3b9aca00");
          tc_to := Some "0x742d35Cc6634C0532925a3b844Bc454e4438f44e";
          tc_data := Some "0x1234";
          tc_value := Some (Str "0x0");
          tc_r := None |} = Ok validResult.
Proof.
  destruct (proj1 upfrontCost_value validConfig validResult
              (Num (JsInt 100000)) (Num (JsInt 1000000000)) (Num (JsInt 0))
              eq_refl eq_refl eq_refl genRawTransaction_validConfig)
    as (_ & Hexact & Hhex).
  split; [apply Hexact; vm_compute; discriminate |].
  split; [reflexivity | exact Hhex].
Defined.

(** C4 does not hold as the specification words it: with gasLimit 1, gasPrice
    1 and value [2^53] the sum is [2^53 + 1] and the returned upfrontCost is
    [2^53]. *)
Lemma upfrontCost_not_exact :
  exists res,
    genRawTransaction largeValueConfig = Ok res
    /\ isDouble (JsInt 9007199254740992) = true
    /\ fieldValue (Num (JsInt 9007199254740992))
       + fieldValue (Num (JsInt 1)) * fieldValue (Num (JsInt 1)) = 9007199254740993
    /\ tr_upfrontCost res = 9007199254740992.
Proof.
  exists largeValueResult.
  split; [exact genRawTransaction_largeValueConfig |].
  repeat split.
Qed.

(** C6 (missing-field rejection). [genRawTransaction] fails with the
    missing-parameter error, naming gasLimit, gasPrice, to, data and value,
    whenever one of these is absent, and [genRawDeployment] likewise for
    gasLimit, gasPrice, bytecode and value; the outcome is the error, not a
    result. *)
Theorem missing_field_rejected :
  (forall config,
      tc_gasLimit config = None \/ tc_gasPrice config = None \/ tc_to config = None
      \/ tc_data config = None \/ tc_value config = None ->
      genRawTransaction config
      = Err (MissingField
               "All parameters (gasLimit, gasPrice, to, data, value) are required"))
  /\ (forall config,
         dc_gasLimit config = None \/ dc_gasPrice config = None
         \/ dc_bytecode config = None \/ dc_value config = None ->
         genRawDeployment config
         = Err (MissingField
                  "All parameters (gasLimit, gasPrice, bytecode, value) are required")).
Proof.
  split.
  - intros config H. unfold genRawTransaction.
    destruct (tc_gasLimit config) as [gl |]; [| reflexivity].
    destruct (tc_gasPrice config) as [gp |]; [| reflexivity].
    destruct (tc_to config) as [to |]; [| reflexivity].
    destruct (tc_data config) as [data |]; [| reflexivity].
    destruct (tc_value config) as [v |]; [| reflexivity].
    destruct H as [H | [H | [H | [H | H]]]]; discriminate.
  - intros config H. unfold genRawDeployment.
    destruct (dc_gasLimit config) as [gl |]; [| reflexivity].
    destruct (dc_gasPrice config) as [gp |]; [| reflexivity].
    destruct (dc_bytecode config) as [data |]; [| reflexivity].
    destruct (dc_value config) as [v |]; [| reflexivity].
    destruct H as [H | [H | [H | H]]]; discriminate.
Qed.

Lemma missing_field_rejected_witness :
  genRawTransaction
    {| tc_gasLimit := None;
       tc_gasPrice := Some (Num (JsInt 1000000000));
       tc_to := Some "0x742d35Cc6634C0532925a3b844Bc454e4438f44e";
       tc_data := Some "0x1234";
       tc_value := Some (Num (JsInt 0));
       tc_r := None |}
  = Err (MissingField
           "All parameters (gasLimit, gasPrice, to, data, value) are required").
Proof.
  apply (proj1 missing_field_rejected). left. reflexivity.
Defined.

Lemma allBytes_nth (items : list RLPItem) (fields : list bytes) (i : nat) :
  allBytes items = Ok fields -> (i < List.length items)%nat ->
  nth i items (RLPBytes []) = RLPBytes (nth i fields []).
Proof.
  revert fields i. induction items as [| it items IH]; intros fields i H Hi.
  - cbn in Hi. lia.
  - cbn [allBytes] in H.
    apply bind_Ok in H as (b & Hb & H). apply bind_Ok in H as (bs & Hbs & H).
    inversion H; subst fields. destruct it as [b' | l]; [| discriminate].
    inversion Hb; subst b'.
    destruct i as [| i]; [reflexivity |].
    cbn [nth]. apply IH; [exact Hbs | cbn in Hi; lia].
Qed.

Lemma fromSerializedTx_listed (serialized : bytes) (items : list RLPItem) :
  RLP_decode serialized = Ok (RLPList items) ->
  Transaction_fromSerializedTx serialized =
  (_ <- guard ((List.length items =? 6)%nat || (List.length items =? 9)%nat)
         InvalidFieldCount ;;
   values <- allBytes items ;;
   let f (i : nat) := nth i values [] in
   newTransaction (f 0%nat) (f 1%nat) (f 2%nat) (f 3%nat) (f 4%nat) (f 5%nat)
                  (f 6%nat) (f 7%nat) (f 8%nat)).
Proof. intros H. unfold Transaction_fromSerializedTx. now rewrite H. Qed.

Lemma recoverRawTransaction_valid (rawTransaction : string) :
  isValidHex rawTransaction = true ->
  recoverRawTransaction rawTransaction =
  (tx <- Transaction_fromSerializedTx (Buffer_from_hex (stripHexPrefix rawTransaction)) ;;
   Ok (recovered tx)).
Proof. intros H. unfold recoverRawTransaction. now rewrite H. Qed.

Lemma allBytes_length (items : list RLPItem) (fields : list bytes) :
  allBytes items = Ok fields -> List.length fields = List.length items.
Proof.
  revert fields. induction items as [| it items IH]; intros fields H.
  - now inversion H.
  - cbn [allBytes] in H.
    apply bind_Ok in H as (b & Hb & H). apply bind_Ok in H as (bs & Hbs & H).
    inversion H; subst fields. cbn [List.length]. now rewrite (IH bs Hbs).
Qed.

(** C7 (parse structure). For a raw transaction whose RLP decodes to a
    top-level list: any number of fields other than six or nine is rejected; a
    parsed result comes from six or nine fields; with six fields v, r and s
    are absent; [to] is absent exactly when its byte sequence is empty; and
    the result is decided by the fields alone (byte strings that make a
    transaction object): no sender is recovered, so that a six-field payload
    and a nine-field transaction whose signature recovers no sender are both
    parsed. *)
Theorem parse_structure :
  (forall (rawTransaction : string) (items : list RLPItem),
      isValidHex rawTransaction = true ->
      RLP_decode (Buffer_from_hex (stripHexPrefix rawTransaction)) = Ok (RLPList items) ->
      (List.length items <> 6%nat -> List.length items <> 9%nat ->
       recoverRawTransaction rawTransaction = Err InvalidFieldCount)
      /\ (forall res,
             recoverRawTransaction rawTransaction = Ok res ->
             (List.length items = 6%nat \/ List.length items = 9%nat)
             /\ (List.length items = 6%nat ->
                 rr_v res = None /\ rr_r res = None /\ rr_s res = None)
             /\ (rr_to res = None <-> nth 3 items (RLPBytes []) = RLPBytes []))
      /\ (forall fields tx,
             List.length items = 6%nat \/ List.length items = 9%nat ->
             allBytes items = Ok fields ->
             newTransaction (nth 0 fields []) (nth 1 fields []) (nth 2 fields [])
                            (nth 3 fields []) (nth 4 fields []) (nth 5 fields [])
                            (nth 6 fields []) (nth 7 fields []) (nth 8 fields []) = Ok tx ->
             recoverRawTransaction rawTransaction = Ok (recovered tx)))
  /\ recoverRawTransaction
       (hexOfBytes (RLP_encode (RLPList (map RLPBytes (rawUnsigned unrecoverableTransaction)))))
     = Ok {| rr_nonce := 0; rr_gasPrice := 1000000000; rr_gasLimit := 100000;
             rr_to := None; rr_value := 0; rr_data := "0x1234";
             rr_v := None; rr_r := None; rr_s := None |}
  /\ getSenderAddress unrecoverableTransaction = Err InvalidSignature
  /\ recoverRawTransaction (hexOfBytes (serialize unrecoverableTransaction))
     = Ok (recovered unrecoverableTransaction).
Proof.
  split; [| repeat split; vm_compute; reflexivity].
  intros rawTransaction items Hhex Hdec.
  rewrite (recoverRawTransaction_valid _ Hhex), (fromSerializedTx_listed _ _ Hdec).
  split; [| split].
  - intros H6 H9.
    apply Nat.eqb_neq in H6. apply Nat.eqb_neq in H9. now rewrite H6, H9.
  - intros res H.
    apply bind_Ok in H as (tx & H & Hres). inversion Hres; subst res. clear Hres.
    apply (guard_Ok _ _ _ (fun _ => _)) in H as [Hlen H].
    apply bind_Ok in H as (fields & Hfields & H).
    cbv zeta in H.
    unfold newTransaction in H.
    destruct (validateTransaction_Ok _ _ H) as [-> _].
    pose proof (allBytes_length _ _ Hfields) as Hl.
    assert (Harity : List.length items = 6%nat \/ List.length items = 9%nat).
    { apply orb_prop in Hlen as [E | E]; apply Nat.eqb_eq in E; [now left | now right]. }
    split; [exact Harity |]. split.
    + intros E6. rewrite <- Hl in E6.
      destruct fields as [| f0 [| f1 [| f2 [| f3 [| f4 [| f5 [| f6 rest]]]]]]];
        try discriminate.
      now repeat split.
    + unfold recovered. cbn [rr_to tx_to].
      rewrite (allBytes_nth items fields 3 Hfields) by (destruct Harity; lia).
      destruct (nth 3 fields []) as [| b l]; cbn [nonEmpty option_map].
      * now split.
      * split; discriminate.
  - intros fields tx Harity Hfields Htx.
    assert (Hlen : (List.length items =? 6)%nat || (List.length items =? 9)%nat = true).
    { destruct Harity as [E | E]; rewrite E; reflexivity. }
    rewrite Hlen. cbn [guard bind]. rewrite Hfields. cbn [bind].
    cbv zeta. now rewrite Htx.
Qed.

Lemma parse_structure_witness :
  (List.length
     [RLPBytes []; RLPBytes (bytesOfHex "0x174876e800");
      RLPBytes (bytesOfHex "0x0186a0"); RLPBytes []; RLPBytes [];
      RLPBytes (bytesOfHex nickFactoryBytecode); RLPBytes [x1b];
      RLPBytes (bytesOfHex (repeatedByte "22" 32));
      RLPBytes (bytesOfHex (repeatedByte "22" 32))] = 6%nat
   \/ List.length
        [RLPBytes []; RLPBytes (bytesOfHex "0x174876e800");
         RLPBytes (bytesOfHex "0x0186a0"); RLPBytes []; RLPBytes [];
         RLPBytes (bytesOfHex nickFactoryBytecode); RLPBytes [x1b];
         RLPBytes (bytesOfHex (repeatedByte "22" 32));
         RLPBytes (bytesOfHex (repeatedByte "22" 32))] = 9%nat)
  /\ rr_to {| rr_nonce := 0;
              rr_gasPrice := 100000000000;
              rr_gasLimit := 100000;
              rr_to := None;
              rr_value := 0;
              rr_data := nickFactoryBytecode;
              rr_v := Some "0x1b";
              rr_r := Some (repeatedByte "22" 32);
              rr_s := Some (repeatedByte "22" 32) |} = None.
Proof.
  assert (Hhex : isValidHex nickFactoryRawTx = true) by reflexivity.
  assert (Hdec : RLP_decode (Buffer_from_hex (stripHexPrefix nickFactoryRawTx))
                 = Ok (RLPList
                         [RLPBytes []; RLPBytes (bytesOfHex "0x174876e800");
                          RLPBytes (bytesOfHex "0x0186a0"); RLPBytes []; RLPBytes [];
                          RLPBytes (bytesOfHex nickFactoryBytecode); RLPBytes [x1b];
                          RLPBytes (bytesOfHex (repeatedByte "22" 32));
                          RLPBytes (bytesOfHex (repeatedByte "22" 32))]))
    by (vm_compute; reflexivity).
  assert (Hres : recoverRawTransaction nickFactoryRawTx
                 = Ok {| rr_nonce := 0;
                         rr_gasPrice := 100000000000;
                         rr_gasLimit := 100000;
                         rr_to := None;
                         rr_value := 0;
                         rr_data := nickFactoryBytecode;
                         rr_v := Some "0x1b";
                         rr_r := Some (repeatedByte "22" 32);
                         rr_s := Some (repeatedByte "22" 32) |})
    by (vm_compute; reflexivity).
  destruct (proj1 parse_structure nickFactoryRawTx _ Hhex Hdec) as (_ & Hparsed & _).
  destruct (Hparsed _ Hres) as (Harity & _ & Hto).
  split; [exact Harity | apply Hto; reflexivity].
Defined.

Lemma invalidHex_numbers (gasPrice gasLimit value : NumberOrString) (data : string)
      (x : JsNumber) :
  gasLimit = Num x \/ gasPrice = Num x \/ value = Num x ->
  isInteger x = false ->
  negb (isValidHex (toHexField gasPrice)) || negb (isValidHex (toHexField gasLimit))
  || negb (isValidHex (toHexField value)) || negb (isValidHex data) = true.
Proof.
  intros [-> | [-> | ->]] Hx; rewrite (nonInteger_invalidHex x Hx); cbn [negb orb];
    rewrite ?orb_true_r; reflexivity.
Qed.

(** A config with a number that is not an integer is rejected by
    [genRawTransaction], with the hex-validation error when the checks that
    come before the hex validation pass. *)
Lemma fractional_transaction (config : TransactionConfig) (x : JsNumber) :
  transactionHasNumber config x -> isInteger x = false ->
  (exists e, genRawTransaction config = Err e)
  /\ (transactionEarlyChecks config = true ->
      genRawTransaction config = Err (InvalidHex "Invalid hex values in config")).
Proof.
  intros Hnum Hx.
  unfold transactionHasNumber in Hnum.
  unfold genRawTransaction, transactionEarlyChecks, invalidOverride.
  destruct (tc_gasLimit config) as [gl |];
    [| split; [eauto | cbn; discriminate]].
  destruct (tc_gasPrice config) as [gp |];
    [| split; [eauto | cbn; rewrite ?andb_false_r; discriminate]].
  destruct (tc_to config) as [to |];
    [| split; [eauto | cbn; rewrite ?andb_false_r; discriminate]].
  destruct (tc_data config) as [data |];
    [| split; [eauto | cbn; rewrite ?andb_false_r; discriminate]].
  destruct (tc_value config) as [v |];
    [| split; [eauto | cbn; rewrite ?andb_false_r; discriminate]].
  cbn [truthy_opt].
  assert (Hhex : negb (isValidHex (toHexField gp)) || negb (isValidHex (toHexField gl))
                 || negb (isValidHex (toHexField v)) || negb (isValidHex data) = true).
  { apply (invalidHex_numbers gp gl v data x); [| exact Hx].
    destruct Hnum as [E | [E | E]]; inversion E; auto. }
  rewrite Hhex.
  destruct (truthy gl), (truthy gp), (truthy_string to), (truthy_string data);
    cbn [negb orb andb]; try (split; [eauto | discriminate]).
  destruct (isValidChecksumAddress to); cbn [negb andb];
    [| split; [eauto | discriminate]].
  destruct (truthy_opt truthy_string (tc_r config)
            && negb (truthy_opt isValidHex (tc_r config)));
    cbn [negb]; split; eauto; discriminate.
Qed.

Lemma fractional_deployment (config : DeploymentConfig) (x : JsNumber) :
  deploymentHasNumber config x -> isInteger x = false ->
  (exists e, genRawDeployment config = Err e)
  /\ (deploymentEarlyChecks config = true ->
      genRawDeployment config = Err (InvalidHex "Invalid hex values in config")).
Proof.
  intros Hnum Hx.
  unfold deploymentHasNumber in Hnum.
  unfold genRawDeployment, deploymentEarlyChecks, invalidOverride.
  destruct (dc_gasLimit config) as [gl |];
    [| split; [eauto | cbn; discriminate]].
  destruct (dc_gasPrice config) as [gp |];
    [| split; [eauto | cbn; rewrite ?andb_false_r; discriminate]].
  destruct (dc_bytecode config) as [data |];
    [| split; [eauto | cbn; rewrite ?andb_false_r; discriminate]].
  destruct (dc_value config) as [v |];
    [| split; [eauto | cbn; rewrite ?andb_false_r; discriminate]].
  cbn [truthy_opt].
  assert (Hhex : negb (isValidHex (toHexField gp)) || negb (isValidHex (toHexField gl))
                 || negb (isValidHex (toHexField v)) || negb (isValidHex data) = true).
  { apply (invalidHex_numbers gp gl v data x); [| exact Hx].
    destruct Hnum as [E | [E | E]]; inversion E; auto. }
  rewrite Hhex.
  destruct (truthy gl), (truthy gp), (truthy_string data);
    cbn [negb orb andb]; try (split; [eauto | discriminate]).
  destruct (truthy_opt truthy_string (dc_r config)
            && negb (truthy_opt isValidHex (dc_r config)));
    cbn [negb]; split; eauto; discriminate.
Qed.

(** A number that is not an integer is truthy, unless it is NaN. *)
Lemma nonInteger_truthy (x : JsNumber) :
  isInteger x = false -> x <> JsNaN -> truthy (Num x) = true.
Proof.
  destruct x as [| negative | negative m e]; intros Hx Hnan;
    [contradiction | reflexivity |].
  cbn [isInteger] in Hx. apply N.eqb_neq in Hx.
  destruct (fractionPart_nonzero m e Hx) as (Hm & _).
  cbn [truthy truthy_number]. now apply negb_true_iff, N.eqb_neq.
Qed.

(** NaN is falsy: as gasLimit or gasPrice it fails the first check. *)
Lemma nan_transaction (config : TransactionConfig) :
  tc_gasLimit config = Some (Num JsNaN) \/ tc_gasPrice config = Some (Num JsNaN) ->
  genRawTransaction config = Err (MissingField missingTransactionParameters).
Proof.
  intros H. unfold genRawTransaction.
  destruct (tc_gasLimit config) as [gl |]; [| reflexivity].
  destruct (tc_gasPrice config) as [gp |]; [| reflexivity].
  destruct (tc_to config) as [to |]; [| reflexivity].
  destruct (tc_data config) as [data |]; [| reflexivity].
  destruct (tc_value config) as [v |]; [| reflexivity].
  destruct H as [H | H]; inversion H; subst;
    cbn [truthy truthy_number negb orb]; rewrite ?orb_true_r; reflexivity.
Qed.

Lemma nan_deployment (config : DeploymentConfig) :
  dc_gasLimit config = Some (Num JsNaN) \/ dc_gasPrice config = Some (Num JsNaN) ->
  genRawDeployment config = Err (MissingField missingDeploymentParameters).
Proof.
  intros H. unfold genRawDeployment.
  destruct (dc_gasLimit config) as [gl |]; [| reflexivity].
  destruct (dc_gasPrice config) as [gp |]; [| reflexivity].
  destruct (dc_bytecode config) as [data |]; [| reflexivity].
  destruct (dc_value config) as [v |]; [| reflexivity].
  destruct H as [H | H]; inversion H; subst;
    cbn [truthy truthy_number negb orb]; rewrite ?orb_true_r; reflexivity.
Qed.

(** C8 (fractional rejection), in the form that holds of the code. A config in
    which gasLimit, gasPrice or value is a number that is not an integer (a
    fraction such as 0.5, an infinity or NaN) is always rejected, by either
    builder, and no transaction is built. The error is the hex-validation
    error "Invalid hex values in config" whenever the checks that come before
    the hex validation pass (required fields present and truthy, [to] a
    checksummed address, the override [r] absent, empty or valid hex). Such a
    number is truthy unless it is NaN, so that it does not fail the first
    check by itself; a gasLimit or gasPrice that is NaN is falsy, and the
    builder fails with the missing-parameters error instead. *)
Theorem fractional_rejected :
  (forall config x,
      transactionHasNumber config x -> isInteger x = false ->
      (exists e, genRawTransaction config = Err e)
      /\ (transactionEarlyChecks config = true ->
          genRawTransaction config = Err (InvalidHex "Invalid hex values in config"))
      /\ (x <> JsNaN -> truthy (Num x) = true)
      /\ (tc_gasLimit config = Some (Num JsNaN)
          \/ tc_gasPrice config = Some (Num JsNaN) ->
          genRawTransaction config
          = Err (MissingField
                   "All parameters (gasLimit, gasPrice, to, data, value) are required")))
  /\ (forall config x,
         deploymentHasNumber config x -> isInteger x = false ->
         (exists e, genRawDeployment config = Err e)
         /\ (deploymentEarlyChecks config = true ->
             genRawDeployment config = Err (InvalidHex "Invalid hex values in config"))
         /\ (x <> JsNaN -> truthy (Num x) = true)
         /\ (dc_gasLimit config = Some (Num JsNaN)
             \/ dc_gasPrice config = Some (Num JsNaN) ->
             genRawDeployment config
             = Err (MissingField
                      "All parameters (gasLimit, gasPrice, bytecode, value) are required"))).
Proof.
  split; intros config x Hnum Hx.
  - destruct (fractional_transaction config x Hnum Hx) as [Herr Hhex].
    repeat split; [exact Herr | exact Hhex | |].
    + now apply nonInteger_truthy.
    + apply nan_transaction.
  - destruct (fractional_deployment config x Hnum Hx) as [Herr Hhex].
    repeat split; [exact Herr | exact Hhex | |].
    + now apply nonInteger_truthy.
    + apply nan_deployment.
Qed.

Lemma fractional_rejected_witness :
  genRawTransaction
    {| tc_gasLimit := Some (Num (JsInt 100000));
       tc_gasPrice := Some (Num (JsInt 1000000000));
       tc_to := Some "0x742d35Cc6634C0532925a3b844Bc454e4438f44e";
       tc_data := Some "0x1234";
       tc_value := Some (Num (JsFinite false 1 (-1)));
       tc_r := None |}
  = Err (InvalidHex "Invalid hex values in config").
Proof.
  apply (proj1 fractional_rejected _ (JsFinite false 1 (-1))).
  - right. right. reflexivity.
  - reflexivity.
  - vm_compute. reflexivity.
Defined.

(** C8 does not hold as the specification words it. NaN is a number that is
    not an integer; in the test config, which is accepted, a gasLimit of NaN
    in place of 100000 is rejected with the missing-parameters error, not with
    a hex-validation error: NaN is falsy, and the first check of the builder
    comes before the hex validation. *)
Lemma nan_gasLimit_missing_field :
  transactionHasNumber nanGasLimitConfig JsNaN
  /\ isInteger JsNaN = false
  /\ tc_gasPrice nanGasLimitConfig = tc_gasPrice validConfig
  /\ tc_to nanGasLimitConfig = tc_to validConfig
  /\ tc_data nanGasLimitConfig = tc_data validConfig
  /\ tc_value nanGasLimitConfig = tc_value validConfig
  /\ tc_r nanGasLimitConfig = tc_r validConfig
  /\ genRawTransaction validConfig = Ok validResult
  /\ genRawTransaction nanGasLimitConfig
     = Err (MissingField
              "All parameters (gasLimit, gasPrice, to, data, value) are required")
  /\ forall msg, genRawTransaction nanGasLimitConfig <> Err (InvalidHex msg).
Proof.
  assert (E : genRawTransaction nanGasLimitConfig
              = Err (MissingField missingTransactionParameters))
    by (apply nan_transaction; left; reflexivity).
  split; [left; reflexivity |].
  do 6 (split; [reflexivity |]).
  split; [exact genRawTransaction_validConfig |].
  split; [exact E |].
  intros msg. rewrite E. discriminate.
Qed.

(** C9 (falsiness of required fields). A config whose gasLimit or gasPrice is
    the number 0, or whose data (bytecode) is the empty string, is rejected
    with the same missing-parameters error raised for an absent field; a value
    that is the number 0 is not: with the other required fields truthy the
    builder does not raise that error, and the test config, whose value is 0,
    is accepted. *)
Theorem falsy_fields_rejected :
  (forall config negative e,
      tc_gasLimit config = Some (Num (JsFinite negative 0 e))
      \/ tc_gasPrice config = Some (Num (JsFinite negative 0 e))
      \/ tc_data config = Some "" ->
      genRawTransaction config
      = Err (MissingField
               "All parameters (gasLimit, gasPrice, to, data, value) are required"))
  /\ (forall config negative e,
         dc_gasLimit config = Some (Num (JsFinite negative 0 e))
         \/ dc_gasPrice config = Some (Num (JsFinite negative 0 e))
         \/ dc_bytecode config = Some "" ->
         genRawDeployment config
         = Err (MissingField
                  "All parameters (gasLimit, gasPrice, bytecode, value) are required"))
  /\ (forall config negative e,
         tc_value config = Some (Num (JsFinite negative 0 e)) ->
         truthy_opt truthy (tc_gasLimit config) = true ->
         truthy_opt truthy (tc_gasPrice config) = true ->
         truthy_opt truthy_string (tc_to config) = true ->
         truthy_opt truthy_string (tc_data config) = true ->
         forall msg, genRawTransaction config <> Err (MissingField msg))
  /\ (forall config negative e,
         dc_value config = Some (Num (JsFinite negative 0 e)) ->
         truthy_opt truthy (dc_gasLimit config) = true ->
         truthy_opt truthy (dc_gasPrice config) = true ->
         truthy_opt truthy_string (dc_bytecode config) = true ->
         forall msg, genRawDeployment config <> Err (MissingField msg))
  /\ tc_value validConfig = Some (Num (JsFinite false 0 0))
  /\ genRawTransaction validConfig = Ok validResult
  /\ dc_value validDeployment = Some (Num (JsFinite false 0 0))
  /\ genRawDeployment validDeployment = Ok validDeploymentResult.
Proof.
  split; [| split; [| split; [| split]]].
  - intros config negative e H. unfold genRawTransaction.
    destruct (tc_gasLimit config) as [gl |]; [| reflexivity].
    destruct (tc_gasPrice config) as [gp |]; [| reflexivity].
    destruct (tc_to config) as [to |]; [| reflexivity].
    destruct (tc_data config) as [data |]; [| reflexivity].
    destruct (tc_value config) as [v |]; [| reflexivity].
    destruct H as [H | [H | H]]; inversion H; subst; cbn [truthy truthy_number truthy_string
      N.eqb negb orb]; rewrite ?orb_true_r; reflexivity.
  - intros config negative e H. unfold genRawDeployment.
    destruct (dc_gasLimit config) as [gl |]; [| reflexivity].
    destruct (dc_gasPrice config) as [gp |]; [| reflexivity].
    destruct (dc_bytecode config) as [data |]; [| reflexivity].
    destruct (dc_value config) as [v |]; [| reflexivity].
    destruct H as [H | [H | H]]; inversion H; subst; cbn [truthy truthy_number truthy_string
      N.eqb negb orb]; rewrite ?orb_true_r; reflexivity.
  - intros config negative e Ev Tgl Tgp Tto Tdata msg. unfold genRawTransaction.
    rewrite Ev.
    destruct (tc_gasLimit config) as [gl |]; [| discriminate].
    destruct (tc_gasPrice config) as [gp |]; [| discriminate].
    destruct (tc_to config) as [to |]; [| discriminate].
    destruct (tc_data config) as [data |]; [| discriminate].
    cbn [truthy_opt] in *. rewrite Tgl, Tgp, Tto, Tdata. cbn [negb orb].
    destruct (negb (isValidChecksumAddress to)); [discriminate |].
    destruct (truthy_opt truthy_string (tc_r config)
              && negb (truthy_opt isValidHex (tc_r config))); [discriminate |].
    match goal with |- (if ?c then _ else _) <> _ => destruct c end; [discriminate |].
    intros H.
    apply bind_Err in H as [H | (tx & _ & H)].
    { apply fromTxData_Err in H as [[m H] | H]; discriminate. }
    apply bind_Err in H as [H | (sender & _ & H)]; [| discriminate].
    apply getSenderAddress_Err in H. discriminate.
  - intros config negative e Ev Tgl Tgp Tdata msg. unfold genRawDeployment.
    rewrite Ev.
    destruct (dc_gasLimit config) as [gl |]; [| discriminate].
    destruct (dc_gasPrice config) as [gp |]; [| discriminate].
    destruct (dc_bytecode config) as [data |]; [| discriminate].
    cbn [truthy_opt] in *. rewrite Tgl, Tgp, Tdata. cbn [negb orb].
    destruct (truthy_opt truthy_string (dc_r config)
              && negb (truthy_opt isValidHex (dc_r config))); [discriminate |].
    match goal with |- (if ?c then _ else _) <> _ => destruct c end; [discriminate |].
    intros H.
    apply bind_Err in H as [H | (tx & _ & H)].
    { apply fromTxData_Err in H as [[m H] | H]; discriminate. }
    apply bind_Err in H as [H | (sender & _ & H)].
    { apply getSenderAddress_Err in H. discriminate. }
    apply bind_Err in H as [H | (ab & _ & H)].
    { apply toBuffer_Err in H as [m H]. discriminate. }
    apply bind_Err in H as [H | (nb & _ & H)]; discriminate.
  - split; [reflexivity |]. split; [exact genRawTransaction_validConfig |].
    split; [reflexivity | exact genRawDeployment_validDeployment].
Qed.

Lemma falsy_fields_rejected_witness :
  genRawTransaction
    {| tc_gasLimit := Some (Num (JsInt 0));
       tc_gasPrice := Some (Num (JsInt 1000000000));
       tc_to := Some "0x742d35Cc6634C0532925a3b844Bc454e4438f44e";
       tc_data := Some "0x1234";
       tc_value := Some (Num (JsInt 0));
       tc_r := None |}
  = Err (MissingField
           "All parameters (gasLimit, gasPrice, to, data, value) are required")
  /\ genRawTransaction validConfig
     <> Err (MissingField
               "All parameters (gasLimit, gasPrice, to, data, value) are required").
Proof.
  destruct falsy_fields_rejected as (Hzero & _ & Hvalue & _).
  split.
  - apply (Hzero _ false 0%Z). left. reflexivity.
  - apply (Hvalue validConfig false 0%Z); reflexivity.
Defined.

(** C10 (empty override r). When the override [r] is the empty string, a
    builder behaves as if no override were given: no "Invalid hex value for
    customR" error is raised, and a returned result carries the hard-coded
    [r], not the empty string. *)
Theorem empty_r_falls_back :
  (forall config,
      tc_r config = Some "" ->
      genRawTransaction config = genRawTransaction (withTransactionR config None)
      /\ (forall msg, genRawTransaction config <> Err (InvalidSignatureComponent msg))
      /\ (forall res, genRawTransaction config = Ok res ->
                      tr_r res = HARDCODED_R /\ tr_r res <> ""))
  /\ (forall config,
         dc_r config = Some "" ->
         genRawDeployment config = genRawDeployment (withDeploymentR config None)
         /\ (forall msg, genRawDeployment config <> Err (InvalidSignatureComponent msg))
         /\ (forall res, genRawDeployment config = Ok res ->
                         dr_r res = HARDCODED_R /\ dr_r res <> "")).
Proof.
  split.
  - intros config Hr.
    assert (E : genRawTransaction config = genRawTransaction (withTransactionR config None)).
    { unfold genRawTransaction, withTransactionR.
      cbn [tc_gasLimit tc_gasPrice tc_to tc_data tc_value tc_r]. now rewrite Hr. }
    split; [exact E |]. split.
    + intros msg. unfold genRawTransaction. rewrite Hr.
      destruct (tc_gasLimit config) as [gl |]; [| discriminate].
      destruct (tc_gasPrice config) as [gp |]; [| discriminate].
      destruct (tc_to config) as [to |]; [| discriminate].
      destruct (tc_data config) as [data |]; [| discriminate].
      destruct (tc_value config) as [v |]; [| discriminate].
      match goal with |- (if ?c then _ else _) <> _ => destruct c end; [discriminate |].
      destruct (negb (isValidChecksumAddress to)); [discriminate |].
      cbn [truthy_opt truthy_string andb].
      match goal with |- (if ?c then _ else _) <> _ => destruct c end; [discriminate |].
      intros H.
      apply bind_Err in H as [H | (tx & _ & H)].
      { apply fromTxData_Err in H as [[m H] | H]; discriminate. }
      apply bind_Err in H as [H | (sender & _ & H)]; [| discriminate].
      apply getSenderAddress_Err in H. discriminate.
    + intros res H.
      apply genRawTransaction_Ok in H as (? & ? & ? & ? & ? & ? & ? & H).
      destruct H as (_ & _ & _ & _ & _ & _ & _ & _ & _ & _ & _ & _ & _ & ->).
      cbn [tr_r]. rewrite Hr. split; [reflexivity | discriminate].
  - intros config Hr.
    assert (E : genRawDeployment config = genRawDeployment (withDeploymentR config None)).
    { unfold genRawDeployment, withDeploymentR.
      cbn [dc_gasLimit dc_gasPrice dc_bytecode dc_value dc_r]. now rewrite Hr. }
    split; [exact E |]. split.
    + intros msg. unfold genRawDeployment. rewrite Hr.
      destruct (dc_gasLimit config) as [gl |]; [| discriminate].
      destruct (dc_gasPrice config) as [gp |]; [| discriminate].
      destruct (dc_bytecode config) as [data |]; [| discriminate].
      destruct (dc_value config) as [v |]; [| discriminate].
      match goal with |- (if ?c then _ else _) <> _ => destruct c end; [discriminate |].
      cbn [truthy_opt truthy_string andb].
      match goal with |- (if ?c then _ else _) <> _ => destruct c end; [discriminate |].
      intros H.
      apply bind_Err in H as [H | (tx & _ & H)].
      { apply fromTxData_Err in H as [[m H] | H]; discriminate. }
      apply bind_Err in H as [H | (sender & _ & H)].
      { apply getSenderAddress_Err in H. discriminate. }
      apply bind_Err in H as [H | (ab & _ & H)].
      { apply toBuffer_Err in H as [m H]. discriminate. }
      apply bind_Err in H as [H | (nb & _ & H)]; discriminate.
    + intros res H.
      apply genRawDeployment_Ok in H as (? & ? & ? & ? & ? & ? & ? & H).
      destruct H as (_ & _ & _ & _ & _ & _ & _ & _ & _ & _ & _ & _ & ->).
      cbn [dr_r]. rewrite Hr. split; [reflexivity | discriminate].
Qed.

Lemma empty_r_falls_back_witness :
  genRawTransaction (withTransactionR validConfig (Some "")) = Ok validResult
  /\ tr_r validResult = HARDCODED_R.
Proof.
  destruct (proj1 empty_r_falls_back (withTransactionR validConfig (Some "")) eq_refl)
    as (E & _ & Hres).
  assert (Hok : genRawTransaction (withTransactionR validConfig (Some "")) = Ok validResult).
  { rewrite E. exact genRawTransaction_validConfig. }
  split; [exact Hok | exact (proj1 (Hres validResult Hok))].
Defined.


(** * Further properties of the code *)

(** ** Valid hex strings *)

Lemma isHexDigit_alphabet (c : ascii) :
  isHexDigit c = existsb (Ascii.eqb c) hexAlphabet.
Proof. destruct c as [[] [] [] [] [] [] [] []]; reflexivity. Qed.

Lemma allHexDigits_alphabet (s : string) :
  allHexDigits s = true <-> Forall (fun c => In c hexAlphabet) (list_ascii_of_string s).
Proof.
  induction s as [| c s IH]; cbn [allHexDigits list_ascii_of_string].
  - split; [constructor | reflexivity].
  - rewrite andb_true_iff, IH, isHexDigit_alphabet, existsb_exists. split.
    + intros [(x & Hin & Heq) Hs]. apply Ascii.eqb_eq in Heq. subst x.
      now constructor.
    + intros H. inversion H; subst. split; [| assumption].
      exists c. split; [assumption | apply Ascii.eqb_refl].
Qed.

(** X1 (the strings isValidHex accepts). [isValidHex] accepts exactly the
    strings made of [0x] and any number of characters of the class
    [[0-9A-Fa-f]], none included: the prefix is required, in lower case, and
    the number of digits may be odd. *)
Theorem isValidHex_characterisation (value : string) :
  isValidHex value = true <->
  exists digits,
    value = ("0x" ++ digits)%string
    /\ Forall (fun c => In c hexAlphabet) (list_ascii_of_string digits).
Proof.
  split.
  - intros H. apply isValidHex_inv in H as (t & -> & Ht).
    exists t. split; [reflexivity | now apply allHexDigits_alphabet].
  - intros (t & -> & Ht). rewrite isValidHex_prefixed. now apply allHexDigits_alphabet.
Qed.

(** ** The input of the parser *)

Lemma isValidHex_toString_hex (serialized : bytes) :
  isValidHex (Buffer_toString_hex serialized) = false.
Proof.
  destruct serialized as [| b rest]; [reflexivity |].
  cbn [Buffer_toString_hex]. destruct b; reflexivity.
Qed.

(** X2 (the prefix is required). [recoverRawTransaction] requires the prefix
    [0x]: whatever it parses starts with it, and the hex dump of a serialized
    transaction without the prefix is rejected as an invalid hex value,
    whatever its bytes. *)
Theorem unprefixed_rejected :
  (forall rawTransaction res,
      recoverRawTransaction rawTransaction = Ok res ->
      exists digits, rawTransaction = ("0x" ++ digits)%string
                     /\ stripHexPrefix rawTransaction = digits)
  /\ (forall serialized : bytes,
         recoverRawTransaction (Buffer_toString_hex serialized)
         = Err (InvalidHex "Invalid hex value for rawTransaction")).
Proof.
  split.
  - intros rawTransaction res H. unfold recoverRawTransaction in H.
    destruct (isValidHex rawTransaction) eqn:E; [| discriminate].
    apply isValidHex_inv in E as (t & -> & _).
    exists t. split; reflexivity.
  - intros serialized. unfold recoverRawTransaction.
    now rewrite isValidHex_toString_hex.
Qed.

Lemma unprefixed_rejected_witness :
  exists digits,
    nickFactoryRawTx = ("0x" ++ digits)%string
    /\ stripHexPrefix nickFactoryRawTx = digits.
Proof.
  assert (Hres : recoverRawTransaction nickFactoryRawTx
                 = Ok {| rr_nonce := 0;
                         rr_gasPrice := 100000000000;
                         rr_gasLimit := 100000;
                         rr_to := None;
                         rr_value := 0;
                         rr_data := nickFactoryBytecode;
                         rr_v := Some "0x1b";
                         rr_r := Some (repeatedByte "22" 32);
                         rr_s := Some (repeatedByte "22" 32) |})
    by (vm_compute; reflexivity).
  exact (proj1 unprefixed_rejected nickFactoryRawTx _ Hres).
Defined.

Lemma Buffer_from_hex_odd (n : nat) :
  forall (s : string) (c : ascii),
    String.length s = (2 * n)%nat ->
    Buffer_from_hex (s ++ String c "") = Buffer_from_hex s.
Proof.
  induction n as [| n IH]; intros s c Hlen.
  - destruct s; [reflexivity | discriminate].
  - destruct s as [| a [| b s]]; cbn [String.length] in Hlen; try lia.
    cbn [String.append Buffer_from_hex].
    destruct (hexDigitValue a); [| reflexivity].
    destruct (hexDigitValue b); [| reflexivity].
    f_equal. apply IH. lia.
Qed.

(** X3 (odd last digit). An odd last digit is ignored: a raw transaction
    written with an even number of characters parses the same when one more
    hex digit follows it. *)
Theorem odd_digit_dropped (rawTransaction : string) (c : ascii) :
  isValidHex rawTransaction = true ->
  Nat.even (String.length rawTransaction) = true ->
  isHexDigit c = true ->
  recoverRawTransaction (rawTransaction ++ String c "")
  = recoverRawTransaction rawTransaction.
Proof.
  intros Hhex Heven Hc.
  apply isValidHex_inv in Hhex as (t & -> & Ht).
  cbn [String.append String.length Nat.even] in Heven.
  apply even_length in Heven as [n Hn].
  unfold recoverRawTransaction.
  change (("0x" ++ t) ++ String c "")%string with ("0x" ++ (t ++ String c ""))%string.
  rewrite !isValidHex_prefixed, !stripHexPrefix_prefixed, allHexDigits_app, Ht.
  cbn [allHexDigits andb]. rewrite Hc. cbn [andb negb].
  now rewrite (Buffer_from_hex_odd n).
Qed.

Lemma odd_digit_dropped_witness :
  recoverRawTransaction (nickFactoryRawTx ++ "f") = recoverRawTransaction nickFactoryRawTx.
Proof.
  apply (odd_digit_dropped nickFactoryRawTx "f"); reflexivity.
Defined.

Lemma hexDigitValue_toLowerCase (c : ascii) :
  hexDigitValue (toLowerCase_char c) = hexDigitValue c.
Proof. destruct c as [[] [] [] [] [] [] [] []]; reflexivity. Qed.

Lemma allHexDigits_toLowerCase (s : string) :
  allHexDigits (toLowerCase s) = allHexDigits s.
Proof.
  induction s as [| c s IH]; [reflexivity |].
  cbn [toLowerCase allHexDigits]. unfold isHexDigit.
  now rewrite hexDigitValue_toLowerCase, IH.
Qed.

Lemma Buffer_from_hex_toLowerCase (n : nat) :
  forall s, (String.length s <= n)%nat ->
            Buffer_from_hex (toLowerCase s) = Buffer_from_hex s.
Proof.
  induction n as [| n IH]; intros s Hlen.
  - destruct s; [reflexivity | cbn in Hlen; lia].
  - destruct s as [| a [| b s]]; try reflexivity.
    cbn [toLowerCase Buffer_from_hex]. rewrite !hexDigitValue_toLowerCase.
    destruct (hexDigitValue a); [| reflexivity].
    destruct (hexDigitValue b); [| reflexivity].
    f_equal. apply IH. cbn [String.length] in Hlen. lia.
Qed.

(** X4 (case of the digits). The parser does not look at the case of the
    digits: a raw transaction and the same text with its digits in lower case
    have the same outcome. *)
Theorem recover_case_insensitive (digits : string) :
  recoverRawTransaction ("0x" ++ toLowerCase digits)
  = recoverRawTransaction ("0x" ++ digits).
Proof.
  unfold recoverRawTransaction.
  rewrite !isValidHex_prefixed, !stripHexPrefix_prefixed, allHexDigits_toLowerCase.
  now rewrite (Buffer_from_hex_toLowerCase (String.length digits)).
Qed.

(** ** The notation of the parser *)

Lemma allLowerHex_app (s t : string) :
  allLowerHex (s ++ t) = allLowerHex s && allLowerHex t.
Proof.
  induction s as [| c s IH]; [reflexivity |].
  cbn [String.append allLowerHex]. now rewrite IH, andb_assoc.
Qed.

Lemma allLowerHex_toString_hex (bs : bytes) :
  allLowerHex (Buffer_toString_hex bs) = true.
Proof.
  induction bs as [| b bs IH]; [reflexivity |].
  cbn [Buffer_toString_hex]. rewrite allLowerHex_app, IH, andb_true_r.
  destruct b; reflexivity.
Qed.

Lemma length_toString_hex (bs : bytes) :
  String.length (Buffer_toString_hex bs) = (2 * List.length bs)%nat.
Proof.
  induction bs as [| b bs IH]; [reflexivity |].
  cbn [Buffer_toString_hex List.length]. unfold byteToHex.
  cbn [String.append String.length]. lia.
Qed.

Lemma canonicalData_hexOfBytes (bs : bytes) : canonicalData (hexOfBytes bs) = true.
Proof.
  unfold hexOfBytes. cbn [String.append canonicalData].
  rewrite allLowerHex_toString_hex, length_toString_hex. cbn [andb].
  rewrite Nat.even_mul. reflexivity.
Qed.

Lemma isLowerHexDigit_hexDigit (d : N) : d < 16 -> isLowerHexDigit (hexDigit d) = true.
Proof.
  intros H. unfold isLowerHexDigit. rewrite (hexDigitValue_hexDigit d H).
  apply Ascii.eqb_refl.
Qed.

Lemma allLowerHex_hexDigits (ds : list N) :
  Forall (fun d => d < 16) ds -> allLowerHex (string_of_chars (map hexDigit ds)) = true.
Proof.
  induction 1 as [| d ds Hd _ IH]; [reflexivity |].
  cbn [map string_of_chars allLowerHex]. now rewrite (isLowerHexDigit_hexDigit d Hd), IH.
Qed.

Lemma sixteen_ge_2 : 2 <= 16.
Proof. discriminate. Qed.

(** The text printed for a bigint: [0x0], or digits in lower case starting
    with a digit that is not zero. *)
Lemma canonicalNumber_toString16 (n : N) :
  n <> 0 -> canonicalNumber ("0x" ++ BigInt_toString16 n) = true.
Proof.
  intros Hn. unfold BigInt_toString16.
  destruct (N.eqb_spec n 0) as [E | _]; [contradiction |].
  pose proof (digits_lt 16 sixteen_ge_2 n) as Hlt.
  pose proof (digits_hd 16 sixteen_ge_2 n) as Hhd.
  pose proof (digits_nonzero 16 sixteen_ge_2 n Hn) as Hne.
  destruct (digits 16 n) as [| d ds]; [contradiction |].
  cbn [hd] in Hhd. inversion Hlt as [| ? ? Hd Hds]; subst.
  cbn [map string_of_chars String.append canonicalNumber allLowerHex].
  rewrite (isLowerHexDigit_hexDigit d Hd), (allLowerHex_hexDigits ds Hds).
  cbn [andb]. rewrite andb_true_r.
  destruct (Ascii.eqb_spec (hexDigit d) "0") as [E | _]; [| reflexivity].
  exfalso. apply Hhd.
  pose proof (hexDigitValue_hexDigit d Hd) as Hv. rewrite E in Hv.
  now inversion Hv.
Qed.

Lemma printed_number (n : N) (x : string) :
  ("0x" ++ BigInt_toString16 n)%string = x -> x = "0x0" \/ canonicalNumber x = true.
Proof.
  intros <-. destruct (N.eq_dec n 0) as [-> | Hn]; [now left | right].
  now apply canonicalNumber_toString16.
Qed.

Lemma fromSerializedTx_Ok (serialized : bytes) (tx : Transaction) :
  Transaction_fromSerializedTx serialized = Ok tx ->
  forall a, tx_to tx = Some a -> List.length a = 20%nat.
Proof.
  unfold Transaction_fromSerializedTx. intros H.
  apply bind_Ok in H as (decoded & _ & H).
  destruct decoded as [b | items]; [discriminate |].
  apply (guard_Ok _ _ _ (fun _ => _)) in H as [_ H].
  apply bind_Ok in H as (values & _ & H). cbv zeta in H.
  unfold newTransaction in H.
  destruct (validateTransaction_Ok _ _ H) as [-> Hto]. exact Hto.
Qed.

(** X5 (notation of the parser). What the parser returns is always in one
    notation: [data] is [0x] and an even number of lower-case digits; [to],
    when present, is such a text of 42 characters (the 20 bytes of an
    address), equal to its own lower-case form; [v], [r] and [s], when
    present, are [0x0] or [0x] and lower-case digits without leading zero. *)
Theorem recovered_format (rawTransaction : string) (res : RecoveredTransactionResult) :
  recoverRawTransaction rawTransaction = Ok res ->
  canonicalData (rr_data res) = true
  /\ (forall to, rr_to res = Some to ->
                 canonicalData to = true /\ String.length to = 42%nat
                 /\ toLowerCase to = to)
  /\ (forall x, rr_v res = Some x \/ rr_r res = Some x \/ rr_s res = Some x ->
                x = "0x0" \/ canonicalNumber x = true).
Proof.
  unfold recoverRawTransaction. intros H.
  destruct (isValidHex rawTransaction); [| discriminate]. cbn [negb] in H.
  apply bind_Ok in H as (tx & Htx & H). inversion H; subst res. clear H.
  cbn [rr_data rr_to rr_v rr_r rr_s].
  split; [apply canonicalData_hexOfBytes |]. split.
  - intros to Hto.
    destruct (tx_to tx) as [a |] eqn:Ea; [| discriminate].
    cbn [option_map] in Hto. inversion Hto; subst to.
    pose proof (fromSerializedTx_Ok _ _ Htx a Ea) as Hlen.
    split; [apply canonicalData_hexOfBytes |].
    unfold hexOfBytes. cbn [String.append String.length toLowerCase].
    rewrite length_toString_hex, Hlen.
    split; [reflexivity |].
    change (toLowerCase_char "0") with "0"%char.
    change (toLowerCase_char "x") with "x"%char.
    do 2 f_equal.
    now destruct (allLowerHex_spec _ (allLowerHex_toString_hex a)) as (_ & E & _).
  - intros x [Hx | [Hx | Hx]].
    + destruct (tx_v tx) as [n |]; [| discriminate]. cbn [option_map] in Hx.
      inversion Hx as [E]. now apply (printed_number n).
    + destruct (tx_r tx) as [n |]; [| discriminate]. cbn [option_map] in Hx.
      inversion Hx as [E]. now apply (printed_number n).
    + destruct (tx_s tx) as [n |]; [| discriminate]. cbn [option_map] in Hx.
      inversion Hx as [E]. now apply (printed_number n).
Qed.

Lemma recovered_format_witness :
  canonicalData "0x1234" = true
  /\ String.length "0x742d35cc6634c0532925a3b844bc454e4438f44e" = 42%nat
  /\ ("0x1b" = "0x0" \/ canonicalNumber "0x1b" = true).
Proof.
  assert (Hres : recoverRawTransaction (tr_rawTx validResult)
                 = Ok {| rr_nonce := 0;
                         rr_gasPrice := 1000000000;
                         rr_gasLimit := 100000;
                         rr_to := Some "0x742d35cc6634c0532925a3b844bc454e4438f44e";
                         rr_value := 0;
                         rr_data := "0x1234";
                         rr_v := Some "0x1b";
                         rr_r := Some HARDCODED_R;
                         rr_s := Some HARDCODED_S |})
    by (vm_compute; reflexivity).
  destruct (recovered_format _ _ Hres) as (Hdata & Hto & Hsig).
  split; [exact Hdata |].
  split; [exact (proj1 (proj2 (Hto _ eq_refl))) |].
  exact (Hsig "0x1b" (or_introl eq_refl)).
Defined.

(** ** Building and parsing a deployment *)

Lemma built_sized (gasPrice gasLimit value : NumberOrString)
      (to : option string) (data : string) (r : option string) (tx : Transaction)
      (sender : bytes) :
  isValidHex (toHexField gasPrice) = true ->
  isValidHex (toHexField gasLimit) = true ->
  isValidHex (toHexField value) = true ->
  isValidHex data = true ->
  N.of_nat (String.length data) < 2 ^ 53 ->
  fieldValue gasPrice < 2 ^ 256 -> fieldValue gasLimit < 2 ^ 256 ->
  fieldValue value < 2 ^ 256 ->
  Transaction_fromTxData (transactionParams gasPrice gasLimit to value data r) = Ok tx ->
  getSenderAddress tx = Ok sender ->
  Forall sized (raw tx) /\ sized (flat_map encodeBytes (raw tx)).
Proof.
  intros Hgp Hgl Hv Hdata Hlen Bgp Bgl Bv Htx Hsender.
  destruct (built_fields _ _ _ _ _ _ _ Hgp Hgl Hv Htx)
    as (Hvalid & Fn & Fgp & Fgl & Fv & Fto & Fd & Fvv & Fr & Fs).
  destruct (getSenderAddress_Ok _ _ Hsender)
    as (v' & r' & s' & Ev1 & Er1 & Es1 & _ & Hr0 & Hr256 & Hs0 & Hs256).
  apply raw_sized; try assumption.
  - rewrite Fn. reflexivity.
  - rewrite Fgp. now apply encodedValue_lt.
  - rewrite Fgl. now apply encodedValue_lt.
  - rewrite Fv. now apply encodedValue_lt.
  - intros x Ex. rewrite Fvv in Ex. inversion Ex. reflexivity.
  - intros x Ex. rewrite Er1 in Ex. now inversion Ex; subst.
  - intros x Ex. rewrite Es1 in Ex. now inversion Ex; subst.
  - rewrite Fd. pose proof (len_bytesOfHex data Hdata). lia.
Qed.

Lemma fromSerializedTx_built (gasPrice gasLimit value : NumberOrString)
      (to : option string) (data : string) (r : option string) (tx : Transaction)
      (sender : bytes) :
  isValidHex (toHexField gasPrice) = true ->
  isValidHex (toHexField gasLimit) = true ->
  isValidHex (toHexField value) = true ->
  isValidHex data = true ->
  N.of_nat (String.length data) < 2 ^ 53 ->
  fieldValue gasPrice < 2 ^ 256 -> fieldValue gasLimit < 2 ^ 256 ->
  fieldValue value < 2 ^ 256 ->
  Transaction_fromTxData (transactionParams gasPrice gasLimit to value data r) = Ok tx ->
  getSenderAddress tx = Ok sender ->
  Transaction_fromSerializedTx (serialize tx) = Ok tx.
Proof.
  intros Hgp Hgl Hv Hdata Hlen Bgp Bgl Bv Htx Hsender.
  destruct (built_sized _ _ _ _ _ _ _ _ Hgp Hgl Hv Hdata Hlen Bgp Bgl Bv Htx Hsender)
    as [Hs1 Hs2].
  destruct (built_fields _ _ _ _ _ _ _ Hgp Hgl Hv Htx) as (Hvalid & _).
  destruct (getSenderAddress_Ok _ _ Hsender)
    as (v' & r' & s' & Ev1 & Er1 & Es1 & Hvv & Hr0 & _ & Hs0 & _).
  apply fromSerializedTx_serialize; try assumption; try congruence.
  rewrite Ev1. destruct Hvv; subst v'; discriminate.
Qed.

(** X6 (round trip of a deployment). Parsing the raw transaction that
    [genRawDeployment] built recovers nonce 0, no recipient, and exactly the
    gasPrice, gasLimit, value, bytecode, v, r and s it was built from, when
    the three numbers do not exceed [2^53], the bytecode is written with an
    even number of lower-case digits and [r] in lower case without leading
    zero. *)
Theorem deployment_roundtrip (config : DeploymentConfig) (res : DeploymentResult)
        (gasLimit gasPrice value : NumberOrString) (bytecode : string) :
  dc_gasLimit config = Some gasLimit -> dc_gasPrice config = Some gasPrice ->
  dc_bytecode config = Some bytecode -> dc_value config = Some value ->
  genRawDeployment config = Ok res ->
  N.of_nat (String.length bytecode) < 2 ^ 53 ->
  fieldValue gasPrice <= 2 ^ 53 -> fieldValue gasLimit <= 2 ^ 53 ->
  fieldValue value <= 2 ^ 53 ->
  canonicalData bytecode = true -> canonicalNumber (dr_r res) = true ->
  recoverRawTransaction (dr_rawTx res) =
  Ok {| rr_nonce := 0;
        rr_gasPrice := fieldValue gasPrice;
        rr_gasLimit := fieldValue gasLimit;
        rr_to := None;
        rr_value := fieldValue value;
        rr_data := bytecode;
        rr_v := Some (dr_v res);
        rr_r := Some (dr_r res);
        rr_s := Some (dr_s res) |}.
Proof.
  intros Egl Egp Edata Ev H Hlen Bgp Bgl Bv Cd Cr.
  assert (P : 2 ^ 53 < 2 ^ 256) by reflexivity.
  apply genRawDeployment_Ok in H
    as (gl & gp & data' & v & tx & sender & ab & Egl' & Egp' & Edata' & Ev'
        & Hgp & Hgl & Hv & Hdata & Hrhex & Htx & Hsender & _ & ->).
  rewrite Egl in Egl'. rewrite Egp in Egp'. rewrite Edata in Edata'. rewrite Ev in Ev'.
  inversion Egl'; inversion Egp'; inversion Edata'; inversion Ev'.
  subst gl gp data' v. clear Egl' Egp' Edata' Ev'.
  cbn [dr_rawTx dr_v dr_r dr_s] in *.
  rewrite recoverRawTransaction_hex.
  rewrite (fromSerializedTx_built gasPrice gasLimit value None bytecode (dc_r config)
             tx sender) by (assumption || lia).
  cbn [bind].
  destruct (recovered_signature _ _ _ _ _ _ _ _ Hgp Hgl Hv Hrhex Htx Hsender)
    as (Sv & Sr & Ss).
  destruct (built_fields _ _ _ _ _ _ _ Hgp Hgl Hv Htx)
    as (_ & Fn & Fgp & Fgl & Fv & Fto & Fd & _).
  unfold recovered in *. cbn [rr_v rr_r rr_s] in Sv, Sr, Ss.
  rewrite Sv, Sr, Ss, Fn, Fgp, Fgl, Fv, Fto, Fd.
  cbn [nonEmpty option_map].
  rewrite !encodedValue_exact by assumption.
  rewrite !Number_of_bigint_exact by (assumption || discriminate).
  now rewrite canonicalData_roundtrip, canonicalNumber_roundtrip.
Qed.

Lemma deployment_roundtrip_witness :
  recoverRawTransaction (dr_rawTx validDeploymentResult) =
  Ok {| rr_nonce := 0;
        rr_gasPrice := 1000000000;
        rr_gasLimit := 100000;
        rr_to := None;
        rr_value := 0;
        rr_data := "0x1234";
        rr_v := Some "0x1b";
        rr_r := Some HARDCODED_R;
        rr_s := Some HARDCODED_S |}.
Proof.
  apply (deployment_roundtrip validDeployment validDeploymentResult
           (Num (JsInt 100000)) (Num (JsInt 1000000000)) (Num (JsInt 0)) "0x1234"
           eq_refl eq_refl eq_refl eq_refl genRawDeployment_validDeployment);
    first [reflexivity | vm_compute; discriminate].
Defined.

(** ** The builders depend on what the fields denote *)

Lemma toBuffer_valid (s : string) : isValidHex s = true -> toBuffer s = Ok (bytesOfHex s).
Proof. intros H. unfold toBuffer. now rewrite H. Qed.

Lemma bytesOfHex_field (x : NumberOrString) :
  isValidHex (toHexField x) = true ->
  bufferToBigInt (bytesOfHex (toHexField x)) = encodedValue x.
Proof.
  intros H. destruct (toBuffer_field x H) as (b & E & V).
  apply toBuffer_Ok in E as [_ ->]. exact V.
Qed.

Lemma fromTxData_valid (p : TxParams) :
  isValidHex (p_nonce p) = true -> isValidHex (p_gasPrice p) = true ->
  isValidHex (p_gasLimit p) = true ->
  match p_to p with Some a => isValidHex a | None => true end = true ->
  isValidHex (p_value p) = true -> isValidHex (p_data p) = true ->
  isValidHex (p_v p) = true -> isValidHex (p_r p) = true ->
  isValidHex (p_s p) = true ->
  Transaction_fromTxData p = validateTransaction (transactionOfParams p).
Proof.
  intros Hn Hgp Hgl Hto Hv Hd Hvv Hr Hs. unfold Transaction_fromTxData.
  rewrite (toBuffer_valid _ Hn), (toBuffer_valid _ Hgp), (toBuffer_valid _ Hgl).
  cbn [bind].
  unfold transactionOfParams, newTransaction.
  destruct (p_to p) as [a |].
  - rewrite (toBuffer_valid _ Hto), (toBuffer_valid _ Hv), (toBuffer_valid _ Hd),
      (toBuffer_valid _ Hvv), (toBuffer_valid _ Hr), (toBuffer_valid _ Hs).
    reflexivity.
  - rewrite (toBuffer_valid _ Hv), (toBuffer_valid _ Hd),
      (toBuffer_valid _ Hvv), (toBuffer_valid _ Hr), (toBuffer_valid _ Hs).
    reflexivity.
Qed.

Lemma truthy_opt_Some {A : Type} (t : A -> bool) (x : option A) :
  truthy_opt t x = true -> exists a, x = Some a /\ t a = true.
Proof. destruct x as [a |]; [intros H; now exists a | discriminate]. Qed.

Lemma isValidChecksumAddress_hex (to : string) :
  isValidChecksumAddress to = true -> isValidHex to = true.
Proof.
  unfold isValidChecksumAddress, isValidAddress. intros H.
  apply andb_prop in H as [H _]. now apply andb_prop in H as [H _].
Qed.

(** The transaction object a builder makes once its checks have passed. *)
Lemma builtTransaction (gasPrice gasLimit value : NumberOrString) (to : option string)
      (data : string) (r : option string) :
  isValidHex (toHexField gasPrice) = true ->
  isValidHex (toHexField gasLimit) = true ->
  isValidHex (toHexField value) = true ->
  isValidHex data = true ->
  match to with Some a => isValidHex a | None => true end = true ->
  invalidOverride r = false ->
  Transaction_fromTxData (transactionParams gasPrice gasLimit to value data r)
  = validateTransaction
      {| tx_nonce := 0;
         tx_gasPrice := encodedValue gasPrice;
         tx_gasLimit := encodedValue gasLimit;
         tx_to := nonEmpty (match to with Some a => bytesOfHex a | None => [] end);
         tx_value := encodedValue value;
         tx_data := bytesOfHex data;
         tx_v := Some 27;
         tx_r := option_map bufferToBigInt
                   (nonEmpty (bytesOfHex (orDefault r HARDCODED_R)));
         tx_s := Some 0x1212121212121212121212121212121212121212121212121212121212121212 |}.
Proof.
  intros Hgp Hgl Hv Hd Hto Hr.
  rewrite fromTxData_valid;
    try assumption; try reflexivity;
    [| now apply orDefault_valid].
  unfold transactionOfParams, transactionParams.
  cbn [p_nonce p_gasPrice p_gasLimit p_to p_value p_data p_v p_r p_s].
  rewrite !bytesOfHex_field by assumption.
  reflexivity.
Qed.

Lemma genRawTransaction_checked (config : TransactionConfig) :
  transactionEarlyChecks config = true -> transactionHexChecks config = true ->
  exists gasLimit gasPrice to data value,
    tc_gasLimit config = Some gasLimit /\ tc_gasPrice config = Some gasPrice
    /\ tc_to config = Some to /\ tc_data config = Some data
    /\ tc_value config = Some value
    /\ isValidHex (toHexField gasPrice) = true
    /\ isValidHex (toHexField gasLimit) = true
    /\ isValidHex (toHexField value) = true
    /\ isValidHex data = true
    /\ isValidChecksumAddress to = true
    /\ invalidOverride (tc_r config) = false
    /\ genRawTransaction config =
       (tx <- Transaction_fromTxData
                (transactionParams gasPrice gasLimit (Some to) value data (tc_r config)) ;;
        sender <- getSenderAddress tx ;;
        Ok {| tr_rawTx := hexOfBytes (serialize tx);
              tr_senderAddress := checksummed (hexOfBytes sender);
              tr_upfrontCost := Number_of_bigint (getUpfrontCost tx);
              tr_r := orDefault (tc_r config) HARDCODED_R;
              tr_s := HARDCODED_S; tr_v := HARDCODED_V |}).
Proof.
  unfold transactionEarlyChecks, transactionHexChecks, genRawTransaction.
  intros He Hh.
  repeat (apply andb_prop in He as [He ?]). repeat (apply andb_prop in Hh as [Hh ?]).
  destruct (tc_gasLimit config) as [gl |]; [| discriminate].
  destruct (tc_gasPrice config) as [gp |]; [| discriminate].
  destruct (tc_to config) as [to |]; [| discriminate].
  destruct (tc_data config) as [data |]; [| discriminate].
  destruct (tc_value config) as [v |]; [| discriminate].
  cbn [truthy_opt] in *.
  exists gl, gp, to, data, v.
  repeat (split; [first [reflexivity | assumption | now apply negb_true_iff] |]).
  match goal with H : truthy gl = true |- _ => rewrite H end.
  match goal with H : truthy gp = true |- _ => rewrite H end.
  match goal with H : truthy_string to = true |- _ => rewrite H end.
  match goal with H : truthy_string data = true |- _ => rewrite H end.
  match goal with H : isValidChecksumAddress to = true |- _ => rewrite H end.
  match goal with H : negb (invalidOverride _) = true |- _ =>
    apply negb_true_iff in H; unfold invalidOverride in H; rewrite H end.
  match goal with H : isValidHex (toHexField gp) = true |- _ => rewrite H end.
  match goal with H : isValidHex (toHexField gl) = true |- _ => rewrite H end.
  match goal with H : isValidHex (toHexField v) = true |- _ => rewrite H end.
  match goal with H : isValidHex data = true |- _ => rewrite H end.
  reflexivity.
Qed.

Lemma genRawDeployment_checked (config : DeploymentConfig) :
  deploymentEarlyChecks config = true -> deploymentHexChecks config = true ->
  exists gasLimit gasPrice bytecode value,
    dc_gasLimit config = Some gasLimit /\ dc_gasPrice config = Some gasPrice
    /\ dc_bytecode config = Some bytecode /\ dc_value config = Some value
    /\ isValidHex (toHexField gasPrice) = true
    /\ isValidHex (toHexField gasLimit) = true
    /\ isValidHex (toHexField value) = true
    /\ isValidHex bytecode = true
    /\ invalidOverride (dc_r config) = false
    /\ genRawDeployment config =
       (tx <- Transaction_fromTxData
                (transactionParams gasPrice gasLimit None value bytecode (dc_r config)) ;;
        sender <- getSenderAddress tx ;;
        addressBuffer <- toBuffer (checksummed (hexOfBytes sender)) ;;
        nonceBuffer <- toBuffer "0x00" ;;
        Ok {| dr_rawTx := hexOfBytes (serialize tx);
              dr_deployerAddress := checksummed (hexOfBytes sender);
              dr_contractAddress :=
                checksummed (hexOfBytes (generateAddress addressBuffer nonceBuffer));
              dr_upfrontCost := Number_of_bigint (getUpfrontCost tx);
              dr_r := orDefault (dc_r config) HARDCODED_R;
              dr_s := HARDCODED_S; dr_v := HARDCODED_V |}).
Proof.
  unfold deploymentEarlyChecks, deploymentHexChecks, genRawDeployment.
  intros He Hh.
  repeat (apply andb_prop in He as [He ?]). repeat (apply andb_prop in Hh as [Hh ?]).
  destruct (dc_gasLimit config) as [gl |]; [| discriminate].
  destruct (dc_gasPrice config) as [gp |]; [| discriminate].
  destruct (dc_bytecode config) as [data |]; [| discriminate].
  destruct (dc_value config) as [v |]; [| discriminate].
  cbn [truthy_opt] in *.
  exists gl, gp, data, v.
  repeat (split; [first [reflexivity | assumption | now apply negb_true_iff] |]).
  match goal with H : truthy gl = true |- _ => rewrite H end.
  match goal with H : truthy gp = true |- _ => rewrite H end.
  match goal with H : truthy_string data = true |- _ => rewrite H end.
  match goal with H : negb (invalidOverride _) = true |- _ =>
    apply negb_true_iff in H; unfold invalidOverride in H; rewrite H end.
  match goal with H : isValidHex (toHexField gp) = true |- _ => rewrite H end.
  match goal with H : isValidHex (toHexField gl) = true |- _ => rewrite H end.
  match goal with H : isValidHex (toHexField v) = true |- _ => rewrite H end.
  match goal with H : isValidHex data = true |- _ => rewrite H end.
  reflexivity.
Qed.

Lemma option_map_Some {A B : Type} (f : A -> B) (a b : A) :
  option_map f (Some a) = option_map f (Some b) -> f a = f b.
Proof. intros H. now inversion H. Qed.

(** X7 (notation of the fields). The outcome of a builder depends on the
    numeric fields through the integers encoded for them and on the payload
    through its bytes: two configs that pass the checks of the source, with
    the same override [r], the same recipient, the same encoded integers (for
    a number or a hex string, with or without leading zeros, in either case)
    and payloads of the same bytes have the same outcome, result or error.
    The encoded integer of a field that passes the hex validation is the one
    that its hex text denotes; it is the value of the field for a hex string
    and for a number up to [2^53]. *)
Theorem notation_independent :
  (forall c1 c2 : TransactionConfig,
      transactionEarlyChecks c1 = true -> transactionHexChecks c1 = true ->
      transactionEarlyChecks c2 = true -> transactionHexChecks c2 = true ->
      sameTransaction c1 c2 -> tc_r c1 = tc_r c2 ->
      genRawTransaction c1 = genRawTransaction c2)
  /\ (forall c1 c2 : DeploymentConfig,
         deploymentEarlyChecks c1 = true -> deploymentHexChecks c1 = true ->
         deploymentEarlyChecks c2 = true -> deploymentHexChecks c2 = true ->
         sameDeployment c1 c2 -> dc_r c1 = dc_r c2 ->
         genRawDeployment c1 = genRawDeployment c2)
  /\ (forall x : NumberOrString,
         isValidHex (toHexField x) = true ->
         hexStringValue (stripHexPrefix (toHexField x)) = encodedValue x)
  /\ (forall x : NumberOrString,
         exactlyEncoded x = true -> encodedValue x = fieldValue x).
Proof.
  split; [| split; [| split; [exact encodedValue_text | exact exactlyEncoded_value]]].
  - intros c1 c2 He1 Hh1 He2 Hh2 (Sgl & Sgp & Sv & Sto & Sd) Sr.
    destruct (genRawTransaction_checked c1 He1 Hh1)
      as (gl1 & gp1 & to1 & d1 & v1 & Egl1 & Egp1 & Eto1 & Ed1 & Ev1
          & Hgp1 & Hgl1 & Hv1 & Hd1 & Hto1 & Hr1 & ->).
    destruct (genRawTransaction_checked c2 He2 Hh2)
      as (gl2 & gp2 & to2 & d2 & v2 & Egl2 & Egp2 & Eto2 & Ed2 & Ev2
          & Hgp2 & Hgl2 & Hv2 & Hd2 & Hto2 & Hr2 & ->).
    rewrite Egl1, Egl2 in Sgl. rewrite Egp1, Egp2 in Sgp. rewrite Ev1, Ev2 in Sv.
    rewrite Eto1, Eto2 in Sto. rewrite Ed1, Ed2 in Sd.
    apply option_map_Some in Sgl, Sgp, Sv, Sd. inversion Sto; subst to2.
    rewrite !builtTransaction
      by (assumption || now apply isValidChecksumAddress_hex).
    now rewrite Sgl, Sgp, Sv, Sd, Sr.
  - intros c1 c2 He1 Hh1 He2 Hh2 (Sgl & Sgp & Sv & Sd) Sr.
    destruct (genRawDeployment_checked c1 He1 Hh1)
      as (gl1 & gp1 & d1 & v1 & Egl1 & Egp1 & Ed1 & Ev1
          & Hgp1 & Hgl1 & Hv1 & Hd1 & Hr1 & ->).
    destruct (genRawDeployment_checked c2 He2 Hh2)
      as (gl2 & gp2 & d2 & v2 & Egl2 & Egp2 & Ed2 & Ev2
          & Hgp2 & Hgl2 & Hv2 & Hd2 & Hr2 & ->).
    rewrite Egl1, Egl2 in Sgl. rewrite Egp1, Egp2 in Sgp. rewrite Ev1, Ev2 in Sv.
    rewrite Ed1, Ed2 in Sd.
    apply option_map_Some in Sgl, Sgp, Sv, Sd.
    rewrite !builtTransaction by (assumption || reflexivity).
    now rewrite Sgl, Sgp, Sv, Sd, Sr.
Qed.

Lemma notation_independent_witness :
  genRawTransaction paddedConfig = genRawTransaction validConfig.
Proof.
  apply (proj1 notation_independent); try (vm_compute; reflexivity).
  repeat split; vm_compute; reflexivity.
Defined.

(** ** Spellings of a checksummed address *)

Lemma toLowerCase_char_idempotent (c : ascii) :
  toLowerCase_char (toLowerCase_char c) = toLowerCase_char c.
Proof. destruct c as [[] [] [] [] [] [] [] []]; reflexivity. Qed.

Lemma toLowerCase_toUpperCase_char (c : ascii) :
  toLowerCase_char (toUpperCase_char c) = toLowerCase_char c.
Proof. destruct c as [[] [] [] [] [] [] [] []]; reflexivity. Qed.

Lemma isHexDigit_toUpperCase (c : ascii) :
  isHexDigit (toUpperCase_char c) = isHexDigit c.
Proof. destruct c as [[] [] [] [] [] [] [] []]; reflexivity. Qed.

Lemma toLowerCase_idempotent (s : string) : toLowerCase (toLowerCase s) = toLowerCase s.
Proof.
  induction s as [| c s IH]; [reflexivity |].
  cbn [toLowerCase]. now rewrite toLowerCase_char_idempotent, IH.
Qed.

Lemma toLowerCase_prefixed (s : string) :
  toLowerCase ("0x" ++ s) = ("0x" ++ toLowerCase s)%string.
Proof. reflexivity. Qed.

Lemma length_toLowerCase (s : string) : String.length (toLowerCase s) = String.length s.
Proof.
  induction s as [| c s IH]; [reflexivity |].
  cbn [toLowerCase String.length]. now rewrite IH.
Qed.

Lemma string_of_chars_list (s : string) : string_of_chars (list_ascii_of_string s) = s.
Proof.
  induction s as [| c s IH]; [reflexivity |].
  cbn [list_ascii_of_string string_of_chars]. now rewrite IH.
Qed.

Lemma length_string_of_chars (l : list ascii) :
  String.length (string_of_chars l) = List.length l.
Proof.
  induction l as [| c l IH]; [reflexivity |].
  cbn [string_of_chars String.length List.length]. now rewrite IH.
Qed.

Lemma length_list_ascii (s : string) :
  List.length (list_ascii_of_string s) = String.length s.
Proof.
  induction s as [| c s IH]; [reflexivity |].
  cbn [list_ascii_of_string String.length List.length]. now rewrite IH.
Qed.

Lemma checksumCase_lower (address hash : list ascii) :
  toLowerCase (string_of_chars (checksumCase address hash))
  = toLowerCase (string_of_chars address).
Proof.
  revert hash. induction address as [| c address IH]; intros hash.
  - destruct hash; reflexivity.
  - destruct hash as [| h hash]; [reflexivity |].
    cbn [checksumCase string_of_chars toLowerCase]. rewrite IH. f_equal.
    destruct (hexDigitValue h) as [d |]; [| reflexivity].
    destruct (8 <=? d); [apply toLowerCase_toUpperCase_char | reflexivity].
Qed.

Lemma checksumCase_length (address hash : list ascii) :
  List.length (checksumCase address hash) = List.length address.
Proof.
  revert hash. induction address as [| c address IH]; intros hash.
  - destruct hash; reflexivity.
  - destruct hash as [| h hash]; [reflexivity |].
    cbn [checksumCase List.length]. now rewrite IH.
Qed.

Lemma checksumCase_digits (address hash : list ascii) :
  allHexDigits (string_of_chars (checksumCase address hash))
  = allHexDigits (string_of_chars address).
Proof.
  revert hash. induction address as [| c address IH]; intros hash.
  - destruct hash; reflexivity.
  - destruct hash as [| h hash]; [reflexivity |].
    cbn [checksumCase string_of_chars allHexDigits]. rewrite IH. f_equal.
    destruct (hexDigitValue h) as [d |]; [| reflexivity].
    destruct (8 <=? d); [apply isHexDigit_toUpperCase | reflexivity].
Qed.

(** The checksum form is a function of the lower-case digits. *)
Lemma toChecksumAddress_lower (a b : string) :
  toLowerCase (stripHexPrefix a) = toLowerCase (stripHexPrefix b) ->
  toChecksumAddress a = toChecksumAddress b.
Proof. intros H. unfold toChecksumAddress. now rewrite H. Qed.

Lemma toChecksumAddress_lowered (a : string) :
  toLowerCase (stripHexPrefix (toChecksumAddress a)) = toLowerCase (stripHexPrefix a).
Proof.
  unfold toChecksumAddress at 1. rewrite stripHexPrefix_prefixed, checksumCase_lower.
  now rewrite string_of_chars_list, toLowerCase_idempotent.
Qed.

Lemma toChecksumAddress_idempotent (a : string) :
  toChecksumAddress (toChecksumAddress a) = toChecksumAddress a.
Proof. apply toChecksumAddress_lower, toChecksumAddress_lowered. Qed.

Lemma isValidChecksumAddress_inv (a : string) :
  isValidChecksumAddress a = true ->
  exists t, a = ("0x" ++ t)%string /\ allHexDigits t = true
            /\ String.length t = 40%nat /\ toChecksumAddress a = a.
Proof.
  unfold isValidChecksumAddress, isValidAddress. intros H.
  apply andb_prop in H as [H Heq]. apply andb_prop in H as [Hhex Hlen].
  apply Nat.eqb_eq in Hlen. apply String.eqb_eq in Heq.
  apply isValidHex_inv in Hhex as (t & -> & Ht).
  exists t. cbn [String.append String.length] in Hlen.
  repeat split; try assumption. lia.
Qed.

(** At most one spelling of an address is checksummed. *)
Lemma checksum_unique (a b : string) :
  isValidChecksumAddress a = true -> isValidChecksumAddress b = true ->
  toLowerCase a = toLowerCase b -> a = b.
Proof.
  intros Ha Hb Hl.
  destruct (isValidChecksumAddress_inv a Ha) as (ta & Ea & _ & _ & Ca).
  destruct (isValidChecksumAddress_inv b Hb) as (tb & Eb & _ & _ & Cb).
  rewrite <- Ca, <- Cb. apply toChecksumAddress_lower.
  subst a b. rewrite !toLowerCase_prefixed in Hl.
  rewrite !stripHexPrefix_prefixed. now inversion Hl.
Qed.

(** ** The raw transaction determines what was built *)

Lemma hexOfBytes_inj (a b : bytes) : hexOfBytes a = hexOfBytes b -> a = b.
Proof.
  intros H. apply (f_equal (fun s => Buffer_from_hex (stripHexPrefix s))) in H.
  unfold hexOfBytes in H.
  now rewrite !stripHexPrefix_prefixed, !Buffer_from_toString_hex in H.
Qed.

Lemma inRange_Some (gasLimit gasPrice value : NumberOrString) (data : string) :
  inRange (Some gasLimit) (Some gasPrice) (Some value) (Some data) = true ->
  fieldValue gasLimit < 2 ^ 256 /\ fieldValue gasPrice < 2 ^ 256
  /\ fieldValue value < 2 ^ 256 /\ N.of_nat (String.length data) < 2 ^ 53.
Proof.
  unfold inRange. cbn [truthy_opt]. intros H.
  apply andb_prop in H as [H H4]. apply andb_prop in H as [H H3].
  apply andb_prop in H as [H1 H2].
  apply N.ltb_lt in H1, H2, H3, H4. now repeat split.
Qed.

(** The transaction object behind a result, with what it holds. *)
Lemma built_transaction (gasPrice gasLimit value : NumberOrString) (to : option string)
      (data : string) (r : option string) (tx : Transaction) (sender : bytes) :
  isValidHex (toHexField gasPrice) = true ->
  isValidHex (toHexField gasLimit) = true ->
  isValidHex (toHexField value) = true ->
  isValidHex data = true ->
  isValidHex (orDefault r HARDCODED_R) = true ->
  inRange (Some gasLimit) (Some gasPrice) (Some value) (Some data) = true ->
  Transaction_fromTxData (transactionParams gasPrice gasLimit to value data r) = Ok tx ->
  getSenderAddress tx = Ok sender ->
  Transaction_fromSerializedTx (serialize tx) = Ok tx
  /\ tx_gasPrice tx = encodedValue gasPrice
  /\ tx_gasLimit tx = encodedValue gasLimit
  /\ tx_value tx = encodedValue value
  /\ tx_to tx = nonEmpty (match to with Some a => bytesOfHex a | None => [] end)
  /\ tx_data tx = bytesOfHex data
  /\ tx_r tx = Some (signatureValue (orDefault r HARDCODED_R)).
Proof.
  intros Hgp Hgl Hv Hdata Hrhex Hrange Htx Hsender.
  destruct (inRange_Some _ _ _ _ Hrange) as (Bgl & Bgp & Bv & Hlen).
  split.
  { now apply (fromSerializedTx_built gasPrice gasLimit value to data r tx sender). }
  destruct (built_fields _ _ _ _ _ _ _ Hgp Hgl Hv Htx)
    as (_ & _ & Fgp & Fgl & Fv & Fto & Fd & _ & Fr & _).
  repeat (split; [assumption |]).
  destruct (getSenderAddress_Ok _ _ Hsender) as (v' & r' & s' & _ & Er1 & _).
  rewrite Fr in *.
  destruct (nonEmpty (bytesOfHex (orDefault r HARDCODED_R))) as [b |] eqn:E;
    [| discriminate].
  apply nonEmpty_Some in E. subst b. cbn [option_map]. f_equal.
  now apply bytesOfHex_value.
Qed.

(** X8 (the raw transaction determines the fields). The raw transaction
    determines what it was built from: two accepted configs (numbers of at
    most 256 bits) whose results have the same [rawTx] have the same encoded
    integers, the same recipient, the same payload bytes and the same value of
    [r]. The encoded integer of a field that passes the hex validation is the
    one that its hex text denotes; it is the value of the field for a hex
    string and for a number up to [2^53]. *)
Theorem rawTx_determines_fields :
  (forall c1 c2 res1 res2,
      genRawTransaction c1 = Ok res1 -> genRawTransaction c2 = Ok res2 ->
      transactionInRange c1 = true -> transactionInRange c2 = true ->
      tr_rawTx res1 = tr_rawTx res2 ->
      sameTransaction c1 c2
      /\ signatureValue (tr_r res1) = signatureValue (tr_r res2))
  /\ (forall c1 c2 res1 res2,
         genRawDeployment c1 = Ok res1 -> genRawDeployment c2 = Ok res2 ->
         deploymentInRange c1 = true -> deploymentInRange c2 = true ->
         dr_rawTx res1 = dr_rawTx res2 ->
         sameDeployment c1 c2
         /\ signatureValue (dr_r res1) = signatureValue (dr_r res2))
  /\ (forall x : NumberOrString,
         isValidHex (toHexField x) = true ->
         hexStringValue (stripHexPrefix (toHexField x)) = encodedValue x)
  /\ (forall x : NumberOrString,
         exactlyEncoded x = true -> encodedValue x = fieldValue x).
Proof.
  split; [| split; [| split; [exact encodedValue_text | exact exactlyEncoded_value]]].
  - intros c1 c2 res1 res2 H1 H2 R1 R2 Hraw.
    apply genRawTransaction_Ok in H1
      as (gl1 & gp1 & to1 & d1 & v1 & tx1 & s1 & Egl1 & Egp1 & Eto1 & Ed1 & Ev1
          & Hto1 & Hgp1 & Hgl1 & Hv1 & Hd1 & Hr1 & Htx1 & Hs1 & ->).
    apply genRawTransaction_Ok in H2
      as (gl2 & gp2 & to2 & d2 & v2 & tx2 & s2 & Egl2 & Egp2 & Eto2 & Ed2 & Ev2
          & Hto2 & Hgp2 & Hgl2 & Hv2 & Hd2 & Hr2 & Htx2 & Hs2 & ->).
    unfold transactionInRange in R1, R2.
    rewrite Egl1, Egp1, Ev1, Ed1 in R1. rewrite Egl2, Egp2, Ev2, Ed2 in R2.
    destruct (built_transaction _ _ _ _ _ _ _ _ Hgp1 Hgl1 Hv1 Hd1 Hr1 R1 Htx1 Hs1)
      as (P1 & Fgp1 & Fgl1 & Fv1 & Fto1 & Fd1 & Fr1).
    destruct (built_transaction _ _ _ _ _ _ _ _ Hgp2 Hgl2 Hv2 Hd2 Hr2 R2 Htx2 Hs2)
      as (P2 & Fgp2 & Fgl2 & Fv2 & Fto2 & Fd2 & Fr2).
    cbn [tr_rawTx tr_r] in *.
    apply hexOfBytes_inj in Hraw. rewrite Hraw in P1. rewrite P1 in P2.
    inversion P2; subst tx2. clear P2.
    unfold sameTransaction.
    rewrite Egl1, Egl2, Egp1, Egp2, Ev1, Ev2, Eto1, Eto2, Ed1, Ed2.
    cbn [option_map].
    rewrite <- Fgl1, <- Fgl2, <- Fgp1, <- Fgp2, <- Fv1, <- Fv2, <- Fd1, <- Fd2.
    split; [| congruence].
    repeat (split; [reflexivity |]).
    split; [| reflexivity].
    f_equal. apply checksum_unique; try assumption.
    pose proof (validChecksum_to to1 Hto1) as L1.
    pose proof (validChecksum_to to2 Hto2) as L2.
    rewrite <- Fto1 in L1. rewrite <- Fto2 in L2. congruence.
  - intros c1 c2 res1 res2 H1 H2 R1 R2 Hraw.
    apply genRawDeployment_Ok in H1
      as (gl1 & gp1 & d1 & v1 & tx1 & s1 & ab1 & Egl1 & Egp1 & Ed1 & Ev1
          & Hgp1 & Hgl1 & Hv1 & Hd1 & Hr1 & Htx1 & Hs1 & _ & ->).
    apply genRawDeployment_Ok in H2
      as (gl2 & gp2 & d2 & v2 & tx2 & s2 & ab2 & Egl2 & Egp2 & Ed2 & Ev2
          & Hgp2 & Hgl2 & Hv2 & Hd2 & Hr2 & Htx2 & Hs2 & _ & ->).
    unfold deploymentInRange in R1, R2.
    rewrite Egl1, Egp1, Ev1, Ed1 in R1. rewrite Egl2, Egp2, Ev2, Ed2 in R2.
    destruct (built_transaction _ _ _ _ _ _ _ _ Hgp1 Hgl1 Hv1 Hd1 Hr1 R1 Htx1 Hs1)
      as (P1 & Fgp1 & Fgl1 & Fv1 & Fto1 & Fd1 & Fr1).
    destruct (built_transaction _ _ _ _ _ _ _ _ Hgp2 Hgl2 Hv2 Hd2 Hr2 R2 Htx2 Hs2)
      as (P2 & Fgp2 & Fgl2 & Fv2 & Fto2 & Fd2 & Fr2).
    cbn [dr_rawTx dr_r] in *.
    apply hexOfBytes_inj in Hraw. rewrite Hraw in P1. rewrite P1 in P2.
    inversion P2; subst tx2. clear P2.
    unfold sameDeployment.
    rewrite Egl1, Egl2, Egp1, Egp2, Ev1, Ev2, Ed1, Ed2.
    cbn [option_map].
    rewrite <- Fgl1, <- Fgl2, <- Fgp1, <- Fgp2, <- Fv1, <- Fv2, <- Fd1, <- Fd2.
    split; [| congruence].
    repeat split; reflexivity.
Qed.

Lemma genRawTransaction_paddedConfig : genRawTransaction paddedConfig = Ok validResult.
Proof. vm_compute. reflexivity. Qed.

Lemma rawTx_determines_fields_witness :
  sameTransaction validConfig paddedConfig
  /\ signatureValue (tr_r validResult) = signatureValue (tr_r validResult).
Proof.
  apply (proj1 rawTx_determines_fields validConfig paddedConfig validResult validResult
           genRawTransaction_validConfig genRawTransaction_paddedConfig);
    reflexivity.
Defined.

(** ** The addresses of a result *)

Lemma length_round (A : list N) (rc : N) : List.length (Keccak.round A rc) = 25%nat.
Proof.
  unfold Keccak.round.
  assert (H : List.length (Keccak.chi (Keccak.rhoPi (Keccak.theta A))) = 25%nat).
  { unfold Keccak.chi. rewrite length_map. reflexivity. }
  destruct (Keccak.chi (Keccak.rhoPi (Keccak.theta A))); [discriminate | exact H].
Qed.

Lemma length_rounds (rcs : list N) :
  forall A, List.length A = 25%nat -> List.length (fold_left Keccak.round rcs A) = 25%nat.
Proof.
  induction rcs as [| rc rcs IH]; intros A H; [exact H |].
  cbn [fold_left]. apply IH, length_round.
Qed.

Lemma length_xorLanes (A B : list N) :
  List.length (Keccak.xorLanes A B) = List.length A.
Proof.
  revert B. induction A as [| a A IH]; intros B; [destruct B; reflexivity |].
  destruct B as [| b B]; [reflexivity |].
  cbn [Keccak.xorLanes List.length]. now rewrite IH.
Qed.

Lemma length_absorb (fuel : nat) :
  forall A msg, List.length A = 25%nat ->
                List.length (Keccak.absorb fuel A msg) = 25%nat.
Proof.
  induction fuel as [| fuel IH]; intros A msg H; [exact H |].
  cbn [Keccak.absorb]. destruct msg as [| b msg]; [exact H |].
  apply IH. unfold Keccak.permutation. apply length_rounds.
  now rewrite length_xorLanes.
Qed.

(** A hash is 32 bytes. *)
Lemma length_keccak256 (msg : bytes) : List.length (keccak256 msg) = 32%nat.
Proof.
  unfold keccak256, Keccak.keccak256.
  pose proof (length_absorb (List.length (Keccak.pad msg)) (repeat 0 25) (Keccak.pad msg)
                eq_refl) as H.
  destruct (Keccak.absorb (List.length (Keccak.pad msg)) (repeat 0 25) (Keccak.pad msg))
    as [| a0 [| a1 [| a2 [| a3 rest]]]]; try discriminate.
  reflexivity.
Qed.

Lemma length_publicToAddress (pubKey : bytes) :
  List.length (publicToAddress pubKey) = 20%nat.
Proof. unfold publicToAddress. now rewrite length_skipn, length_keccak256. Qed.

Lemma length_generateAddress (from nonce : bytes) :
  List.length (generateAddress from nonce) = 20%nat.
Proof. unfold generateAddress. cbv zeta. now rewrite length_skipn, length_keccak256. Qed.

Lemma getSenderAddress_length (tx : Transaction) (sender : bytes) :
  getSenderAddress tx = Ok sender -> List.length sender = 20%nat.
Proof.
  unfold getSenderAddress. intros H.
  destruct (tx_v tx) as [v |]; [| discriminate].
  destruct (tx_r tx) as [r |]; [| discriminate].
  destruct (tx_s tx) as [s |]; [| discriminate].
  apply (guard_Ok _ _ _ (fun _ => _)) in H as [_ H].
  apply bind_Ok in H as (pubKey & _ & H). inversion H.
  apply length_publicToAddress.
Qed.

Lemma padToEven_even (s : string) (n : nat) :
  String.length s = (2 * n)%nat -> padToEven s = s.
Proof.
  intros H. unfold padToEven. rewrite H, Nat.even_mul. reflexivity.
Qed.

Lemma bytesOfHex_hexOfBytes (b : bytes) : bytesOfHex (hexOfBytes b) = b.
Proof.
  unfold bytesOfHex, hexOfBytes. rewrite stripHexPrefix_prefixed.
  rewrite (padToEven_even _ (List.length b)) by apply length_toString_hex.
  apply Buffer_from_toString_hex.
Qed.

(** The text of a 20-byte address, once checksummed, passes the checksum
    test and still denotes the same bytes. *)
Lemma checksummed_address (b : bytes) :
  List.length b = 20%nat ->
  isValidChecksumAddress (checksummed (hexOfBytes b)) = true
  /\ bytesOfHex (checksummed (hexOfBytes b)) = b.
Proof.
  intros Hlen. unfold checksummed.
  destruct (isValidChecksumAddress (hexOfBytes b)) eqn:E.
  - split; [exact E | apply bytesOfHex_hexOfBytes].
  - pose proof (toChecksumAddress_idempotent (hexOfBytes b)) as Hidem.
    pose proof (toChecksumAddress_lowered (hexOfBytes b)) as Hlow.
    unfold isValidChecksumAddress. rewrite Hidem, String.eqb_refl, andb_true_r.
    revert Hlow. unfold toChecksumAddress, hexOfBytes.
    rewrite !stripHexPrefix_prefixed.
    set (address := toLowerCase (Buffer_toString_hex b)).
    set (hash := Buffer_toString_hex (keccak256 (bytes_of_string address))).
    set (text := string_of_chars
                   (checksumCase (list_ascii_of_string address)
                                 (list_ascii_of_string hash))).
    intros Hlow.
    assert (Htext : String.length text = (2 * 20)%nat).
    { unfold text. rewrite length_string_of_chars, checksumCase_length, length_list_ascii.
      unfold address. now rewrite length_toLowerCase, length_toString_hex, Hlen. }
    split.
    + unfold isValidAddress. rewrite isValidHex_prefixed.
      cbn [String.append String.length]. rewrite Htext.
      rewrite andb_true_r. unfold text.
      rewrite checksumCase_digits, string_of_chars_list. unfold address.
      rewrite allHexDigits_toLowerCase. apply allHexDigits_toString_hex.
    + unfold bytesOfHex. rewrite stripHexPrefix_prefixed, (padToEven_even _ 20 Htext).
      rewrite <- (Buffer_from_hex_toLowerCase (String.length text)) by apply Nat.le_refl.
      rewrite Hlow. unfold address.
      rewrite (Buffer_from_hex_toLowerCase (String.length (Buffer_toString_hex b)))
        by apply Nat.le_refl.
      apply Buffer_from_toString_hex.
Qed.

(** X9 (checksummed addresses). The addresses a builder returns are
    checksummed addresses: 42 characters that pass [isValidChecksumAddress],
    so that each can be the recipient of [genRawTransaction]. *)
Theorem addresses_checksummed :
  (forall config res,
      genRawTransaction config = Ok res ->
      isValidChecksumAddress (tr_senderAddress res) = true
      /\ String.length (tr_senderAddress res) = 42%nat)
  /\ (forall config res,
         genRawDeployment config = Ok res ->
         isValidChecksumAddress (dr_deployerAddress res) = true
         /\ String.length (dr_deployerAddress res) = 42%nat
         /\ isValidChecksumAddress (dr_contractAddress res) = true
         /\ String.length (dr_contractAddress res) = 42%nat).
Proof.
  assert (L : forall a, isValidChecksumAddress a = true -> String.length a = 42%nat).
  { intros a H. destruct (isValidChecksumAddress_inv a H) as (t & -> & _ & Ht & _).
    cbn [String.append String.length]. now rewrite Ht. }
  split.
  - intros config res H.
    apply genRawTransaction_Ok in H
      as (gl & gp & to & data & v & tx & sender & _ & _ & _ & _ & _ & _ & _ & _ & _ & _
          & _ & _ & Hsender & ->).
    cbn [tr_senderAddress].
    destruct (checksummed_address sender (getSenderAddress_length _ _ Hsender)) as [C _].
    split; [exact C | now apply L].
  - intros config res H.
    apply genRawDeployment_Ok in H
      as (gl & gp & data & v & tx & sender & ab & _ & _ & _ & _ & _ & _ & _ & _ & _
          & _ & Hsender & _ & ->).
    cbn [dr_deployerAddress dr_contractAddress].
    destruct (checksummed_address sender (getSenderAddress_length _ _ Hsender)) as [C _].
    destruct (checksummed_address (generateAddress ab [x00])
                (length_generateAddress _ _)) as [C' _].
    repeat split; try assumption; now apply L.
Qed.

Lemma addresses_checksummed_witness :
  isValidChecksumAddress "0xED4ec73C2f4Ff3Cb7d87c86089d0ebdf9040764b" = true
  /\ String.length "0xED4ec73C2f4Ff3Cb7d87c86089d0ebdf9040764b" = 42%nat
  /\ isValidChecksumAddress "0xC89b598406964D577242B0B8FB1f1dfE6adED888" = true
  /\ String.length "0xC89b598406964D577242B0B8FB1f1dfE6adED888" = 42%nat.
Proof.
  exact (proj2 addresses_checksummed validDeployment validDeploymentResult
           genRawDeployment_validDeployment).
Defined.

(** X10 (contract address). The contract address is the address created by the
    deployer at nonce 0: the checksummed last 20 bytes of the keccak-256 hash
    of [0xd6 0x94 deployer 0x80], the RLP encoding of the deployer's 20 bytes
    and the empty nonce. It depends on the config through the deployer address
    only. *)
Theorem contractAddress_of_deployer :
  (forall config res,
      genRawDeployment config = Ok res ->
      dr_contractAddress res
      = checksummed
          (hexOfBytes
             (skipn 12 (keccak256 (xd6 :: x94 :: bytesOfHex (dr_deployerAddress res)
                                       ++ [x80])))))
  /\ (forall c1 c2 res1 res2,
         genRawDeployment c1 = Ok res1 -> genRawDeployment c2 = Ok res2 ->
         dr_deployerAddress res1 = dr_deployerAddress res2 ->
         dr_contractAddress res1 = dr_contractAddress res2).
Proof.
  assert (F : forall config res,
             genRawDeployment config = Ok res ->
             dr_contractAddress res
             = checksummed
                 (hexOfBytes
                    (skipn 12 (keccak256 (xd6 :: x94 :: bytesOfHex (dr_deployerAddress res)
                                              ++ [x80]))))).
  { intros config res H.
    apply genRawDeployment_Ok in H
      as (gl & gp & data & v & tx & sender & ab & _ & _ & _ & _ & _ & _ & _ & _ & _
          & _ & Hsender & Hab & ->).
    cbn [dr_deployerAddress dr_contractAddress].
    pose proof (getSenderAddress_length _ _ Hsender) as Hlen.
    destruct (checksummed_address sender Hlen) as [_ B].
    apply toBuffer_Ok in Hab as [_ ->]. rewrite B.
    do 2 f_equal. unfold generateAddress. cbv zeta. do 2 f_equal.
    change (bufferToBigInt [x00]) with 0. rewrite unpadded_zero.
    cbn [RLP_encode flat_map]. rewrite app_nil_r.
    change (encodeBytes []) with [x80].
    assert (E : encodeBytes sender = x94 :: sender).
    { destruct sender as [| a0 [| a1 rest]]; try discriminate.
      unfold encodeBytes. rewrite encodeLength_short; unfold len; rewrite Hlen; reflexivity. }
    rewrite E.
    rewrite encodeLength_short; unfold len;
      rewrite ?length_app; cbn [List.length]; rewrite ?length_app, Hlen; reflexivity. }
  split; [exact F |].
  intros c1 c2 res1 res2 H1 H2 E.
  now rewrite (F c1 res1 H1), (F c2 res2 H2), E.
Qed.

Lemma contractAddress_of_deployer_witness :
  dr_contractAddress validDeploymentResult
  = checksummed
      (hexOfBytes
         (skipn 12 (keccak256 (xd6 :: x94
                                   :: bytesOfHex (dr_deployerAddress validDeploymentResult)
                                   ++ [x80])))).
Proof.
  exact (proj1 contractAddress_of_deployer validDeployment validDeploymentResult
           genRawDeployment_validDeployment).
Defined.

(** ** Numbers *)

(** [Number] of a bigint is within half a unit in the last of 53 bits. *)
Lemma Number_of_bigint_error (n : N) :
  (Number_of_bigint n - n) * 2 ^ 53 <= n /\ (n - Number_of_bigint n) * 2 ^ 53 <= n.
Proof.
  unfold Number_of_bigint.
  destruct (N.leb_spec (N.size n) 53) as [Hs | Hs].
  { rewrite N.sub_diag. cbn [N.mul]. split; apply N.le_0_l. }
  assert (Hn0 : n <> 0) by (intros ->; discriminate).
  set (sh := N.size n - 53).
  assert (Hsh : N.size n = sh + 53) by (unfold sh; lia).
  assert (Hlog : N.log2 n = (sh - 1) + 53).
  { pose proof (N.size_log2 n Hn0). lia. }
  assert (Hlow : 2 ^ (sh - 1) * 2 ^ 53 <= n).
  { rewrite <- N.pow_add_r, <- Hlog. apply N.log2_spec. lia. }
  assert (Hp : 2 ^ sh = 2 * 2 ^ (sh - 1)).
  { rewrite <- N.pow_succ_r'. f_equal. lia. }
  rewrite N.shiftr_div_pow2, N.shiftl_mul_pow2.
  pose proof (N.div_mod' n (2 ^ sh)) as Hdm.
  assert (Hpos : 2 ^ sh <> 0) by (apply N.pow_nonzero; discriminate).
  pose proof (N.mod_lt n (2 ^ sh) Hpos) as Hrest.
  remember (2 ^ (sh - 1)) as half eqn:Ehalf.
  remember (2 ^ sh) as p eqn:Ep.
  remember (n / p) as q eqn:Eq.
  remember (n mod p) as rest eqn:Erest.
  remember (2 ^ 53) as K eqn:EK.
  destruct ((half <? rest) || (rest =? half) && N.odd q) eqn:C.
  - assert (Hge : half <= rest).
    { apply orb_prop in C as [C | C].
      - apply N.ltb_lt in C. lia.
      - apply andb_prop in C as [C _]. apply N.eqb_eq in C. lia. }
    split; nia.
  - assert (Hle : rest <= half).
    { apply orb_false_elim in C as [C _]. apply N.ltb_ge in C. exact C. }
    split; nia.
Qed.

Lemma cost_error (tx : Transaction) (gasLimit gasPrice value : NumberOrString) :
  tx_gasLimit tx = encodedValue gasLimit -> tx_gasPrice tx = encodedValue gasPrice ->
  tx_value tx = encodedValue value ->
  (Z.abs (Z.of_N (Number_of_bigint (getUpfrontCost tx))
          - Z.of_N (encodedValue value + encodedValue gasLimit * encodedValue gasPrice))
   * 2 ^ 53
   <= Z.of_N (encodedValue value + encodedValue gasLimit * encodedValue gasPrice))%Z
  /\ (exactlyEncoded gasLimit = true -> exactlyEncoded gasPrice = true ->
      exactlyEncoded value = true ->
      (Z.abs (Z.of_N (Number_of_bigint (getUpfrontCost tx))
              - Z.of_N (fieldValue value + fieldValue gasLimit * fieldValue gasPrice))
       * 2 ^ 53
       <= Z.of_N (fieldValue value + fieldValue gasLimit * fieldValue gasPrice))%Z).
Proof.
  intros Fgl Fgp Fv.
  assert (B : forall n, (Z.abs (Z.of_N (Number_of_bigint n) - Z.of_N n) * 2 ^ 53
                         <= Z.of_N n)%Z).
  { intros n. destruct (Number_of_bigint_error n) as [H1 H2].
    assert (E : (Z.of_N (2 ^ 53) = 2 ^ 53)%Z) by reflexivity.
    rewrite <- E. remember (2 ^ 53) as K eqn:EK.
    remember (Number_of_bigint n) as r eqn:Er. clear Er EK E. nia. }
  destruct (upfrontCost_exact tx gasLimit gasPrice value Fgl Fgp Fv) as [-> _].
  split; [apply B |].
  intros Xl Xp Xv.
  rewrite <- (exactlyEncoded_value _ Xl), <- (exactlyEncoded_value _ Xp),
    <- (exactlyEncoded_value _ Xv).
  apply B.
Qed.

(** X11 (error of the upfront cost). The upfront cost a builder returns is the
    cost of the transaction, [value + gasLimit * gasPrice] over the integers
    encoded in it, up to a relative error of [2^-53]: the difference, times
    [2^53], does not exceed that cost. The encoded integer of a field that
    passes the hex validation is the one that its hex text denotes. When every
    numeric input is a hex string or a number up to [2^53], the encoded
    integers are the inputs and the bound holds of the exact cost of the
    inputs. *)
Theorem upfrontCost_error :
  (forall config res gasLimit gasPrice value,
      tc_gasLimit config = Some gasLimit -> tc_gasPrice config = Some gasPrice ->
      tc_value config = Some value ->
      genRawTransaction config = Ok res ->
      (Z.abs (Z.of_N (tr_upfrontCost res)
              - Z.of_N (encodedValue value
                        + encodedValue gasLimit * encodedValue gasPrice))
       * 2 ^ 53
       <= Z.of_N (encodedValue value + encodedValue gasLimit * encodedValue gasPrice))%Z
      /\ (exactlyEncoded gasLimit = true -> exactlyEncoded gasPrice = true ->
          exactlyEncoded value = true ->
          (Z.abs (Z.of_N (tr_upfrontCost res)
                  - Z.of_N (fieldValue value + fieldValue gasLimit * fieldValue gasPrice))
           * 2 ^ 53
           <= Z.of_N (fieldValue value + fieldValue gasLimit * fieldValue gasPrice))%Z))
  /\ (forall config res gasLimit gasPrice value,
         dc_gasLimit config = Some gasLimit -> dc_gasPrice config = Some gasPrice ->
         dc_value config = Some value ->
         genRawDeployment config = Ok res ->
         (Z.abs (Z.of_N (dr_upfrontCost res)
                 - Z.of_N (encodedValue value
                           + encodedValue gasLimit * encodedValue gasPrice))
          * 2 ^ 53
          <= Z.of_N (encodedValue value
                     + encodedValue gasLimit * encodedValue gasPrice))%Z
         /\ (exactlyEncoded gasLimit = true -> exactlyEncoded gasPrice = true ->
             exactlyEncoded value = true ->
             (Z.abs (Z.of_N (dr_upfrontCost res)
                     - Z.of_N (fieldValue value
                               + fieldValue gasLimit * fieldValue gasPrice))
              * 2 ^ 53
              <= Z.of_N (fieldValue value
                         + fieldValue gasLimit * fieldValue gasPrice))%Z))
  /\ (forall x : NumberOrString,
         isValidHex (toHexField x) = true ->
         hexStringValue (stripHexPrefix (toHexField x)) = encodedValue x)
  /\ (forall x : NumberOrString,
         exactlyEncoded x = true -> encodedValue x = fieldValue x).
Proof.
  split; [| split; [| split; [exact encodedValue_text | exact exactlyEncoded_value]]].
  - intros config res gasLimit gasPrice value Egl Egp Ev H.
    apply genRawTransaction_Ok in H
      as (gl & gp & to & data & v & tx & sender & Egl' & Egp' & Eto & Edata & Ev'
          & Hto & Hgp & Hgl & Hv & Hdata & Hrhex & Htx & Hsender & ->).
    rewrite Egl in Egl'. rewrite Egp in Egp'. rewrite Ev in Ev'.
    inversion Egl'; inversion Egp'; inversion Ev'. subst gl gp v.
    destruct (built_fields _ _ _ _ _ _ _ Hgp Hgl Hv Htx)
      as (_ & _ & Fgp & Fgl & Fv & _).
    cbn [tr_upfrontCost].
    exact (cost_error tx gasLimit gasPrice value Fgl Fgp Fv).
  - intros config res gasLimit gasPrice value Egl Egp Ev H.
    apply genRawDeployment_Ok in H
      as (gl & gp & data & v & tx & sender & ab & Egl' & Egp' & Edata & Ev'
          & Hgp & Hgl & Hv & Hdata & Hrhex & Htx & Hsender & Hab & ->).
    rewrite Egl in Egl'. rewrite Egp in Egp'. rewrite Ev in Ev'.
    inversion Egl'; inversion Egp'; inversion Ev'. subst gl gp v.
    destruct (built_fields _ _ _ _ _ _ _ Hgp Hgl Hv Htx)
      as (_ & _ & Fgp & Fgl & Fv & _).
    cbn [dr_upfrontCost].
    exact (cost_error tx gasLimit gasPrice value Fgl Fgp Fv).
Qed.

Lemma upfrontCost_error_witness :
  (Z.abs (Z.of_N 9007199254740992 - Z.of_N (9007199254740992 + 1 * 1)) * 2 ^ 53
   <= Z.of_N (9007199254740992 + 1 * 1))%Z.
Proof.
  exact (proj2 (proj1 upfrontCost_error largeValueConfig largeValueResult
                  (Num (JsInt 1)) (Num (JsInt 1)) (Num (JsInt 9007199254740992))
                  eq_refl eq_refl eq_refl genRawTransaction_largeValueConfig)
           eq_refl eq_refl eq_refl).
Defined.

Lemma allHexDigits_lower (s : string) : allLowerHex s = true -> allHexDigits s = true.
Proof. intros H. now destruct (allLowerHex_spec s H) as (E & _). Qed.

Lemma allHexDigits_toString16 (n : N) : allHexDigits (BigInt_toString16 n) = true.
Proof.
  unfold BigInt_toString16. destruct (n =? 0); [reflexivity |].
  apply allHexDigits_lower, allLowerHex_hexDigits, digits_lt, sixteen_ge_2.
Qed.

Lemma fractionDigits_zero (fuel : nat) (k : N) : fractionDigits fuel 0 k = [].
Proof. destruct fuel; reflexivity. Qed.

Lemma allHexDigits_integerToString16 (n : N) :
  allHexDigits (integerToString16 n) = true.
Proof.
  unfold integerToString16. cbv zeta.
  now rewrite allHexDigits_app, allHexDigits_toString16, allHexDigits_zeros.
Qed.

(** Only the unrepresented digits are lost. *)
Lemma radixInteger_lower (n : N) : n < radixInteger n + 16 ^ unrepresentedDigits n.
Proof.
  unfold radixInteger. cbv zeta.
  assert (H : 16 ^ unrepresentedDigits n <> 0) by (apply N.pow_nonzero; discriminate).
  pose proof (N.div_mod' n (16 ^ unrepresentedDigits n)) as D.
  pose proof (N.mod_lt n _ H) as M. lia.
Qed.

Lemma isValidHex_number (x : JsNumber) :
  isValidHex (toHexField (Num x)) = isNaturalNumber x.
Proof.
  destruct x as [| negative | negative m e]; [reflexivity | now destruct negative |].
  cbn [toHexField isNaturalNumber].
  destruct (N.eqb_spec (fractionPart m e) 0) as [Hf | Hf].
  - unfold Number_toString16. rewrite isValidHex_prefixed.
    destruct (N.eqb_spec m 0) as [-> | Hm]; [now rewrite orb_true_r |].
    rewrite Hf, fractionDigits_zero, orb_false_r, append_empty_r.
    destruct negative; cbn [negb andb].
    + apply allHexDigits_minus.
    + apply allHexDigits_integerToString16.
  - cbn [andb]. apply nonInteger_invalidHex. cbn [isInteger].
    now apply N.eqb_neq.
Qed.

(** X12 (accepted numbers). The numbers that pass the hex validation of the
    builders are the integers that are not negative: NaN, the infinities, the
    negative numbers and the numbers with a fraction are rendered as text that
    [isValidHex] rejects. The hex text of an accepted number denotes the
    number itself up to [2^53]; beyond, it denotes the number with zeros for
    its unrepresented hex digits, [(bits - 53 + 3) / 4] of them for a number
    of [bits] bits, which is not more than the number and less than it by
    less than [16] to the power of that count. *)
Theorem number_accepted (x : JsNumber) :
  isValidHex (toHexField (Num x)) = isNaturalNumber x
  /\ (isNaturalNumber x = true ->
      hexStringValue (stripHexPrefix (toHexField (Num x))) = encodedValue (Num x)
      /\ encodedValue (Num x) = radixInteger (fieldValue (Num x))
      /\ (fieldValue (Num x) <= 2 ^ 53 -> encodedValue (Num x) = fieldValue (Num x))
      /\ encodedValue (Num x) <= fieldValue (Num x)
      /\ fieldValue (Num x)
         < encodedValue (Num x) + 16 ^ unrepresentedDigits (fieldValue (Num x))).
Proof.
  split; [apply isValidHex_number |].
  intros H. rewrite <- isValidHex_number in H.
  split; [now apply validHex_number |].
  assert (E : encodedValue (Num x) = radixInteger (fieldValue (Num x))).
  { destruct x as [| negative | negative m e]; reflexivity. }
  split; [exact E |].
  split; [apply encodedValue_exact |].
  split; [apply encodedValue_le |].
  rewrite E. apply radixInteger_lower.
Qed.

Lemma number_accepted_witness :
  hexStringValue (stripHexPrefix (toHexField (Num (JsInt 9007199254740994))))
  = 9007199254740992
  /\ toHexField (Num (JsInt 9007199254740994)) = "0x20000000000000".
Proof.
  split; [| reflexivity].
  exact (proj1 (proj2 (number_accepted (JsInt 9007199254740994)) eq_refl)).
Defined.

(** ** The checks of the builders, in order *)

Lemma genRawTransaction_validation (config : TransactionConfig) :
  genRawTransaction config =
  if negb (transactionRequired config)
  then Err (MissingField missingTransactionParameters)
  else if negb (truthy_opt isValidChecksumAddress (tc_to config))
  then Err (InvalidAddress invalidToAddress)
  else if invalidOverride (tc_r config)
  then Err (InvalidSignatureComponent invalidCustomR)
  else if negb (transactionHexChecks config)
  then Err (InvalidHex invalidHexValues)
  else genRawTransaction config.
Proof.
  unfold transactionRequired, transactionHexChecks, invalidOverride.
  unfold genRawTransaction.
  destruct (tc_gasLimit config) as [gl |]; try reflexivity;
    destruct (tc_gasPrice config) as [gp |];
    cbn [truthy_opt]; rewrite ?andb_false_r; try reflexivity;
    destruct (tc_to config) as [to |];
    cbn [truthy_opt]; rewrite ?andb_false_r; try reflexivity;
    destruct (tc_data config) as [data |];
    cbn [truthy_opt]; rewrite ?andb_false_r; try reflexivity;
    destruct (tc_value config) as [v |];
    cbn [truthy_opt]; rewrite ?andb_false_r; try reflexivity;
    destruct (truthy gl), (truthy gp), (truthy_string to), (truthy_string data);
    cbn [negb orb andb]; try reflexivity;
    destruct (isValidChecksumAddress to); cbn [negb]; try reflexivity;
    destruct (truthy_opt truthy_string (tc_r config)
              && negb (truthy_opt isValidHex (tc_r config))); try reflexivity;
    destruct (isValidHex (toHexField gp)), (isValidHex (toHexField gl)),
      (isValidHex (toHexField v)), (isValidHex data);
    reflexivity.
Qed.

Lemma genRawDeployment_validation (config : DeploymentConfig) :
  genRawDeployment config =
  if negb (deploymentRequired config)
  then Err (MissingField missingDeploymentParameters)
  else if invalidOverride (dc_r config)
  then Err (InvalidSignatureComponent invalidCustomR)
  else if negb (deploymentHexChecks config)
  then Err (InvalidHex invalidHexValues)
  else genRawDeployment config.
Proof.
  unfold deploymentRequired, deploymentHexChecks, invalidOverride.
  unfold genRawDeployment.
  destruct (dc_gasLimit config) as [gl |]; try reflexivity;
    destruct (dc_gasPrice config) as [gp |];
    cbn [truthy_opt]; rewrite ?andb_false_r; try reflexivity;
    destruct (dc_bytecode config) as [data |];
    cbn [truthy_opt]; rewrite ?andb_false_r; try reflexivity;
    destruct (dc_value config) as [v |];
    cbn [truthy_opt]; rewrite ?andb_false_r; try reflexivity;
    destruct (truthy gl), (truthy gp), (truthy_string data);
    cbn [negb orb andb]; try reflexivity;
    destruct (truthy_opt truthy_string (dc_r config)
              && negb (truthy_opt isValidHex (dc_r config))); try reflexivity;
    destruct (isValidHex (toHexField gp)), (isValidHex (toHexField gl)),
      (isValidHex (toHexField v)), (isValidHex data);
    reflexivity.
Qed.

Lemma earlyChecks_split (config : TransactionConfig) :
  transactionEarlyChecks config
  = transactionRequired config && truthy_opt isValidChecksumAddress (tc_to config)
    && negb (invalidOverride (tc_r config)).
Proof. reflexivity. Qed.

Lemma deploymentEarlyChecks_split (config : DeploymentConfig) :
  deploymentEarlyChecks config
  = deploymentRequired config && negb (invalidOverride (dc_r config)).
Proof. reflexivity. Qed.

(** Once the checks of the source have passed, a builder can only fail
    inside the transaction library. *)
Lemma genRawTransaction_library (config : TransactionConfig) (e : Error) :
  transactionEarlyChecks config = true -> transactionHexChecks config = true ->
  genRawTransaction config = Err e -> e = InvalidFieldValue \/ e = InvalidSignature.
Proof.
  intros He Hh H.
  destruct (genRawTransaction_checked config He Hh)
    as (gl & gp & to & d & v & _ & _ & _ & _ & _ & Hgp & Hgl & Hv & Hd & Hto & Hr & E).
  rewrite E in H. clear E.
  rewrite builtTransaction in H
    by (assumption || now apply isValidChecksumAddress_hex).
  apply bind_Err in H as [H | (tx & _ & H)].
  - left. now apply validateTransaction_Err in H.
  - apply bind_Err in H as [H | (sender & _ & H)]; [| discriminate].
    right. now apply getSenderAddress_Err in H.
Qed.

Lemma genRawDeployment_library (config : DeploymentConfig) (e : Error) :
  deploymentEarlyChecks config = true -> deploymentHexChecks config = true ->
  genRawDeployment config = Err e -> e = InvalidFieldValue \/ e = InvalidSignature.
Proof.
  intros He Hh H.
  destruct (genRawDeployment_checked config He Hh)
    as (gl & gp & d & v & _ & _ & _ & _ & Hgp & Hgl & Hv & Hd & Hr & E).
  rewrite E in H. clear E.
  rewrite builtTransaction in H by (assumption || reflexivity).
  apply bind_Err in H as [H | (tx & _ & H)].
  - left. now apply validateTransaction_Err in H.
  - apply bind_Err in H as [H | (sender & Hsender & H)].
    + right. now apply getSenderAddress_Err in H.
    + exfalso.
      destruct (checksummed_address sender (getSenderAddress_length _ _ Hsender))
        as [C _].
      rewrite (toBuffer_valid _ (isValidChecksumAddress_hex _ C)) in H.
      discriminate.
Qed.

(** X13 (errors of genRawTransaction). The four errors that
    [genRawTransaction] raises itself, each with the exact condition under
    which it is raised: the checks are made in the order of the source, and
    the first that fails decides the error; a result is only returned when all
    of them pass. *)
Theorem transaction_errors (config : TransactionConfig) :
  (genRawTransaction config = Err (MissingField missingTransactionParameters)
   <-> transactionRequired config = false)
  /\ (genRawTransaction config = Err (InvalidAddress invalidToAddress)
      <-> transactionRequired config = true
          /\ truthy_opt isValidChecksumAddress (tc_to config) = false)
  /\ (genRawTransaction config = Err (InvalidSignatureComponent invalidCustomR)
      <-> transactionRequired config = true
          /\ truthy_opt isValidChecksumAddress (tc_to config) = true
          /\ invalidOverride (tc_r config) = true)
  /\ (genRawTransaction config = Err (InvalidHex invalidHexValues)
      <-> transactionEarlyChecks config = true /\ transactionHexChecks config = false)
  /\ (forall res,
         genRawTransaction config = Ok res ->
         transactionEarlyChecks config = true /\ transactionHexChecks config = true).
Proof.
  pose proof (genRawTransaction_validation config) as V.
  pose proof (genRawTransaction_library config) as L.
  rewrite earlyChecks_split in *.
  destruct (transactionRequired config);
    [destruct (truthy_opt isValidChecksumAddress (tc_to config));
     [destruct (invalidOverride (tc_r config));
      [| destruct (transactionHexChecks config)] |] |];
    cbn [negb andb] in V, L |- *;
    repeat split; intros;
    repeat match goal with H : _ /\ _ |- _ => destruct H end;
    try reflexivity; try congruence;
    match goal with
    | H : genRawTransaction _ = Err _ |- _ =>
        destruct (L _ eq_refl eq_refl H); discriminate
    end.
Qed.

(** X14 (errors of genRawDeployment). The three errors that [genRawDeployment]
    raises itself; it has no recipient to check. Each comes with the exact
    condition under which it is raised: the checks are made in the order of
    the source, and the first that fails decides the error; a result is only
    returned when all of them pass. *)
Theorem deployment_errors (config : DeploymentConfig) :
  (genRawDeployment config = Err (MissingField missingDeploymentParameters)
   <-> deploymentRequired config = false)
  /\ (genRawDeployment config = Err (InvalidSignatureComponent invalidCustomR)
      <-> deploymentRequired config = true /\ invalidOverride (dc_r config) = true)
  /\ (genRawDeployment config = Err (InvalidHex invalidHexValues)
      <-> deploymentEarlyChecks config = true /\ deploymentHexChecks config = false)
  /\ (forall res,
         genRawDeployment config = Ok res ->
         deploymentEarlyChecks config = true /\ deploymentHexChecks config = true).
Proof.
  pose proof (genRawDeployment_validation config) as V.
  pose proof (genRawDeployment_library config) as L.
  rewrite deploymentEarlyChecks_split in *.
  destruct (deploymentRequired config);
    [destruct (invalidOverride (dc_r config));
     [| destruct (deploymentHexChecks config)] |];
    cbn [negb andb] in V, L |- *;
    repeat split; intros;
    repeat match goal with H : _ /\ _ |- _ => destruct H end;
    try reflexivity; try congruence;
    match goal with
    | H : genRawDeployment _ = Err _ |- _ =>
        destruct (L _ eq_refl eq_refl H); discriminate
    end.
Qed.

(** X15 (one spelling of the recipient). Only one spelling of an address is
    accepted as recipient: when the required fields are there, a [to] that
    differs, in the case of its letters only, from a checksummed address is
    rejected with the address error. So is, in particular, the lower-case [to]
    that [recoverRawTransaction] returns for an address with an upper-case
    letter. *)
Theorem other_spelling_rejected (config : TransactionConfig) (to to' : string) :
  transactionRequired config = true -> tc_to config = Some to' ->
  isValidChecksumAddress to = true ->
  toLowerCase to' = toLowerCase to -> to' <> to ->
  genRawTransaction config = Err (InvalidAddress invalidToAddress).
Proof.
  intros Hreq Hto Hvalid Hlower Hneq.
  rewrite genRawTransaction_validation, Hreq, Hto. cbn [negb truthy_opt].
  destruct (isValidChecksumAddress to') eqn:E; [| reflexivity].
  exfalso. apply Hneq. now apply checksum_unique.
Qed.

Lemma other_spelling_rejected_witness :
  genRawTransaction fractionalLowerCaseConfig = Err (InvalidAddress invalidToAddress).
Proof.
  apply (other_spelling_rejected fractionalLowerCaseConfig
           "0x742d35Cc6634C0532925a3b844Bc454e4438f44e"
           "0x742d35cc6634c0532925a3b844bc454e4438f44e");
    first [reflexivity | discriminate | vm_compute; reflexivity].
Defined.

(** ** The signature of a result *)

Lemma bigZ_below_curveOrder (n : N) :
  (bigZ_of_N n <? Secp256k1.order)%bigZ = true -> n < curveOrder.
Proof.
  unfold bigZ_of_N, Secp256k1.order. rewrite BigZ.spec_ltb, !BigZ.spec_of_Z.
  intros H. apply Z.ltb_lt in H.
  assert (E : (Z.of_N curveOrder
               = 0xFFFFFFFFFFFFFFFFFFFFFFFFFFFFFFFEBAAEDCE6AF48A03BBFD25E8CD0364141)%Z)
    by reflexivity.
  assert (Hn : (Z.of_N n < Z.of_N curveOrder)%Z) by (rewrite E; exact H).
  lia.
Qed.

Lemma getSenderAddress_range (tx : Transaction) (sender : bytes) :
  getSenderAddress tx = Ok sender ->
  exists r s, tx_r tx = Some r /\ tx_s tx = Some s
              /\ 0 < r < curveOrder /\ 0 < s < curveOrder.
Proof.
  unfold getSenderAddress.
  destruct (tx_v tx) as [v |]; [| discriminate].
  destruct (tx_r tx) as [r |]; [| discriminate].
  destruct (tx_s tx) as [s |]; [| discriminate].
  intros H.
  apply (guard_Ok _ _ _ (fun _ => _)) in H as [_ H].
  apply bind_Ok in H as (pk & H & _).
  exists r, s. split; [reflexivity |]. split; [reflexivity |].
  unfold recoverPublicKey, Secp256k1.recover in H.
  destruct ((0 <? bigZ_of_N r)%bigZ && (bigZ_of_N r <? Secp256k1.order)%bigZ
            && (0 <? bigZ_of_N s)%bigZ && (bigZ_of_N s <? Secp256k1.order)%bigZ) eqn:E;
    [| discriminate].
  apply andb_prop in E as [E E4]. apply andb_prop in E as [E E3].
  apply andb_prop in E as [E1 E2].
  apply bigZ_pos in E1, E3. apply bigZ_below_curveOrder in E2, E4.
  repeat split; try assumption; lia.
Qed.

Lemma built_signature (gasPrice gasLimit value : NumberOrString) (to : option string)
      (data : string) (r : option string) (tx : Transaction) (sender : bytes) :
  isValidHex (toHexField gasPrice) = true ->
  isValidHex (toHexField gasLimit) = true ->
  isValidHex (toHexField value) = true ->
  isValidHex (orDefault r HARDCODED_R) = true ->
  Transaction_fromTxData (transactionParams gasPrice gasLimit to value data r) = Ok tx ->
  getSenderAddress tx = Ok sender ->
  0 < signatureValue (orDefault r HARDCODED_R) < curveOrder.
Proof.
  intros Hgp Hgl Hv Hrhex Htx Hsender.
  destruct (built_fields _ _ _ _ _ _ _ Hgp Hgl Hv Htx)
    as (_ & _ & _ & _ & _ & _ & _ & _ & Fr & _).
  destruct (getSenderAddress_range _ _ Hsender) as (r' & s' & Er & _ & Hr & _).
  rewrite Fr in Er.
  destruct (nonEmpty (bytesOfHex (orDefault r HARDCODED_R))) as [b |] eqn:E;
    [| discriminate].
  apply nonEmpty_Some in E. subst b. cbn [option_map] in Er. inversion Er as [Er'].
  rewrite (bytesOfHex_value _ Hrhex) in Er'. unfold signatureValue. now rewrite Er'.
Qed.

(** X16 (signature of a result). The [r] of a result is the override exactly
    as it was written when one is given (the hard-coded constant otherwise),
    [s] and [v] are the hard-coded constants whatever the override, and a
    result is only returned for an [r] that is valid hex and denotes an
    integer between 1 and the order of the curve, excluded: an override of
    value zero, or of the order or more, makes the builder fail. *)
Theorem signature_of_result :
  (forall config res,
      genRawTransaction config = Ok res ->
      tr_r res = orDefault (tc_r config) HARDCODED_R
      /\ tr_s res = HARDCODED_S /\ tr_v res = HARDCODED_V
      /\ isValidHex (tr_r res) = true
      /\ 0 < signatureValue (tr_r res) < curveOrder)
  /\ (forall config res,
         genRawDeployment config = Ok res ->
         dr_r res = orDefault (dc_r config) HARDCODED_R
         /\ dr_s res = HARDCODED_S /\ dr_v res = HARDCODED_V
         /\ isValidHex (dr_r res) = true
         /\ 0 < signatureValue (dr_r res) < curveOrder).
Proof.
  split.
  - intros config res H.
    apply genRawTransaction_Ok in H
      as (gl & gp & to & data & v & tx & sender & _ & _ & _ & _ & _
          & _ & Hgp & Hgl & Hv & _ & Hrhex & Htx & Hsender & ->).
    cbn [tr_r tr_s tr_v].
    repeat (split; [first [reflexivity | assumption] |]).
    exact (built_signature _ _ _ _ _ _ _ _ Hgp Hgl Hv Hrhex Htx Hsender).
  - intros config res H.
    apply genRawDeployment_Ok in H
      as (gl & gp & data & v & tx & sender & ab & _ & _ & _ & _
          & Hgp & Hgl & Hv & _ & Hrhex & Htx & Hsender & _ & ->).
    cbn [dr_r dr_s dr_v].
    repeat (split; [first [reflexivity | assumption] |]).
    exact (built_signature _ _ _ _ _ _ _ _ Hgp Hgl Hv Hrhex Htx Hsender).
Qed.

Lemma signature_of_result_witness :
  tr_r unnormalizedResult
  = "0x0A12121212121212121212121212121212121212121212121212121212121212"
  /\ tr_s unnormalizedResult = HARDCODED_S /\ tr_v unnormalizedResult = HARDCODED_V
  /\ isValidHex (tr_r unnormalizedResult) = true
  /\ 0 < signatureValue (tr_r unnormalizedResult) < curveOrder.
Proof.
  exact (proj1 signature_of_result unnormalizedConfig unnormalizedResult
           genRawTransaction_unnormalizedConfig).
Defined.

(** ** What the parser returns for a built transaction, in general *)

Lemma padToEven_length (s : string) :
  exists n, String.length (padToEven s) = (2 * n)%nat.
Proof.
  unfold padToEven. destruct (Nat.even (String.length s)) eqn:E.
  - now apply even_length.
  - apply (even_length (String "0" s)). cbn [String.length].
    rewrite Nat.even_succ, <- Nat.negb_even, E. reflexivity.
Qed.

Lemma padToEven_digits (s : string) : allHexDigits (padToEven s) = allHexDigits s.
Proof. unfold padToEven. now destruct (Nat.even (String.length s)). Qed.

(** The payload as the parser prints it: lower case, whole bytes. *)
Lemma hexOfBytes_bytesOfHex (s : string) :
  isValidHex s = true ->
  hexOfBytes (bytesOfHex s) = ("0x" ++ toLowerCase (padToEven (stripHexPrefix s)))%string.
Proof.
  intros H. apply isValidHex_inv in H as (t & -> & Ht).
  unfold hexOfBytes, bytesOfHex. rewrite stripHexPrefix_prefixed. f_equal.
  destruct (padToEven_length t) as [n Hn].
  apply (toString_from_hex n); [exact Hn | now rewrite padToEven_digits].
Qed.

Lemma recover_built_deployment (config : DeploymentConfig) (res : DeploymentResult)
      (gasLimit gasPrice value : NumberOrString) (bytecode : string) :
  dc_gasLimit config = Some gasLimit -> dc_gasPrice config = Some gasPrice ->
  dc_bytecode config = Some bytecode -> dc_value config = Some value ->
  N.of_nat (String.length bytecode) < 2 ^ 53 ->
  fieldValue gasPrice < 2 ^ 256 -> fieldValue gasLimit < 2 ^ 256 ->
  fieldValue value < 2 ^ 256 ->
  genRawDeployment config = Ok res ->
  recoverRawTransaction (dr_rawTx res) =
  Ok {| rr_nonce := 0;
        rr_gasPrice := Number_of_bigint (encodedValue gasPrice);
        rr_gasLimit := Number_of_bigint (encodedValue gasLimit);
        rr_to := None;
        rr_value := Number_of_bigint (encodedValue value);
        rr_data := hexOfBytes (bytesOfHex bytecode);
        rr_v := Some (dr_v res);
        rr_r := Some ("0x" ++ BigInt_toString16 (signatureValue (dr_r res)))%string;
        rr_s := Some (dr_s res) |}.
Proof.
  intros Egl Egp Edata Ev Hlen Bgp Bgl Bv H.
  apply genRawDeployment_Ok in H
    as (gl & gp & data' & v & tx & sender & ab & Egl' & Egp' & Edata' & Ev'
        & Hgp & Hgl & Hv & Hdata & Hrhex & Htx & Hsender & _ & ->).
  rewrite Egl in Egl'. rewrite Egp in Egp'. rewrite Edata in Edata'. rewrite Ev in Ev'.
  inversion Egl'; inversion Egp'; inversion Edata'; inversion Ev'.
  subst gl gp data' v. clear Egl' Egp' Edata' Ev'.
  cbn [dr_rawTx dr_v dr_r dr_s].
  rewrite recoverRawTransaction_hex.
  rewrite (fromSerializedTx_built gasPrice gasLimit value None bytecode (dc_r config)
             tx sender) by assumption.
  cbn [bind].
  destruct (recovered_signature _ _ _ _ _ _ _ _ Hgp Hgl Hv Hrhex Htx Hsender)
    as (Sv & Sr & Ss).
  destruct (built_fields _ _ _ _ _ _ _ Hgp Hgl Hv Htx)
    as (_ & Fn & Fgp & Fgl & Fv & Fto & Fd & _).
  unfold recovered in *. cbn [rr_v rr_r rr_s] in Sv, Sr, Ss.
  rewrite Sv, Sr, Ss, Fn, Fgp, Fgl, Fv, Fto, Fd.
  reflexivity.
Qed.

(** X17 (round trip in general). Parsing what a builder built (numbers of at
    most 256 bits) returns nonce 0, [Number] (the nearest double) of each of
    the three integers encoded in the transaction, the recipient in lower case
    (none for a deployment), the payload in lower case with a zero digit in
    front when its digits are odd in number, v "0x1b", s the constant, and [r]
    in lower case without leading zeros. The encoded integer of a field that
    passes the hex validation is the one that its hex text denotes; it is the
    value of the field for a hex string and for a number up to [2^53]. *)
Theorem roundtrip_normalised :
  (forall config res gasLimit gasPrice value to data,
      tc_gasLimit config = Some gasLimit -> tc_gasPrice config = Some gasPrice ->
      tc_to config = Some to -> tc_data config = Some data ->
      tc_value config = Some value ->
      transactionInRange config = true ->
      genRawTransaction config = Ok res ->
      recoverRawTransaction (tr_rawTx res) =
      Ok {| rr_nonce := 0;
            rr_gasPrice := Number_of_bigint (encodedValue gasPrice);
            rr_gasLimit := Number_of_bigint (encodedValue gasLimit);
            rr_to := Some (toLowerCase to);
            rr_value := Number_of_bigint (encodedValue value);
            rr_data := ("0x" ++ toLowerCase (padToEven (stripHexPrefix data)))%string;
            rr_v := Some "0x1b";
            rr_r := Some ("0x" ++ BigInt_toString16 (signatureValue (tr_r res)))%string;
            rr_s := Some HARDCODED_S |})
  /\ (forall config res gasLimit gasPrice value bytecode,
         dc_gasLimit config = Some gasLimit -> dc_gasPrice config = Some gasPrice ->
         dc_bytecode config = Some bytecode -> dc_value config = Some value ->
         deploymentInRange config = true ->
         genRawDeployment config = Ok res ->
         recoverRawTransaction (dr_rawTx res) =
         Ok {| rr_nonce := 0;
               rr_gasPrice := Number_of_bigint (encodedValue gasPrice);
               rr_gasLimit := Number_of_bigint (encodedValue gasLimit);
               rr_to := None;
               rr_value := Number_of_bigint (encodedValue value);
               rr_data :=
                 ("0x" ++ toLowerCase (padToEven (stripHexPrefix bytecode)))%string;
               rr_v := Some "0x1b";
               rr_r := Some ("0x" ++ BigInt_toString16 (signatureValue (dr_r res)))%string;
               rr_s := Some HARDCODED_S |})
  /\ (forall x : NumberOrString,
         isValidHex (toHexField x) = true ->
         hexStringValue (stripHexPrefix (toHexField x)) = encodedValue x)
  /\ (forall x : NumberOrString,
         exactlyEncoded x = true -> encodedValue x = fieldValue x).
Proof.
  split; [| split; [| split; [exact encodedValue_text | exact exactlyEncoded_value]]].
  - intros config res gasLimit gasPrice value to data Egl Egp Eto Edata Ev Hrange H.
    unfold transactionInRange in Hrange. rewrite Egl, Egp, Ev, Edata in Hrange.
    destruct (inRange_Some _ _ _ _ Hrange) as (Bgl & Bgp & Bv & Hlen).
    rewrite (recover_built config res gasLimit gasPrice value to data) by assumption.
    apply genRawTransaction_Ok in H
      as (gl & gp & to' & data' & v & tx & sender & _ & _ & _ & Edata' & _
          & _ & _ & _ & _ & Hdata & _ & _ & _ & ->).
    rewrite Edata in Edata'. inversion Edata'; subst data'.
    cbn [tr_v tr_r tr_s]. now rewrite (hexOfBytes_bytesOfHex data Hdata).
  - intros config res gasLimit gasPrice value data Egl Egp Edata Ev Hrange H.
    unfold deploymentInRange in Hrange. rewrite Egl, Egp, Ev, Edata in Hrange.
    destruct (inRange_Some _ _ _ _ Hrange) as (Bgl & Bgp & Bv & Hlen).
    rewrite (recover_built_deployment config res gasLimit gasPrice value data)
      by assumption.
    apply genRawDeployment_Ok in H
      as (gl & gp & data' & v & tx & sender & ab & _ & _ & Edata' & _
          & _ & _ & _ & Hdata & _ & _ & _ & _ & ->).
    rewrite Edata in Edata'. inversion Edata'; subst data'.
    cbn [dr_v dr_r dr_s]. now rewrite (hexOfBytes_bytesOfHex data Hdata).
Qed.

Lemma roundtrip_normalised_witness :
  recoverRawTransaction (tr_rawTx unnormalizedResult) =
  Ok {| rr_nonce := 0;
        rr_gasPrice := 9007199254740992;
        rr_gasLimit := 100000;
        rr_to := Some "0x742d35cc6634c0532925a3b844bc454e4438f44e";
        rr_value := 0;
        rr_data := "0xabcd";
        rr_v := Some "0x1b";
        rr_r := Some "0xa12121212121212121212121212121212121212121212121212121212121212";
        rr_s := Some HARDCODED_S |}.
Proof.
  exact (proj1 roundtrip_normalised unnormalizedConfig unnormalizedResult
           (Num (JsInt 100000)) (Str "0x20000000000001") (Num (JsInt 0))
           "0x742d35Cc6634C0532925a3b844Bc454e4438f44e" "0xABCD"
           eq_refl eq_refl eq_refl eq_refl eq_refl eq_refl
           genRawTransaction_unnormalizedConfig).
Defined.

(** ** Building again from what the parser returned *)

Lemma exactRange_Some (gasLimit gasPrice value : NumberOrString) (data : string) :
  exactRange (Some gasLimit) (Some gasPrice) (Some value) (Some data) = true ->
  (fieldValue gasLimit <> 0 /\ fieldValue gasLimit <= 2 ^ 53)
  /\ (fieldValue gasPrice <> 0 /\ fieldValue gasPrice <= 2 ^ 53)
  /\ fieldValue value <= 2 ^ 53 /\ N.of_nat (String.length data) < 2 ^ 53.
Proof.
  unfold exactRange. cbn [truthy_opt]. intros H.
  apply andb_prop in H as [H H4]. apply andb_prop in H as [H H3].
  apply andb_prop in H as [H1 H2].
  apply andb_prop in H1 as [H1 H1']. apply andb_prop in H2 as [H2 H2'].
  apply N.ltb_lt in H1, H2, H4. apply N.leb_le in H1', H2', H3.
  repeat split; try assumption; lia.
Qed.

Lemma transaction_ext (t u : Transaction) :
  tx_nonce t = tx_nonce u -> tx_gasPrice t = tx_gasPrice u ->
  tx_gasLimit t = tx_gasLimit u -> tx_to t = tx_to u -> tx_value t = tx_value u ->
  tx_data t = tx_data u -> tx_v t = tx_v u -> tx_r t = tx_r u -> tx_s t = tx_s u ->
  t = u.
Proof.
  destruct t as [n1 gp1 gl1 to1 v1 d1 sv1 sr1 ss1].
  destruct u as [n2 gp2 gl2 to2 v2 d2 sv2 sr2 ss2].
  cbn [tx_nonce tx_gasPrice tx_gasLimit tx_to tx_value tx_data tx_v tx_r tx_s].
  intros. subst. reflexivity.
Qed.

Lemma isValidHex_JsInt (n : N) : isValidHex (toHexField (Num (JsInt n))) = true.
Proof. rewrite isValidHex_number. reflexivity. Qed.

Lemma encodedValue_JsInt (n : N) : n <= 2 ^ 53 -> encodedValue (Num (JsInt n)) = n.
Proof. intros H. now rewrite encodedValue_exact. Qed.

Lemma truthy_JsInt (n : N) : n <> 0 -> truthy (Num (JsInt n)) = true.
Proof.
  intros H. unfold JsInt. cbn [truthy truthy_number].
  now destruct (N.eqb_spec n 0).
Qed.

Lemma isValidHex_hexOfBytes (b : bytes) : isValidHex (hexOfBytes b) = true.
Proof. unfold hexOfBytes. rewrite isValidHex_prefixed. apply allHexDigits_toString_hex. Qed.

(** The text the parser prints for a signature component denotes it. *)
Lemma printed_signature (n : N) :
  n <> 0 ->
  let r := Some ("0x" ++ BigInt_toString16 n)%string in
  isValidHex (orDefault r HARDCODED_R) = true
  /\ orDefault r HARDCODED_R = ("0x" ++ BigInt_toString16 n)%string
  /\ option_map bufferToBigInt (nonEmpty (bytesOfHex (orDefault r HARDCODED_R))) = Some n.
Proof.
  intros Hn r.
  assert (E : orDefault r HARDCODED_R = ("0x" ++ BigInt_toString16 n)%string)
    by reflexivity.
  assert (V : isValidHex ("0x" ++ BigInt_toString16 n) = true)
    by (rewrite isValidHex_prefixed; apply allHexDigits_toString16).
  rewrite E. split; [exact V |]. split; [reflexivity |].
  pose proof (bytesOfHex_value _ V) as B.
  rewrite stripHexPrefix_prefixed, hexStringValue_toString16 in B.
  destruct (bytesOfHex ("0x" ++ BigInt_toString16 n)) as [| x l] eqn:Eb.
  - exfalso. apply Hn. rewrite <- B. reflexivity.
  - cbn [nonEmpty option_map]. now rewrite B.
Qed.

Lemma toChecksumAddress_toLowerCase (to : string) :
  isValidChecksumAddress to = true -> toChecksumAddress (toLowerCase to) = to.
Proof.
  intros H. destruct (isValidChecksumAddress_inv to H) as (t & -> & _ & _ & C).
  rewrite <- C at 2. apply toChecksumAddress_lower.
  now rewrite toLowerCase_prefixed, !stripHexPrefix_prefixed, toLowerCase_idempotent.
Qed.

(** The transaction object of a builder, rebuilt from what the parser
    prints for it. *)
Lemma rebuilt_transaction (gasPrice gasLimit value : NumberOrString) (to : option string)
      (data : string) (r : option string) (tx : Transaction) (sender : bytes) :
  isValidHex (toHexField gasPrice) = true ->
  isValidHex (toHexField gasLimit) = true ->
  isValidHex (toHexField value) = true ->
  isValidHex data = true ->
  match to with Some a => isValidHex a | None => true end = true ->
  isValidHex (orDefault r HARDCODED_R) = true ->
  fieldValue gasPrice <= 2 ^ 53 -> fieldValue gasLimit <= 2 ^ 53 ->
  fieldValue value <= 2 ^ 53 ->
  Transaction_fromTxData (transactionParams gasPrice gasLimit to value data r) = Ok tx ->
  getSenderAddress tx = Ok sender ->
  Transaction_fromTxData
    (transactionParams (Num (JsInt (fieldValue gasPrice)))
                       (Num (JsInt (fieldValue gasLimit))) to
                       (Num (JsInt (fieldValue value)))
                       (hexOfBytes (bytesOfHex data))
                       (Some ("0x" ++ BigInt_toString16
                                        (signatureValue (orDefault r HARDCODED_R)))%string))
  = Ok tx.
Proof.
  intros Hgp Hgl Hv Hd Hto Hrhex Bgp Bgl Bv Htx Hsender.
  pose proof (built_signature _ _ _ _ _ _ _ _ Hgp Hgl Hv Hrhex Htx Hsender) as Hr.
  destruct (built_fields _ _ _ _ _ _ _ Hgp Hgl Hv Htx)
    as (Hvalid & Fn & Fgp & Fgl & Fv & Fto & Fd & Fvv & Fr & Fs).
  rewrite (encodedValue_exact _ Bgp) in Fgp. rewrite (encodedValue_exact _ Bgl) in Fgl.
  rewrite (encodedValue_exact _ Bv) in Fv.
  assert (Hn : signatureValue (orDefault r HARDCODED_R) <> 0) by lia.
  destruct (printed_signature _ Hn) as (Pv & _ & Pr).
  assert (Er : tx_r tx = Some (signatureValue (orDefault r HARDCODED_R))).
  { destruct (getSenderAddress_Ok _ _ Hsender) as (v' & r' & s' & _ & Er & _).
    rewrite Fr in *.
    destruct (nonEmpty (bytesOfHex (orDefault r HARDCODED_R))) as [b |] eqn:E;
      [| discriminate].
    apply nonEmpty_Some in E. subst b. cbn [option_map]. f_equal.
    now apply bytesOfHex_value. }
  rewrite builtTransaction;
    try apply isValidHex_JsInt; try apply isValidHex_hexOfBytes; try assumption.
  - rewrite <- Hvalid. f_equal.
    apply transaction_ext;
      cbn [tx_nonce tx_gasPrice tx_gasLimit tx_to tx_value tx_data tx_v tx_r tx_s];
      rewrite ?encodedValue_JsInt by assumption;
      try (symmetry; assumption).
    + now rewrite bytesOfHex_hexOfBytes.
    + rewrite Pr. now symmetry.
  - unfold invalidOverride. apply invalidOverride_valid. exact Pv.
Qed.

(** X18 (building again from the parse). For a result whose numbers [Number]
    represents exactly (and whose gas limit and gas price are not zero), the
    config read off the parse of its [rawTx] (the recipient put back in
    checksum case by [toChecksumAddress]) is accepted and gives the same raw
    transaction, the same addresses and the same upfront cost. *)
Theorem rebuilt_from_recovered :
  (forall config res out,
      genRawTransaction config = Ok res ->
      exactRange (tc_gasLimit config) (tc_gasPrice config) (tc_value config)
                 (tc_data config) = true ->
      recoverRawTransaction (tr_rawTx res) = Ok out ->
      exists res',
        genRawTransaction (transactionOfRecovered out) = Ok res'
        /\ tr_rawTx res' = tr_rawTx res
        /\ tr_senderAddress res' = tr_senderAddress res
        /\ tr_upfrontCost res' = tr_upfrontCost res)
  /\ (forall config res out,
         genRawDeployment config = Ok res ->
         exactRange (dc_gasLimit config) (dc_gasPrice config) (dc_value config)
                    (dc_bytecode config) = true ->
         recoverRawTransaction (dr_rawTx res) = Ok out ->
         exists res',
           genRawDeployment (deploymentOfRecovered out) = Ok res'
           /\ dr_rawTx res' = dr_rawTx res
           /\ dr_deployerAddress res' = dr_deployerAddress res
           /\ dr_contractAddress res' = dr_contractAddress res
           /\ dr_upfrontCost res' = dr_upfrontCost res).
Proof.
  assert (P : 2 ^ 53 < 2 ^ 256) by reflexivity.
  split.
  - intros config res out H Hrange Hparse.
    pose proof H as H0.
    apply genRawTransaction_Ok in H
      as (gl & gp & to & data & v & tx & sender & Egl & Egp & Eto & Edata & Ev
          & Hto & Hgp & Hgl & Hv & Hdata & Hrhex & Htx & Hsender & Eres).
    rewrite Egl, Egp, Ev, Edata in Hrange.
    destruct (exactRange_Some _ _ _ _ Hrange)
      as ((Ngl & Bgl) & (Ngp & Bgp) & Bv & Hlen).
    rewrite (recover_built config res gl gp v to data) in Hparse
      by (assumption || lia).
    rewrite !encodedValue_exact in Hparse by assumption.
    rewrite !Number_of_bigint_exact in Hparse by assumption.
    inversion Hparse; subst out. clear Hparse.
    subst res. cbn [tr_rawTx tr_senderAddress tr_upfrontCost tr_r tr_s tr_v].
    unfold transactionOfRecovered.
    cbn [rr_gasLimit rr_gasPrice rr_to rr_data rr_value rr_r option_map].
    rewrite (toChecksumAddress_toLowerCase to Hto).
    pose proof (rebuilt_transaction gp gl v (Some to) data (tc_r config) tx sender
                  Hgp Hgl Hv Hdata (isValidChecksumAddress_hex _ Hto) Hrhex
                  Bgp Bgl Bv Htx Hsender)
      as Hre.
    assert (Hn : signatureValue (orDefault (tc_r config) HARDCODED_R) <> 0).
    { pose proof (built_signature _ _ _ _ _ _ _ _ Hgp Hgl Hv Hrhex Htx Hsender). lia. }
    destruct (printed_signature _ Hn) as (Pv & _ & _).
    eexists. split.
    + eapply (genRawTransaction_intro _ _ _ _ to _ tx sender);
        cbn [tc_gasLimit tc_gasPrice tc_to tc_data tc_value tc_r];
        try reflexivity; try (now apply truthy_JsInt);
        try apply isValidHex_JsInt; try apply isValidHex_hexOfBytes;
        try assumption.
    + repeat split; reflexivity.
  - intros config res out H Hrange Hparse.
    pose proof H as H0.
    apply genRawDeployment_Ok in H
      as (gl & gp & data & v & tx & sender & ab & Egl & Egp & Edata & Ev
          & Hgp & Hgl & Hv & Hdata & Hrhex & Htx & Hsender & Hab & Eres).
    rewrite Egl, Egp, Ev, Edata in Hrange.
    destruct (exactRange_Some _ _ _ _ Hrange)
      as ((Ngl & Bgl) & (Ngp & Bgp) & Bv & Hlen).
    rewrite (recover_built_deployment config res gl gp v data) in Hparse
      by (assumption || lia).
    rewrite !encodedValue_exact in Hparse by assumption.
    rewrite !Number_of_bigint_exact in Hparse by assumption.
    inversion Hparse; subst out. clear Hparse.
    subst res.
    cbn [dr_rawTx dr_deployerAddress dr_contractAddress dr_upfrontCost dr_r dr_s dr_v].
    unfold deploymentOfRecovered.
    cbn [rr_gasLimit rr_gasPrice rr_to rr_data rr_value rr_r option_map].
    pose proof (rebuilt_transaction gp gl v None data (dc_r config) tx sender
                  Hgp Hgl Hv Hdata eq_refl Hrhex Bgp Bgl Bv Htx Hsender) as Hre.
    assert (Hn : signatureValue (orDefault (dc_r config) HARDCODED_R) <> 0).
    { pose proof (built_signature _ _ _ _ _ _ _ _ Hgp Hgl Hv Hrhex Htx Hsender). lia. }
    destruct (printed_signature _ Hn) as (Pv & _ & _).
    eexists. split.
    + eapply (genRawDeployment_intro _ _ _ _ _ tx sender ab);
        cbn [dc_gasLimit dc_gasPrice dc_bytecode dc_value dc_r];
        try reflexivity; try (now apply truthy_JsInt);
        try apply isValidHex_JsInt; try apply isValidHex_hexOfBytes;
        try assumption.
    + repeat split; reflexivity.
Qed.

Lemma rebuilt_from_recovered_witness :
  exists res',
    genRawDeployment
      (deploymentOfRecovered
         {| rr_nonce := 0;
            rr_gasPrice := 1000000000;
            rr_gasLimit := 100000;
            rr_to := None;
            rr_value := 0;
            rr_data := "0x1234";
            rr_v := Some "0x1b";
            rr_r := Some HARDCODED_R;
            rr_s := Some HARDCODED_S |}) = Ok res'
    /\ dr_rawTx res' = dr_rawTx validDeploymentResult
    /\ dr_deployerAddress res' = dr_deployerAddress validDeploymentResult
    /\ dr_contractAddress res' = dr_contractAddress validDeploymentResult
    /\ dr_upfrontCost res' = dr_upfrontCost validDeploymentResult.
Proof.
  assert (Hparse : recoverRawTransaction (dr_rawTx validDeploymentResult)
                   = Ok {| rr_nonce := 0;
                           rr_gasPrice := 1000000000;
                           rr_gasLimit := 100000;
                           rr_to := None;
                           rr_value := 0;
                           rr_data := "0x1234";
                           rr_v := Some "0x1b";
                           rr_r := Some HARDCODED_R;
                           rr_s := Some HARDCODED_S |})
    by (vm_compute; reflexivity).
  exact (proj2 rebuilt_from_recovered validDeployment validDeploymentResult _
           genRawDeployment_validDeployment eq_refl Hparse).
Defined.

(** ** Bytes after the transaction *)

(** Decoding the encoding of a list of byte strings, followed by anything,
    reads the list and leaves what follows. *)
Lemma decode_item_list (bs : list bytes) (rest : bytes) (fuel : nat) :
  Forall sized bs -> sized (flat_map encodeBytes bs) ->
  (List.length (flat_map encodeBytes bs) + 3 <= fuel)%nat ->
  RLP_decode_item (S fuel) (RLP_encode (RLPList (map RLPBytes bs)) ++ rest)
  = Ok (RLPList (map RLPBytes bs), rest).
Proof.
  intros Hs Hp Hfuel. cbn [RLP_encode]. rewrite flat_map_encode.
  set (payload := flat_map encodeBytes bs) in *.
  unfold sized in Hp.
  assert (Hitems : RLP_decode_items fuel payload = Ok (map RLPBytes bs)).
  { apply decode_items_flat; [exact Hs |].
    pose proof (length_flat_encode bs) as H. fold payload in H. lia. }
  destruct (N.ltb_spec (len payload) 56) as [Hl | Hl].
  - rewrite encodeLength_short by exact Hl.
    set (hd := byte_of_N (len payload + 192)).
    cbn [app].
    assert (Hhd : Byte.to_N hd = len payload + 192)
      by (unfold hd; rewrite to_N_byte_of_N; apply N.mod_small; lia).
    cbn [RLP_decode_item]. rewrite !Hhd.
    destruct (N.leb_spec (len payload + 192) 127); [lia |].
    destruct (N.leb_spec (len payload + 192) 183); [lia |].
    destruct (N.leb_spec (len payload + 192) 191); [lia |].
    destruct (N.leb_spec (len payload + 192) 247); [| lia].
    replace (len payload + 192 - 191) with (1 + len payload) by lia.
    assert (Hin : safeSlice (hd :: payload ++ rest) 1 (1 + len payload) = Ok payload).
    { now apply (safeSlice_middle [hd] payload rest). }
    rewrite Hin. cbn [bind]. rewrite Hitems. cbn [bind].
    assert (E : slice (hd :: payload ++ rest) (1 + len payload)
                      (len (hd :: payload ++ rest)) = rest).
    { change (hd :: payload ++ rest) with ((hd :: payload) ++ rest).
      apply slice_suffix; [now rewrite len_cons | reflexivity]. }
    rewrite E. reflexivity.
  - rewrite encodeLength_long by exact Hl.
    set (lb := bigIntToUnpaddedBuffer (len payload)).
    assert (Hlb1 : 1 <= len lb) by (apply len_unpadded_pos; lia).
    assert (Hlb8 : len lb <= 8) by (apply (len_unpadded_le (len payload) 8); exact Hp).
    set (hd := byte_of_N (192 + 55 + len lb)).
    cbn [app]. rewrite <- app_assoc.
    assert (Hhd : Byte.to_N hd = 192 + 55 + len lb)
      by (unfold hd; rewrite to_N_byte_of_N; apply N.mod_small; lia).
    cbn [RLP_decode_item]. rewrite !Hhd.
    destruct (N.leb_spec (192 + 55 + len lb) 127); [lia |].
    destruct (N.leb_spec (192 + 55 + len lb) 183); [lia |].
    destruct (N.leb_spec (192 + 55 + len lb) 191); [lia |].
    destruct (N.leb_spec (192 + 55 + len lb) 247); [lia |].
    replace (192 + 55 + len lb - 246) with (1 + len lb) by lia.
    assert (Hlen : safeSlice (hd :: lb ++ payload ++ rest) 1 (1 + len lb) = Ok lb).
    { now apply (safeSlice_middle [hd] lb (payload ++ rest)). }
    rewrite Hlen. cbn [bind].
    unfold lb at 1. rewrite decodeLength_unpadded by lia. cbn [bind].
    destruct (N.leb_spec 56 (len payload)); [| lia]. cbn [guard bind].
    assert (Htot : (1 + len lb + len payload <=? len (hd :: lb ++ payload ++ rest)) = true).
    { apply N.leb_le. rewrite len_cons, !len_app. lia. }
    rewrite Htot. cbn [guard bind].
    assert (Hin : safeSlice (hd :: lb ++ payload ++ rest) (1 + len lb)
                            (1 + len lb + len payload) = Ok payload).
    { change (hd :: lb ++ payload ++ rest) with ((hd :: lb) ++ payload ++ rest).
      apply safeSlice_middle; rewrite len_cons; lia. }
    rewrite Hin. cbn [bind]. rewrite Hitems. cbn [bind].
    assert (E : slice (hd :: lb ++ payload ++ rest) (1 + len lb + len payload)
                      (len (hd :: lb ++ payload ++ rest)) = rest).
    { change (hd :: lb ++ payload ++ rest) with ((hd :: lb) ++ payload ++ rest).
      rewrite app_assoc.
      apply slice_suffix; [rewrite len_app, len_cons; lia | reflexivity]. }
    rewrite E. reflexivity.
Qed.

Lemma decode_list_trailing (bs : list bytes) (rest : bytes) :
  Forall sized bs -> sized (flat_map encodeBytes bs) -> rest <> [] ->
  RLP_decode (RLP_encode (RLPList (map RLPBytes bs)) ++ rest) = Err MalformedRLP.
Proof.
  intros Hs Hp Hrest. unfold RLP_decode.
  destruct (RLP_encode (RLPList (map RLPBytes bs)) ++ rest) as [| x t] eqn:E.
  { apply app_eq_nil in E as [_ E]. contradiction. }
  rewrite <- E.
  assert (Hlen : (List.length (flat_map encodeBytes bs) + 1
                  <= List.length (RLP_encode (RLPList (map RLPBytes bs))))%nat).
  { cbn [RLP_encode]. rewrite flat_map_encode, length_app.
    unfold encodeLength. destruct (_ <? 56); cbn [List.length]; lia. }
  replace (2 * List.length (RLP_encode (RLPList (map RLPBytes bs)) ++ rest) + 2)%nat
    with (S (2 * List.length (RLP_encode (RLPList (map RLPBytes bs)) ++ rest) + 1))%nat
    by lia.
  rewrite decode_item_list; try assumption.
  - cbn [bind snd]. destruct rest; [contradiction | reflexivity].
  - rewrite length_app.
    assert (1 <= List.length rest)%nat by (destruct rest; [contradiction | cbn; lia]).
    lia.
Qed.

Lemma Buffer_from_hex_app (b : bytes) (s : string) :
  Buffer_from_hex (Buffer_toString_hex b ++ s) = b ++ Buffer_from_hex s.
Proof.
  induction b as [| x b IH]; [reflexivity |].
  cbn [Buffer_toString_hex app]. unfold byteToHex. cbn [String.append].
  cbn [Buffer_from_hex].
  rewrite !hexDigitValue_hexDigit, IH.
  - f_equal. rewrite <- (byte_of_N_to_N x) at 3. f_equal.
    pose proof (N.div_mod' (Byte.to_N x) 16). lia.
  - apply N.mod_lt. discriminate.
  - apply N.Div0.div_lt_upper_bound. pose proof (to_N_lt x). lia.
Qed.

(** X19 (trailing bytes). Nothing may follow the transaction: the raw
    transaction of a result, followed by one byte or more, is rejected by the
    parser as malformed. *)
Theorem trailing_bytes_rejected :
  (forall config res (extra : bytes),
      genRawTransaction config = Ok res -> transactionInRange config = true ->
      extra <> [] ->
      recoverRawTransaction (tr_rawTx res ++ Buffer_toString_hex extra)
      = Err MalformedRLP)
  /\ (forall config res (extra : bytes),
         genRawDeployment config = Ok res -> deploymentInRange config = true ->
         extra <> [] ->
         recoverRawTransaction (dr_rawTx res ++ Buffer_toString_hex extra)
         = Err MalformedRLP).
Proof.
  assert (G : forall tx extra,
             Forall sized (raw tx) -> sized (flat_map encodeBytes (raw tx)) ->
             extra <> [] ->
             recoverRawTransaction (hexOfBytes (serialize tx) ++ Buffer_toString_hex extra)
             = Err MalformedRLP).
  { intros tx extra Hs Hp He. unfold recoverRawTransaction, hexOfBytes.
    change (("0x" ++ Buffer_toString_hex (serialize tx)) ++ Buffer_toString_hex extra)%string
      with ("0x" ++ (Buffer_toString_hex (serialize tx) ++ Buffer_toString_hex extra))%string.
    rewrite isValidHex_prefixed, stripHexPrefix_prefixed, allHexDigits_app,
      !allHexDigits_toString_hex.
    cbn [andb negb]. rewrite Buffer_from_hex_app, Buffer_from_toString_hex.
    unfold Transaction_fromSerializedTx, serialize.
    now rewrite decode_list_trailing. }
  split.
  - intros config res extra H Hrange He.
    apply genRawTransaction_Ok in H
      as (gl & gp & to & data & v & tx & sender & Egl & Egp & Eto & Edata & Ev
          & Hto & Hgp & Hgl & Hv & Hdata & Hrhex & Htx & Hsender & ->).
    unfold transactionInRange in Hrange. rewrite Egl, Egp, Ev, Edata in Hrange.
    destruct (inRange_Some _ _ _ _ Hrange) as (Bgl & Bgp & Bv & Hlen).
    cbn [tr_rawTx].
    destruct (built_sized gp gl v (Some to) data (tc_r config) tx sender)
      as [Hs Hp]; try assumption.
    now apply G.
  - intros config res extra H Hrange He.
    apply genRawDeployment_Ok in H
      as (gl & gp & data & v & tx & sender & ab & Egl & Egp & Edata & Ev
          & Hgp & Hgl & Hv & Hdata & Hrhex & Htx & Hsender & _ & ->).
    unfold deploymentInRange in Hrange. rewrite Egl, Egp, Ev, Edata in Hrange.
    destruct (inRange_Some _ _ _ _ Hrange) as (Bgl & Bgp & Bv & Hlen).
    cbn [dr_rawTx].
    destruct (built_sized gp gl v None data (dc_r config) tx sender)
      as [Hs Hp]; try assumption.
    now apply G.
Qed.

Lemma trailing_bytes_rejected_witness :
  recoverRawTransaction (tr_rawTx validResult ++ "00") = Err MalformedRLP.
Proof.
  apply (proj1 trailing_bytes_rejected validConfig validResult [x00]
           genRawTransaction_validConfig eq_refl).
  discriminate.
Defined.
